(** * nosql-dynamodb: expression builder, validator, value codec and result
    processor, embedded from the TypeScript sources

    - [DynamoValidator.ts]          : [validateFieldName], [validateValue],
                                      [validatePagination]
    - [DynamoUtils.ts]              : [toDynamoDBValue], [fromDynamoDBValue],
                                      [mapDynamoDBItemToType]
    - [DynamoDBExpressionBuilder.ts]: [buildFilterExpression] and helpers
    - [DynamoDBService.ts]          : [prepareQueryParameters],
                                      [processResults], [buildQueryParams]
    - [DynamoQueryExecutor.ts]      : [executeQuery]

    JavaScript values are modelled by one inductive type [JsValue]; a thrown
    exception is the [Throw] outcome of the [Result] monad; objects used as
    dictionaries by the builder are finite maps. *)

From Stdlib Require Import ZArith Lia List Ascii String DecimalString DecimalNat.
From Stdlib Require Import Permutation Sorted.
From Stdlib Require OrderedTypeEx.
From stdpp Require Import gmap strings list.

Local Open Scope Z_scope.

(* ===================================================================== *)
(** ** Strings: the built-in string operations the sources call           *)
(* ===================================================================== *)

(** A string is a sequence of code units.  [toLowerCase] is modelled on the
    ASCII letters, the only letters that occur in the deny lists. *)
Definition isUpper (c : ascii) : bool :=
  (65 <=? nat_of_ascii c)%nat && (nat_of_ascii c <=? 90)%nat.

Definition isLower (c : ascii) : bool :=
  (97 <=? nat_of_ascii c)%nat && (nat_of_ascii c <=? 122)%nat.

Definition isDigit (c : ascii) : bool :=
  (48 <=? nat_of_ascii c)%nat && (nat_of_ascii c <=? 57)%nat.

Definition toLowerCaseChar (c : ascii) : ascii :=
  if isUpper c then ascii_of_nat (nat_of_ascii c + 32) else c.

Fixpoint toLowerCase (s : string) : string :=
  match s with
  | EmptyString => EmptyString
  | String c r => String (toLowerCaseChar c) (toLowerCase r)
  end.

(** [startsWith p s]: [p] is a prefix of [s]. *)
Fixpoint startsWith (p s : string) : bool :=
  match p, s with
  | EmptyString, _ => true
  | String a p', String b s' => if Ascii.eqb a b then startsWith p' s' else false
  | String _ _, EmptyString => false
  end.

(** [String.prototype.includes]. *)
Fixpoint includes (s t : string) : bool :=
  match s with
  | EmptyString => startsWith t EmptyString
  | String _ r => startsWith t s || includes r t
  end.

(** [String.prototype.split] with a one-character separator. *)
Fixpoint split (sep : ascii) (s : string) : list string :=
  match s with
  | EmptyString => [EmptyString]
  | String c r =>
      if Ascii.eqb c sep then EmptyString :: split sep r
      else match split sep r with
           | [] => [String c EmptyString]
           | p :: ps => String c p :: ps
           end
  end.

(** [Array.prototype.join]. *)
Definition join (sep : string) (l : list string) : string := String.concat sep l.

(** Template-literal rendering of a non-negative integer index. *)
Definition showNat (n : nat) : string := NilEmpty.string_of_uint (Nat.to_uint n).

(** [Array.prototype.some] / [Array.prototype.includes] on string arrays. *)
Definition some {A} (p : A -> bool) (l : list A) : bool := existsb p l.
Definition arrayIncludes (l : list string) (s : string) : bool :=
  existsb (String.eqb s) l.

(** [forEach]/[map] with the element index, as the callbacks receive it. *)
Fixpoint indexedFrom {A} (i : nat) (l : list A) : list (nat * A) :=
  match l with
  | [] => []
  | x :: r => (i, x) :: indexedFrom (S i) r
  end.
Definition indexed {A} (l : list A) : list (nat * A) := indexedFrom 0 l.

(* ===================================================================== *)
(** ** Exceptions                                                         *)
(* ===================================================================== *)

Inductive JsError :=
| DynamoValidationError (message : string)
| TypeError.

Inductive Result (A : Type) :=
| Ok (a : A)
| Throw (e : JsError).
Arguments Ok {A} a.
Arguments Throw {A} e.

#[global] Instance Result_ret : MRet Result := fun _ a => Ok a.
#[global] Instance Result_bind : MBind Result := fun _ _ f m =>
  match m with
  | Ok a => f a
  | Throw e => Throw e
  end.
#[global] Instance Result_fmap : FMap Result := fun _ _ f m =>
  match m with
  | Ok a => Ok (f a)
  | Throw e => Throw e
  end.

(** The computation ended without an exception. *)
Definition isOk {A} (r : Result A) : bool :=
  match r with Ok _ => true | Throw _ => false end.

Section Loops.
Context {A B : Type}.

(** [l.forEach(f)] where [f] may throw: the first exception aborts the loop. *)
Definition forEachM (f : A -> Result unit) : list A -> Result unit :=
  fix go l :=
    match l with
    | [] => Ok tt
    | x :: r => match f x with Ok _ => go r | Throw e => Throw e end
    end.

(** [l.map(f)] where [f] may throw. *)
Definition mapR (f : A -> Result B) : list A -> Result (list B) :=
  fix go l :=
    match l with
    | [] => Ok []
    | x :: r =>
        match f x with
        | Ok y => match go r with Ok ys => Ok (y :: ys) | Throw e => Throw e end
        | Throw e => Throw e
        end
    end.

(** A left fold whose step may throw ([for ... of] with an accumulator). *)
Definition foldlM (f : A -> B -> Result A) : A -> list B -> Result A :=
  fix go acc l :=
    match l with
    | [] => Ok acc
    | x :: r => match f acc x with Ok acc' => go acc' r | Throw e => Throw e end
    end.
End Loops.

(** Computations that may throw and that count the calls made to the
    decoders [fromDynamoDBValue] and [mapDynamoDBItemToType]. *)
Definition Counted (A : Type) : Type := nat -> Result A * nat.

Definition retC {A} (a : A) : Counted A := fun n => (Ok a, n).

Definition bindC {A B} (m : Counted A) (f : A -> Counted B) : Counted B :=
  fun n => match m n with
           | (Ok a, n') => f a n'
           | (Throw e, n') => (Throw e, n')
           end.

(** A step that calls no decoder. *)
Definition liftC {A} (r : Result A) : Counted A := fun n => (r, n).

(** One call of a decoder, with its outcome. *)
Definition decodeCall {A} (r : Result A) : Counted A := fun n => (r, S n).

(** Outcome and number of decoder calls of a whole computation. *)
Definition outcome {A} (m : Counted A) : Result A := fst (m 0%nat).
Definition decodeCalls {A} (m : Counted A) : nat := snd (m 0%nat).

Section CountedLoops.
Context {A B : Type}.

Definition forEachC (f : A -> Counted B) : list A -> Counted unit :=
  fix go l :=
    match l with
    | [] => retC tt
    | x :: r => bindC (f x) (fun _ => go r)
    end.

Definition mapC (f : A -> Counted B) : list A -> Counted (list B) :=
  fix go l :=
    match l with
    | [] => retC []
    | x :: r => bindC (f x) (fun y => bindC (go r) (fun ys => retC (y :: ys)))
    end.
End CountedLoops.

(** [Array.prototype.sort(cmp)] on an array without holes.  ECMAScript
    requires the sort to be stable and leaves the sequence of comparator
    calls to the engine; insertion from the right is used here.  [cmp x y]
    is the sign of the comparator's result; [undefined] elements are moved
    to the end without being compared (see [Array_sort] below). *)
Section Sort.
Context {A : Type} (cmp : A -> A -> Counted comparison).

Definition insertSorted (x : A) : list A -> Counted (list A) :=
  fix go sorted :=
    match sorted with
    | [] => retC [x]
    | y :: r =>
        bindC (cmp x y) (fun c =>
          match c with
          | Gt => bindC (go r) (fun r' => retC (y :: r'))
          | _ => retC (x :: sorted)
          end)
    end.

Definition insertionSort : list A -> Counted (list A) :=
  fix go l :=
    match l with
    | [] => retC []
    | x :: r => bindC (go r) (insertSorted x)
    end.
End Sort.

(** [Array.prototype.slice(start, end)]. *)
Definition slice {A} (l : list A) (start finish : Z) : list A :=
  let len := Z.of_nat (length l) in
  let k := if start <? 0 then Z.max (len + start) 0 else Z.min start len in
  let final := if finish <? 0 then Z.max (len + finish) 0 else Z.min finish len in
  take (Z.to_nat (final - k)) (drop (Z.to_nat k) l).

(* ===================================================================== *)
(** ** Numbers                                                            *)
(* ===================================================================== *)

(** The IEEE-754 arithmetic of the host is not re-implemented: the number
    type and the built-ins the sources call on it form an interface, and
    every definition below is generic in it. *)
Class Numbers := {
  number : Type;
  (** [Number.prototype.toString] *)
  Number_toString : number -> string;
  (** the global [parseFloat], on a string *)
  parseFloat : string -> number;
  (** [Number(s)] on a string *)
  StringToNumber : string -> number;
  (** an integer literal of the sources ([1], [10], [0], a length) *)
  number_of_Z : Z -> number;
  NaN : number;
  Number_isInteger : number -> bool;
  Number_isFinite : number -> bool;
  (** [+0], [-0] and [NaN] are the falsy numbers *)
  number_isFalsy : number -> bool;
  (** sign of [a - b] as a sort comparator reads it ([NaN] counts as 0) *)
  number_subSign : number -> number -> comparison;
  Number_isInteger_of_Z : forall z, Number_isInteger (number_of_Z z) = true
}.

(** [String.prototype.localeCompare] depends on the collation of the host;
    only the sign of its result is used. *)
Class Locale := {
  localeCompare : string -> string -> comparison
}.

(** Collation by code units, for running examples. *)
Definition codeUnitLocale : Locale := {| localeCompare := String.compare |}.

(** A small executable instance, used to run the definitions on concrete
    inputs: fixed-point numbers with three decimals.  [Some k] stands for
    k/1000 and [None] for NaN. *)
Module Milli.

Definition digitChar (d : Z) : ascii := ascii_of_nat (48 + Z.to_nat d).

Definition showFraction (f : Z) : string :=
  let d1 := f / 100 in
  let d2 := (f / 10) mod 10 in
  let d3 := f mod 10 in
  if negb (d3 =? 0) then String (digitChar d1) (String (digitChar d2) (String (digitChar d3) EmptyString))
  else if negb (d2 =? 0) then String (digitChar d1) (String (digitChar d2) EmptyString)
  else String (digitChar d1) EmptyString.

Definition toString (n : option Z) : string :=
  match n with
  | None => "NaN"
  | Some k =>
      let a := Z.abs k in
      let whole := showNat (Z.to_nat (a / 1000)) in
      let body := if a mod 1000 =? 0 then whole
                  else whole +:+ "." +:+ showFraction (a mod 1000) in
      if k <? 0 then "-" +:+ body else body
  end.

Fixpoint takeDigits (s : string) : list Z * string :=
  match s with
  | String c r =>
      if isDigit c
      then let '(ds, rest) := takeDigits r in
           (Z.of_nat (nat_of_ascii c - 48) :: ds, rest)
      else ([], s)
  | EmptyString => ([], s)
  end.

Definition digitsValue (ds : list Z) : Z :=
  fold_left (fun acc d => 10 * acc + d) ds 0.

Definition fractionValue (ds : list Z) : Z :=
  match ds with
  | [] => 0
  | [a] => 100 * a
  | [a; b] => 100 * a + 10 * b
  | a :: b :: c :: _ => 100 * a + 10 * b + c
  end.

Fixpoint skipSpaces (s : string) : string :=
  match s with
  | String c r => if Ascii.is_space c then skipSpaces r else s
  | EmptyString => s
  end.

(** Longest numeric prefix [-]digits[.digits], with what follows it. *)
Definition parsePrefix (s : string) : option (Z * string) :=
  let '(neg, s1) :=
    match s with
    | String "-" r => (true, r)
    | String "+" r => (false, r)
    | _ => (false, s)
    end in
  let '(ip, s2) := takeDigits s1 in
  let '(fp, s3) :=
    match s2 with
    | String "." r => takeDigits r
    | _ => ([], s2)
    end in
  match ip, fp with
  | [], [] => None
  | _, _ =>
      let v := 1000 * digitsValue ip + fractionValue fp in
      Some (if neg then - v else v, s3)
  end.

Definition parse (s : string) : option Z :=
  fst <$> parsePrefix (skipSpaces s).

(** [parsePrefix] on a string without a sign. *)
Definition unsignedPrefix (s : string) : option (Z * string) :=
  let '(ip, s2) := takeDigits s in
  let '(fp, s3) :=
    match s2 with
    | String "." r => takeDigits r
    | _ => ([], s2)
    end in
  match ip, fp with
  | [], [] => None
  | _, _ => Some (1000 * digitsValue ip + fractionValue fp, s3)
  end.

(** A string that does not go on with a digit. *)
Definition digitsEnd (s : string) : Prop :=
  match s with
  | String c _ => isDigit c = false
  | EmptyString => True
  end.

Definition ofString (s : string) : option Z :=
  match skipSpaces s with
  | EmptyString => Some 0
  | t => match parsePrefix t with
         | Some (v, rest) =>
             match skipSpaces rest with EmptyString => Some v | _ => None end
         | None => None
         end
  end.

Definition isInteger (n : option Z) : bool :=
  match n with Some k => k mod 1000 =? 0 | None => false end.

Definition isFinite (n : option Z) : bool :=
  match n with Some _ => true | None => false end.

Definition isFalsy (n : option Z) : bool :=
  match n with Some k => k =? 0 | None => true end.

Definition subSign (a b : option Z) : comparison :=
  match a, b with
  | Some x, Some y => x ?= y
  | _, _ => Eq
  end.

Lemma isInteger_of_Z z : isInteger (Some (z * 1000)) = true.
Proof. unfold isInteger. apply Z.eqb_eq, Z_mod_mult. Qed.

Definition numbers : Numbers := {|
  number := option Z;
  Number_toString := toString;
  parseFloat := parse;
  StringToNumber := ofString;
  number_of_Z := fun z => Some (z * 1000);
  NaN := None;
  Number_isInteger := isInteger;
  Number_isFinite := isFinite;
  number_isFalsy := isFalsy;
  number_subSign := subSign;
  Number_isInteger_of_Z := isInteger_of_Z
|}.

End Milli.

(* ===================================================================== *)
(** ** JavaScript values and the built-ins applied to them                *)
(* ===================================================================== *)

Section Js.
Context `{Numbers}.

(** Values of static type [any].  An object is the list of its own
    enumerable properties in [Object.entries] order.  Functions, symbols
    and host objects are outside the model, and so are properties inherited
    from [Object.prototype]. *)
#[warnings="-register-all"]
Inductive JsValue :=
| VUndefined
| VNull
| VBool (b : bool)
| VNumber (n : number)
| VString (s : string)
| VArray (elems : list JsValue)
| VObject (props : list (string * JsValue)).

Definition typeof (v : JsValue) : string :=
  match v with
  | VUndefined => "undefined"
  | VNull => "object"
  | VBool _ => "boolean"
  | VNumber _ => "number"
  | VString _ => "string"
  | VArray _ => "object"
  | VObject _ => "object"
  end.

Definition isUndefined (v : JsValue) : bool :=
  match v with VUndefined => true | _ => false end.

Definition isArray (v : JsValue) : bool :=
  match v with VArray _ => true | _ => false end.

(** Truthiness: [!v] is [negb (truthy v)]. *)
Definition truthy (v : JsValue) : bool :=
  match v with
  | VUndefined | VNull => false
  | VBool b => b
  | VNumber n => negb (number_isFalsy n)
  | VString s => negb (String.eqb s EmptyString)
  | VArray _ | VObject _ => true
  end.

(** The string that [String(v)] returns, when it returns (see [JsString]
    for when it does). *)
Fixpoint ToString (v : JsValue) : string :=
  match v with
  | VUndefined => "undefined"
  | VNull => "null"
  | VBool b => if b then "true" else "false"
  | VNumber n => Number_toString n
  | VString s => s
  | VArray l =>
      join "," (map (fun x => match x with
                              | VUndefined | VNull => EmptyString
                              | _ => ToString x
                              end) l)
  | VObject _ => "[object Object]"
  end.

(** The number that [Number(v)] returns, when it returns (see
    [JsNumber]). *)
Definition ToNumber (v : JsValue) : number :=
  match v with
  | VUndefined => NaN
  | VNull => number_of_Z 0
  | VBool b => number_of_Z (if b then 1 else 0)
  | VNumber n => n
  | VString s => StringToNumber s
  | VArray _ | VObject _ => StringToNumber (ToString v)
  end.

(** Coercing an object to a string or to a number calls its [toString]
    (for a number after [valueOf], which returns the object itself).  An own
    property named [toString] hides the method of [Object.prototype]; in
    data it is no function, so no method yields a primitive and the coercion
    ends in a TypeError.  An array coerces each of its elements that is
    neither [null] nor [undefined]. *)
Fixpoint shadowsToString (v : JsValue) : bool :=
  match v with
  | VObject props => existsb (fun kx => String.eqb (fst kx) "toString") props
  | VArray l => existsb shadowsToString l
  | _ => false
  end.

(** [String(v)], which is also how [parseFloat] and a computed property
    name [a[v]] read their argument. *)
Definition JsString (v : JsValue) : Result string :=
  if shadowsToString v then Throw TypeError else Ok (ToString v).

(** [Number(v)]. *)
Definition JsNumber (v : JsValue) : Result number :=
  if shadowsToString v then Throw TypeError else Ok (ToNumber v).

(** [parseFloat(v)]. *)
Definition parseFloatOf (v : JsValue) : Result JsValue :=
  s ← JsString v; Ok (VNumber (parseFloat s)).

Fixpoint lookupOwn {A} (k : string) (l : list (string * A)) : option A :=
  match l with
  | [] => None
  | (k', a) :: r => if String.eqb k k' then Some a else lookupOwn k r
  end.

(** The array index a property name denotes, if it is one. *)
Definition arrayIndex (k : string) : option nat :=
  match NilEmpty.uint_of_string k with
  | Some u => let n := Nat.of_uint u in
              if String.eqb (showNat n) k then Some n else None
  | None => None
  end.

Fixpoint stringChars (s : string) : list JsValue :=
  match s with
  | EmptyString => []
  | String c r => VString (String c EmptyString) :: stringChars r
  end.

Definition getElement (l : list JsValue) (k : string) : JsValue :=
  if String.eqb k "length" then VNumber (number_of_Z (Z.of_nat (length l)))
  else match arrayIndex k with
       | Some i => nth i l VUndefined
       | None => VUndefined
       end.

(** Reading property [k] of a value that is neither [null] nor [undefined],
    among its own properties: the property names that the sources write out
    ([page], [sortBy], [S], [Items], ...) are not names of members that
    values inherit.  A name chosen by the caller is read with [getComputed]
    below. *)
Definition get (v : JsValue) (k : string) : JsValue :=
  match v with
  | VObject props => default VUndefined (lookupOwn k props)
  | VArray l => getElement l k
  | VString s => getElement (stringChars s) k
  | _ => VUndefined
  end.

(** [v.k] / [v[k]]: reading a property of [null] or [undefined] throws. *)
Definition getMember (v : JsValue) (k : string) : Result JsValue :=
  match v with
  | VUndefined | VNull => Throw TypeError
  | _ => Ok (get v k)
  end.

(** The property names that every object inherits from [Object.prototype].
    Looking one of them up in an object that has no own property of that
    name, [operatorMap] or an item alike, finds the inherited member. *)
Definition objectPrototypeNames : list string :=
  ["constructor"; "__proto__"; "hasOwnProperty"; "isPrototypeOf";
   "propertyIsEnumerable"; "toLocaleString"; "toString"; "valueOf";
   "__defineGetter__"; "__defineSetter__"; "__lookupGetter__"; "__lookupSetter__"].

(** What [a[k]] finds under a name [k] chosen by the caller: an own property
    of [a], or else a member that [a] inherits from [Object.prototype] (a
    function, or under [__proto__] the prototype itself).  The further
    members that values other than records inherit from their own
    prototypes ([Array.prototype], [String.prototype], ...) are outside the
    model. *)
Inductive Member :=
| OwnValue (v : JsValue)
| Inherited.

Definition memberOf (a : JsValue) (k : string) : Member :=
  match a with
  | VObject props =>
      match lookupOwn k props with
      | Some v => OwnValue v
      | None => if arrayIncludes objectPrototypeNames k then Inherited
                else OwnValue VUndefined
      end
  | _ => if arrayIncludes objectPrototypeNames k then Inherited
         else OwnValue (get a k)
  end.

(** [a[k]]: reading a property of [null] or [undefined] throws, and so does
    a name that cannot be coerced to a string. *)
Definition getComputed (a k : JsValue) : Result Member :=
  match a with
  | VUndefined | VNull => Throw TypeError
  | _ => name ← JsString k; Ok (memberOf a name)
  end.

(** An inherited member is truthy. *)
Definition truthyMember (m : Member) : bool :=
  match m with
  | OwnValue v => truthy v
  | Inherited => true
  end.

(** [Object.entries(v)] for [v] neither [null] nor [undefined]. *)
Definition entries (v : JsValue) : list (string * JsValue) :=
  match v with
  | VObject props => props
  | VArray l => map (fun '(i, x) => (showNat i, x)) (indexed l)
  | VString s => map (fun '(i, x) => (showNat i, x)) (indexed (stringChars s))
  | _ => []
  end.

Definition keys (v : JsValue) : list string := map fst (entries v).
Definition values (v : JsValue) : list JsValue := map snd (entries v).

(** [obj[k] = x] on a plain object, as far as the own properties of [obj]
    go.  Assigning to the name [__proto__] goes through the accessor of
    [Object.prototype] and creates no own property; when [x] is [null] or an
    object it replaces the prototype of [obj], which [JsValue] does not
    record: the properties proved of a coercion applied to a decoded
    mapping leave such mappings out. *)
Fixpoint replaceProp (k : string) (x : JsValue) (props : list (string * JsValue))
  : list (string * JsValue) :=
  match props with
  | [] => [(k, x)]
  | (k', y) :: r =>
      if String.eqb k k' then (k', x) :: r else (k', y) :: replaceProp k x r
  end.

Definition setProp (props : list (string * JsValue)) (k : string) (x : JsValue)
  : list (string * JsValue) :=
  if String.eqb k "__proto__" then props else replaceProp k x props.

(** *** [JSON.stringify] *)

Definition hexDigit (n : nat) : ascii :=
  if (n <? 10)%nat then ascii_of_nat (48 + n) else ascii_of_nat (87 + n).

Definition escapeChar (c : ascii) : string :=
  let n := nat_of_ascii c in
  if (n =? 8)%nat then "\b"
  else if (n =? 9)%nat then "\t"
  else if (n =? 10)%nat then "\n"
  else if (n =? 12)%nat then "\f"
  else if (n =? 13)%nat then "\r"
  else if (n =? 34)%nat then String "\" (String c EmptyString)
  else if (n =? 92)%nat then "\\"
  else if (n <? 32)%nat
       then "\u00" +:+ String (hexDigit (n / 16)) (String (hexDigit (n mod 16)) EmptyString)
  else String c EmptyString.

Fixpoint escapeString (s : string) : string :=
  match s with
  | EmptyString => EmptyString
  | String c r => escapeChar c +:+ escapeString r
  end.

Definition doubleQuote : string := String (ascii_of_nat 34) EmptyString.

Definition quoteJSONString (s : string) : string :=
  doubleQuote +:+ escapeString s +:+ doubleQuote.

(** [None] is the [undefined] that [JSON.stringify(undefined)] returns; inside
    an array it is written [null], inside an object the property is dropped. *)
Fixpoint JSON_stringify (v : JsValue) : option string :=
  match v with
  | VUndefined => None
  | VNull => Some "null"
  | VBool b => Some (if b then "true" else "false")
  | VNumber n => Some (if Number_isFinite n then Number_toString n else "null")
  | VString s => Some (quoteJSONString s)
  | VArray l =>
      Some ("[" +:+ join "," (map (fun x => default "null" (JSON_stringify x)) l) +:+ "]")
  | VObject props =>
      Some ("{" +:+
            join "," (omap (fun '(k, x) =>
                              match JSON_stringify x with
                              | Some sx => Some (quoteJSONString k +:+ ":" +:+ sx)
                              | None => None
                              end) props)
            +:+ "}")
  end.

(* ===================================================================== *)
(** ** DynamoValidator.ts                                                 *)
(* ===================================================================== *)

Definition MAX_FIELD_DEPTH : Z := 20.
Definition MAX_FIELD_LENGTH : Z := 255.
Definition MAX_VALUE_LENGTH : Z := 400000.

Definition strlen (s : string) : Z := Z.of_nat (String.length s).

Definition isLetter (c : ascii) : bool := isUpper c || isLower c.
Definition isWordChar (c : ascii) : bool :=
  isLetter c || isDigit c || Ascii.eqb c "_".

Fixpoint allChars (p : ascii -> bool) (s : string) : bool :=
  match s with
  | EmptyString => true
  | String c r => p c && allChars p r
  end.

(** [VALID_FIELD_REGEX.test(s)] for [/^[a-zA-Z][a-zA-Z0-9_]*$/]. *)
Definition VALID_FIELD_REGEX_test (s : string) : bool :=
  match s with
  | EmptyString => false
  | String c r => isLetter c && allChars isWordChar r
  end.

Definition UNSAFE_PATTERNS : list string :=
  ["__proto__"; "constructor"; "prototype"; "$"; ";";
   "DROP"; "DELETE"; "INSERT"; "UPDATE"].

Definition NOSQL_OPERATORS : list string :=
  ["$where"; "$regex"; "$ne"; "$gt"; "$lt"; "$gte"; "$lte"; "$in"; "$nin";
   "$or"; "$and"; "$not"; "$exists"; "$type"; "$mod"; "$text"; "$elemMatch";
   "$size"; "$all"; "$expr"].

Definition validateFieldPart (part : string) : Result unit :=
  if strlen part >? MAX_FIELD_LENGTH
  then Throw (DynamoValidationError "Field part length exceeds maximum of 255")
  else if negb (VALID_FIELD_REGEX_test part)
  then Throw (DynamoValidationError ("Invalid characters in field name: " +:+ part))
  else Ok tt.

Definition validateFieldName (field : string) : Result unit :=
  if String.eqb field EmptyString
  then Throw (DynamoValidationError "Field name cannot be empty")
  else if some (fun pattern => includes (toLowerCase field) (toLowerCase pattern))
               UNSAFE_PATTERNS
  then Throw (DynamoValidationError ("Field name contains unsafe pattern: " +:+ field))
  else
    let parts := split "." field in
    if Z.of_nat (length parts) >? MAX_FIELD_DEPTH
    then Throw (DynamoValidationError "Field depth exceeds maximum of 20")
    else forEachM validateFieldPart parts.

Definition dangerousPatterns : list string :=
  ["$where"; "$regex"; "$ne"; "$gt"; "$lt"; "$gte"; "$lte";
   "$in"; "$nin"; "$or"; "$and"; "$not"; "$exists"; "$type";
   "$mod"; "$text"; "$elemMatch"; "$size"; "$all"; "$expr";
   "__proto__"; "constructor"; "prototype"].

Definition injectionDetected : JsError :=
  DynamoValidationError "Potential NoSQL injection detected".

(** [Object.values(value).forEach(validateValue)] is written as a loop over
    the entries that validates each entry's value. *)
Fixpoint validateValue (value : JsValue) : Result unit :=
  match value with
  | VUndefined | VNull =>
      Throw (DynamoValidationError "Value cannot be null or undefined")
  | _ =>
      match JSON_stringify value with
      | None => Throw TypeError
      | Some stringified =>
          if some (fun pattern =>
                     includes (toLowerCase stringified) (toLowerCase pattern))
                  dangerousPatterns
          then Throw injectionDetected
          else if (match value with
                   | VString s => strlen s >? MAX_VALUE_LENGTH
                   | _ => false
                   end)
          then Throw (DynamoValidationError "Value length exceeds maximum of 400000")
          else
            match value with
            | VArray l =>
                match l with
                | [] => Throw (DynamoValidationError "Empty arrays not supported")
                | _ => forEachM validateValue l
                end
            | VObject props =>
                let propsToCheck := map fst props ++ map fst props in
                if some (fun prop => arrayIncludes dangerousPatterns prop) propsToCheck
                then Throw injectionDetected
                else forEachM (fun '(_, x) => validateValue x) props
            | _ => Ok tt
            end
      end
  end.

Definition orDefault (v d : JsValue) : JsValue :=
  match v with VUndefined => d | _ => v end.

(** [if (v !== undefined && !Number.isInteger(Number(v))) throw ...]. *)
Definition mustBeInteger (name : string) (v : JsValue) : Result unit :=
  if negb (isUndefined v)
  then n ← JsNumber v;
       if negb (Number_isInteger n)
       then Throw (DynamoValidationError (name +:+ " must be an integer"))
       else Ok tt
  else Ok tt.

Definition validatePagination (pagination : JsValue) : Result unit :=
  let pagination := if negb (truthy pagination) then VObject [] else pagination in
  let page := orDefault (get pagination "page") (VNumber (number_of_Z 1)) in
  let size := orDefault (get pagination "size") (VNumber (number_of_Z 10)) in
  let limit := get pagination "limit" in
  let offset := orDefault (get pagination "offset") (VNumber (number_of_Z 0)) in
  _ ← mustBeInteger "Page" page;
  _ ← mustBeInteger "Size" size;
  _ ← mustBeInteger "Limit" limit;
  mustBeInteger "Offset" offset.

(* ===================================================================== *)
(** ** DynamoUtils.ts                                                     *)
(* ===================================================================== *)

(** The object literal [{tag: x}]. *)
Definition tagged (tag : string) (x : JsValue) : JsValue := VObject [(tag, x)].

Definition every {A} (p : A -> bool) (l : list A) : bool := forallb p l.

(** The last statement of the source, [throw ... Unsupported type], is
    reached only by functions, symbols and bigints. *)
Fixpoint toDynamoDBValue (value : JsValue) : Result JsValue :=
  match value with
  | VNull | VUndefined =>
      Throw (DynamoValidationError "Value cannot be null or undefined")
  | VString _ => Ok (tagged "S" value)
  | VNumber n => Ok (tagged "N" (VString (Number_toString n)))
  | VBool _ => Ok (tagged "BOOL" value)
  | VArray l =>
      match l with
      | [] => Throw (DynamoValidationError "Empty arrays not supported")
      | first :: _ =>
          let firstType := typeof first in
          let sameType := every (fun item => String.eqb (typeof item) firstType) l in
          if sameType && String.eqb firstType "string"
          then Ok (tagged "SS" value)
          else if sameType && String.eqb firstType "number"
          then Ok (tagged "NS" (VArray (map (fun n => VString (ToString n)) l)))
          else
            match mapR toDynamoDBValue l with
            | Ok encoded => Ok (tagged "L" (VArray encoded))
            | Throw e => Throw e
            end
      end
  | VObject props =>
      match foldlM (fun mapVal '(k, v) =>
                      match toDynamoDBValue v with
                      | Ok x => Ok (setProp mapVal k x)
                      | Throw e => Throw e
                      end) [] props with
      | Ok mapVal => Ok (tagged "M" (VObject mapVal))
      | Throw e => Throw e
      end
  end.

(** [if (props.k !== undefined) return f(props.k)], else go on. *)
Definition ifDefined {A} (k : string) (props : list (string * JsValue))
    (f : JsValue -> A) (otherwise : A) : A :=
  (fix go props :=
     match props with
     | [] => otherwise
     | (k', x) :: r =>
         if String.eqb k k'
         then match x with VUndefined => otherwise | _ => f x end
         else go r
     end) props.

(** One turn of the loop of [mapDynamoDBItemToType]; [decoded] stands for
    [fromDynamoDBValue(val)], which is looked at only when [val] is an object. *)
Definition decodeEntry (result : list (string * JsValue)) (key : string)
    (val : JsValue) (decoded : Result JsValue)
  : Result (list (string * JsValue)) :=
  if negb (truthy val) || negb (String.eqb (typeof val) "object")
  then Ok result
  else match decoded with
       | Ok x => Ok (setProp result key x)
       | Throw e => Throw e
       end.

Definition decodeProps (decode : JsValue -> Result JsValue)
  : list (string * JsValue) -> list (string * JsValue)
    -> Result (list (string * JsValue)) :=
  fix go result props :=
    match props with
    | [] => Ok result
    | (key, val) :: r =>
        match decodeEntry result key val (decode val) with
        | Ok result' => go result' r
        | Throw e => Throw e
        end
    end.

Definition decodeElems (decode : JsValue -> Result JsValue)
  : nat -> list (string * JsValue) -> list JsValue
    -> Result (list (string * JsValue)) :=
  fix go i result l :=
    match l with
    | [] => Ok result
    | val :: r =>
        match decodeEntry result (showNat i) val (decode val) with
        | Ok result' => go (S i) result' r
        | Throw e => Throw e
        end
    end.

(** Body of [mapDynamoDBItemToType], with the decoder of the values left
    open; the entries of an array are its elements under their indices. *)
Definition mapItemWith (decode : JsValue -> Result JsValue) (item : JsValue)
  : Result JsValue :=
  if negb (truthy item) || negb (String.eqb (typeof item) "object")
  then Ok (VObject [])
  else match item with
       | VObject props => VObject <$> decodeProps decode [] props
       | VArray l => VObject <$> decodeElems decode 0 [] l
       | _ => Ok (VObject [])
       end.

(** [x.map(f)] where [x] need not be an array. *)
Definition callMap (f : JsValue -> Result JsValue) (x : JsValue) : Result JsValue :=
  match x with
  | VArray l => VArray <$> mapR f l
  | _ => Throw TypeError
  end.

(** [console.warn] has no effect on the value returned. *)
Fixpoint fromDynamoDBValue (val : JsValue) : Result JsValue :=
  match val with
  | VUndefined | VNull => Throw TypeError
  | VObject props =>
      ifDefined "S" props Ok (
      ifDefined "N" props parseFloatOf (
      ifDefined "BOOL" props Ok (
      ifDefined "SS" props Ok (
      ifDefined "NS" props (callMap parseFloatOf) (
      ifDefined "M" props (mapItemWith fromDynamoDBValue) (
      ifDefined "L" props (callMap fromDynamoDBValue) (
      Ok VNull)))))))
  | _ => Ok VNull
  end.

Definition mapDynamoDBItemToType (item : JsValue) : Result JsValue :=
  mapItemWith fromDynamoDBValue item.

(** [fromDynamoDBValue(m)] for what [a[k]] found: no member of
    [Object.prototype] has a property named like a tag, so that an inherited
    member takes the last branch. *)
Definition decodeMember (m : Member) : Result JsValue :=
  match m with
  | OwnValue val => fromDynamoDBValue val
  | Inherited => Ok VNull
  end.

End Js.

(* ===================================================================== *)
(** ** DynamoDBExpressionBuilder.ts                                       *)
(* ===================================================================== *)

Section Builder.
Context `{Numbers}.

Record IFilterQuery := {
  field : string;
  operator : string;
  value : JsValue
}.

(** [types/DynamoExpression.ts]; an absent property is [None]. *)
Record DynamoExpression := {
  TableName : option string;
  KeyConditionExpression : option string;
  FilterExpression : option string;
  ExpressionAttributeNames : option (gmap string string);
  ExpressionAttributeValues : option (gmap string JsValue);
  ScanIndexForward : option bool
}.

(** The object literal [{}]. *)
Definition emptyExpression : DynamoExpression :=
  {| TableName := None; KeyConditionExpression := None; FilterExpression := None;
     ExpressionAttributeNames := None; ExpressionAttributeValues := None;
     ScanIndexForward := None |}.

(** [{ExpressionAttributeNames: {}, ExpressionAttributeValues: {}}]. *)
Definition freshExpression : DynamoExpression :=
  {| TableName := None; KeyConditionExpression := None; FilterExpression := None;
     ExpressionAttributeNames := Some ∅; ExpressionAttributeValues := Some ∅;
     ScanIndexForward := None |}.

(** [expr.ExpressionAttributeNames![k] = v]. *)
Definition setName (expr : DynamoExpression) (k v : string) : Result DynamoExpression :=
  match ExpressionAttributeNames expr with
  | Some names =>
      Ok {| TableName := TableName expr;
            KeyConditionExpression := KeyConditionExpression expr;
            FilterExpression := FilterExpression expr;
            ExpressionAttributeNames := Some (<[k:=v]> names);
            ExpressionAttributeValues := ExpressionAttributeValues expr;
            ScanIndexForward := ScanIndexForward expr |}
  | None => Throw TypeError
  end.

(** [expr.ExpressionAttributeValues![k] = v]. *)
Definition setValue (expr : DynamoExpression) (k : string) (v : JsValue)
  : Result DynamoExpression :=
  match ExpressionAttributeValues expr with
  | Some vals =>
      Ok {| TableName := TableName expr;
            KeyConditionExpression := KeyConditionExpression expr;
            FilterExpression := FilterExpression expr;
            ExpressionAttributeNames := ExpressionAttributeNames expr;
            ExpressionAttributeValues := Some (<[k:=v]> vals);
            ScanIndexForward := ScanIndexForward expr |}
  | None => Throw TypeError
  end.

Definition setKeyConditionExpression (expr : DynamoExpression) (s : string)
  : DynamoExpression :=
  {| TableName := TableName expr;
     KeyConditionExpression := Some s;
     FilterExpression := FilterExpression expr;
     ExpressionAttributeNames := ExpressionAttributeNames expr;
     ExpressionAttributeValues := ExpressionAttributeValues expr;
     ScanIndexForward := ScanIndexForward expr |}.

Definition setFilterExpression (expr : DynamoExpression) (s : string)
  : DynamoExpression :=
  {| TableName := TableName expr;
     KeyConditionExpression := KeyConditionExpression expr;
     FilterExpression := Some s;
     ExpressionAttributeNames := ExpressionAttributeNames expr;
     ExpressionAttributeValues := ExpressionAttributeValues expr;
     ScanIndexForward := ScanIndexForward expr |}.

(** Own properties of [operatorMap]. *)
Definition operatorMap : list (string * string) :=
  [("<", "<"); (">", ">"); ("<=", "<="); (">=", ">="); ("=", "=");
   ("!=", "<>"); ("in", "IN"); ("not in", "NOT IN");
   ("like", "contains"); ("not like", "NOT contains")].

(** The placeholder templates [#key${index}_${idx}], [:val${index}] and
    [:val${index}_${i}]. *)
Definition nameKey (index idx : nat) : string :=
  "#key" +:+ showNat index +:+ "_" +:+ showNat idx.
Definition valueKey (index : nat) : string := ":val" +:+ showNat index.
Definition valueKeyAt (index i : nat) : string :=
  ":val" +:+ showNat index +:+ "_" +:+ showNat i.

(** [expr.ExpressionAttributeValues![k] = toDynamoDBValue(v)]. *)
Definition bindValue (expr : DynamoExpression) (k : string) (v : JsValue)
  : Result DynamoExpression :=
  x ← toDynamoDBValue v; setValue expr k x.

(** The last branch looks [operator] up among the own properties of
    [operatorMap].  For an operator named like a member of
    [Object.prototype] the lookup of the source finds the inherited member
    and writes its text into the fragment; such operators are outside the
    model, and the properties that depend on this branch leave them out. *)
Definition buildSubExpression (expr : DynamoExpression) (field operator : string)
    (value : JsValue) (index : nat) : Result (DynamoExpression * string) :=
  let pathParts := split "." field in
  expr ← foldlM (fun expr '(idx, part) => setName expr (nameKey index idx) part)
                expr (indexed pathParts);
  let path := join "." (map (fun '(idx, _) => nameKey index idx) (indexed pathParts)) in
  if String.eqb operator "like" then
    expr ← bindValue expr (valueKey index) value;
    Ok (expr, "contains(" +:+ path +:+ ", " +:+ valueKey index +:+ ")")
  else if String.eqb operator "not like" then
    expr ← bindValue expr (valueKey index) value;
    Ok (expr, "NOT contains(" +:+ path +:+ ", " +:+ valueKey index +:+ ")")
  else if String.eqb operator "in" || String.eqb operator "not in" then
    let value := match value with VArray l => l | _ => [value] end in
    '(expr, conditions) ←
      foldlM (fun '(expr, conditions) '(i, v) =>
                expr ← bindValue expr (valueKeyAt index i) v;
                Ok (expr, conditions ++ [path +:+ " = " +:+ valueKeyAt index i]))
             (expr, []) (indexed value);
    Ok (expr,
        if String.eqb operator "in"
        then "(" +:+ join " OR " conditions +:+ ")"
        else "NOT (" +:+ join " OR " conditions +:+ ")")
  else
    expr ← bindValue expr (valueKey index) value;
    match lookupOwn operator operatorMap with
    | Some dynOp => Ok (expr, path +:+ " " +:+ dynOp +:+ " " +:+ valueKey index)
    | None => Throw (DynamoValidationError ("Unsupported operator: " +:+ operator))
    end.

Definition addPartitionKeyExpression (expr : DynamoExpression)
    (pkFilter : IFilterQuery) : Result DynamoExpression :=
  let expr := setKeyConditionExpression expr "#pk = :pkVal" in
  expr ← setName expr "#pk" (field pkFilter);
  bindValue expr ":pkVal" (value pkFilter).

Definition addFilterExpressions (expr : DynamoExpression)
    (filters : list IFilterQuery) : Result DynamoExpression :=
  '(expr, subExpressions) ←
    foldlM (fun '(expr, subExpressions) '(i, filter) =>
              '(expr, sub) ← buildSubExpression expr (field filter)
                                (operator filter) (value filter) i;
              Ok (expr, subExpressions ++ [sub]))
           (expr, []) (indexed filters);
  Ok (setFilterExpression expr (join " AND " subExpressions)).

(** Modelled from the spec: [extractPartitionKeyFilter] is inherited from
    [BaseExpressionBuilder] of the package [@denis_bruns/database-core] and
    is not part of these sources.  Spec 4.3, step 3: the predicates are
    scanned in order for the first one whose field equals the configured
    partition-key name and whose operator is equality; that predicate
    becomes the key-condition source, all others (later equalities on the
    partition key included) stay residual filters, in their order. *)
Fixpoint extractPartitionKeyFilter (pkName : string) (filters : list IFilterQuery)
  : option IFilterQuery * list IFilterQuery :=
  match filters with
  | [] => (None, [])
  | f :: r =>
      if String.eqb (field f) pkName && String.eqb (operator f) "="
      then (Some f, r)
      else let '(pkFilter, rest) := extractPartitionKeyFilter pkName r in
           (pkFilter, f :: rest)
  end.

Definition validateFilter (filter : IFilterQuery) : Result unit :=
  _ ← validateFieldName (field filter);
  validateValue (value filter).

Definition buildFilterExpression (pkName : string) (filters : list IFilterQuery)
  : Result DynamoExpression :=
  match filters with
  | [] => Ok emptyExpression
  | _ =>
      _ ← forEachM validateFilter filters;
      let expr := freshExpression in
      let '(pkFilter, remainingFilters) := extractPartitionKeyFilter pkName filters in
      expr ← match pkFilter with
             | Some pk => addPartitionKeyExpression expr pk
             | None => Ok expr
             end;
      match remainingFilters with
      | [] => Ok expr
      | _ => addFilterExpressions expr remainingFilters
      end
  end.

(** The placeholder names assigned by one call, in program order. *)
Definition subExpressionNameKeys (index : nat) (filter : IFilterQuery) : list string :=
  map (fun '(idx, _) => nameKey index idx) (indexed (split "." (field filter))).

Definition subExpressionValueKeys (index : nat) (filter : IFilterQuery) : list string :=
  if String.eqb (operator filter) "like" || String.eqb (operator filter) "not like"
  then [valueKey index]
  else if String.eqb (operator filter) "in" || String.eqb (operator filter) "not in"
  then map (fun '(i, _) => valueKeyAt index i)
           (indexed (match value filter with VArray l => l | _ => [value filter] end))
  else [valueKey index].

Definition assignedNameKeys (pkName : string) (filters : list IFilterQuery) : list string :=
  let '(pkFilter, remainingFilters) := extractPartitionKeyFilter pkName filters in
  (match pkFilter with Some _ => ["#pk"] | None => [] end)
  ++ concat (map (fun '(i, filter) => subExpressionNameKeys i filter)
                 (indexed remainingFilters)).

Definition assignedValueKeys (pkName : string) (filters : list IFilterQuery) : list string :=
  let '(pkFilter, remainingFilters) := extractPartitionKeyFilter pkName filters in
  (match pkFilter with Some _ => [":pkVal"] | None => [] end)
  ++ concat (map (fun '(i, filter) => subExpressionValueKeys i filter)
                 (indexed remainingFilters)).

End Builder.

(* ===================================================================== *)
(** ** DynamoDBService.ts                                                 *)
(* ===================================================================== *)

Section Service.
Context `{Numbers} `{Locale}.

Definition Array_sort (cmp : JsValue -> JsValue -> Counted comparison)
    (l : list JsValue) : Counted (list JsValue) :=
  bindC (insertionSort cmp (List.filter (fun x => negb (isUndefined x)) l))
        (fun sorted => retC (sorted ++ List.filter isUndefined l)).

(** [v?.k]. *)
Definition optionalGet (v : JsValue) (k : string) : JsValue :=
  match v with
  | VUndefined | VNull => VUndefined
  | _ => get v k
  end.

(** [v !== 'desc']. *)
Definition scanForwardOf (sortDirection : JsValue) : bool :=
  match sortDirection with
  | VString s => negb (String.eqb s "desc")
  | _ => true
  end.

(** [a[sortKey] ? fromDynamoDBValue(a[sortKey]) : ""]. *)
Definition sortKeyValue (sortKey a : JsValue) : Counted JsValue :=
  bindC (liftC (getComputed a sortKey)) (fun raw =>
    if truthyMember raw then decodeCall (decodeMember raw)
    else retC (VString EmptyString)).

(** The comparator of [processResults], on decoded keys; [String(aVal)] and
    [String(bVal)] are evaluated in this order. *)
Definition compareKeys (scanForward : bool) (aVal bVal : JsValue)
  : Result comparison :=
  match aVal, bVal with
  | VString a, VString b =>
      Ok (if scanForward then localeCompare a b else localeCompare b a)
  | VNumber a, VNumber b =>
      Ok (if scanForward then number_subSign a b else number_subSign b a)
  | _, _ =>
      a ← JsString aVal;
      b ← JsString bVal;
      Ok (if scanForward then localeCompare a b else localeCompare b a)
  end.

Definition compareItems (sortKey : JsValue) (scanForward : bool) (a b : JsValue)
  : Counted comparison :=
  bindC (sortKeyValue sortKey a) (fun aVal =>
  bindC (sortKeyValue sortKey b) (fun bVal =>
  liftC (compareKeys scanForward aVal bVal))).

(** [fromDynamoDBValue(item[sortKey] || {S: ""})], the body of the loop over
    the first five items. *)
Definition probeItem (sortKey item : JsValue) : Counted JsValue :=
  bindC (liftC (getComputed item sortKey)) (fun raw =>
    decodeCall (decodeMember
                  (if truthyMember raw then raw
                   else OwnValue (tagged "S" (VString EmptyString))))).

(** The variable [results] of [processResults] just before it is sliced. *)
Definition orderResults (items : list JsValue) (pagination : JsValue)
  : Counted (list JsValue) :=
  let sortBy := optionalGet pagination "sortBy" in
  if truthy sortBy then
    let sortKey := sortBy in
    let scanForward := scanForwardOf (get pagination "sortDirection") in
    bindC (forEachC (probeItem sortKey) (slice items 0 5)) (fun _ =>
    Array_sort (compareItems sortKey scanForward) items)
  else retC items.

(** [limit] and [offset] are the integers computed by
    [calculatePaginationValues]. *)
Definition processResults (items : list JsValue) (limit offset : Z)
    (pagination : JsValue) : Counted (list JsValue) :=
  if limit =? 0 then retC []
  else if offset >=? Z.of_nat (length items) then retC []
  else
    bindC (orderResults items pagination) (fun results =>
    let endIndex := offset + limit in
    let sliced := slice results offset endIndex in
    mapC (fun item => decodeCall (mapDynamoDBItemToType item)) sliced).

Definition truthyString (s : option string) : bool :=
  match s with
  | Some t => negb (String.eqb t EmptyString)
  | None => false
  end.

Definition buildQueryParams (tableName : string) (expr : DynamoExpression)
    (pagination : JsValue) : Result DynamoExpression :=
  '(key, names, forward) ←
    (if truthyString (KeyConditionExpression expr) then
       let sortBy := optionalGet pagination "sortBy" in
       if truthy sortBy then
         match sortBy with
         | VString s =>
             _ ← validateFieldName s;
             Ok (KeyConditionExpression expr,
                 Some (<["#sortKey" := s]> (∅ : gmap string string)),
                 Some (scanForwardOf (get pagination "sortDirection")))
         | _ => Throw TypeError
         end
       else Ok (KeyConditionExpression expr, None, None)
     else Ok (None, None, None));
  Ok {| TableName := Some tableName;
        KeyConditionExpression := key;
        FilterExpression :=
          if truthyString (FilterExpression expr) then FilterExpression expr else None;
        ExpressionAttributeNames :=
          match ExpressionAttributeNames expr with
          | Some exprNames => Some (exprNames ∪ default ∅ names)
          | None => names
          end;
        ExpressionAttributeValues := ExpressionAttributeValues expr;
        ScanIndexForward := forward |}.

Record IGenericFilterQuery := {
  query_pagination : JsValue;
  query_filters : option (list IFilterQuery)
}.

Record PreparedQuery := {
  prepared_params : DynamoExpression;
  prepared_limit : Z;
  prepared_offset : Z;
  prepared_page : Z;
  prepared_pagination : JsValue
}.

Definition tableOnly (tableName : string) : DynamoExpression :=
  {| TableName := Some tableName; KeyConditionExpression := None;
     FilterExpression := None; ExpressionAttributeNames := None;
     ExpressionAttributeValues := None; ScanIndexForward := None |}.

(** [calculatePaginationValues] belongs to [BaseDatabaseService] of the
    package [@denis_bruns/database-core]; it is a parameter here and yields
    [(limit, offset, page)]. *)
Definition prepareQueryParameters
    (calculatePaginationValues : JsValue -> Z * Z * Z)
    (tableName pkName : string) (query : IGenericFilterQuery)
  : Result PreparedQuery :=
  let pagination := orDefault (query_pagination query) (VObject []) in
  let filters := default [] (query_filters query) in
  _ ← validatePagination pagination;
  let '(limit, offset, page) := calculatePaginationValues pagination in
  if limit =? 0 then
    Ok {| prepared_params := tableOnly tableName; prepared_limit := 0;
          prepared_offset := 0; prepared_page := 1;
          prepared_pagination := pagination |}
  else
    built ← buildFilterExpression pkName filters;
    expr ← buildQueryParams tableName built pagination;
    Ok {| prepared_params := expr; prepared_limit := limit;
          prepared_offset := offset; prepared_page := page;
          prepared_pagination := pagination |}.

End Service.

(* ===================================================================== *)
(** ** DynamoQueryExecutor.ts                                             *)
(* ===================================================================== *)

Section Executor.
Context `{Numbers}.

(** The object literal [commandInput]. *)
Record CommandInput := {
  input_TableName : option string;
  input_KeyConditionExpression : option string;
  input_FilterExpression : option string;
  input_ExpressionAttributeNames : option (gmap string string);
  input_ExpressionAttributeValues : option (gmap string JsValue)
}.

Inductive Command :=
| QueryCommand (input : CommandInput)
| ScanCommand (input : CommandInput).

(** [send] stands for [client.send], awaited: a rejected promise is a thrown
    exception. *)
Definition executeQuery (send : Command -> Result JsValue) (params : DynamoExpression)
  : Result JsValue :=
  let commandInput :=
    {| input_TableName := TableName params;
       input_KeyConditionExpression := KeyConditionExpression params;
       input_FilterExpression := FilterExpression params;
       input_ExpressionAttributeNames := ExpressionAttributeNames params;
       input_ExpressionAttributeValues := ExpressionAttributeValues params |} in
  response ← (if truthyString (KeyConditionExpression params)
              then send (QueryCommand commandInput)
              else send (ScanCommand commandInput));
  items ← getMember response "Items";
  Ok (if truthy items then items else VArray []).

End Executor.

(* ===================================================================== *)
(** ** Vocabulary of the properties proved below                          *)
(* ===================================================================== *)

Fixpoint noChar (c : ascii) (s : string) : Prop :=
  match s with
  | EmptyString => True
  | String a r => a <> c /\ noChar c r
  end.

(** [token] occurs in [s] up to the case of its letters. *)
Definition occursIgnoringCase (token s : string) : Prop :=
  exists pre mid post,
    s = pre +:+ mid +:+ post /\ toLowerCase mid = toLowerCase token.

Definition containsUnsafePattern (s : string) : Prop :=
  exists token, In token UNSAFE_PATTERNS /\ occursIgnoringCase token s.

(** A path segment as the claim describes it. *)
Definition validSegment (part : string) : Prop :=
  (String.length part <= 255)%nat /\ VALID_FIELD_REGEX_test part = true.

(** What may follow the digits of an index inside a placeholder name. *)
Definition afterDigits (t : string) : Prop :=
  t = EmptyString \/ exists r, t = String "_" r.

Definition ownsName (k : string) (i : nat) : Prop := exists j, k = nameKey i j.

Definition ownsValue (k : string) (i : nat) : Prop :=
  k = valueKey i \/ exists j, k = valueKeyAt i j.

(** The algorithm of [insertionSort] with a comparator that cannot throw,
    and what it means for a comparator to be consistent. *)
Section PureSort.
Context {A : Type} (cmp : A -> A -> comparison).

Fixpoint insertPure (x : A) (sorted : list A) : list A :=
  match sorted with
  | [] => [x]
  | y :: r =>
      match cmp x y with
      | Gt => y :: insertPure x r
      | _ => x :: sorted
      end
  end.

Fixpoint sortPure (l : list A) : list A :=
  match l with
  | [] => []
  | x :: r => insertPure x (sortPure r)
  end.

(** [a] may stand before [b]. *)
Definition precedes (a b : A) : Prop := cmp a b <> Gt.

(** [a] and [b] have equal keys. *)
Definition sameKey (a b : A) : bool :=
  match cmp a b with Eq => true | _ => false end.

(** A consistent comparator on the elements that satisfy [D]. *)
Definition consistentOn (D : A -> Prop) : Prop :=
  (forall a b, D a -> D b -> cmp a b = Gt -> cmp b a = Lt)
  /\ (forall a b c, D a -> D b -> D c ->
        precedes a b -> precedes b c -> precedes a c).

End PureSort.

Section Vocabulary.
Context `{Numbers} `{Locale}.

(** The text of the [in] / [not in] sub-expression over [elems]. *)
Definition disjunctionOf (path : string) (index : nat) (elems : list JsValue) : string :=
  join " OR " (map (fun '(k, _) => path +:+ " = " +:+ valueKeyAt index k) (indexed elems)).

(** [P] holds of [v] and of every value nested in [v]. *)
Fixpoint allValues (P : JsValue -> Prop) (v : JsValue) : Prop :=
  P v /\
  match v with
  | VArray l => foldr (fun x Q => allValues P x /\ Q) True l
  | VObject props => foldr (fun '(_, x) Q => allValues P x /\ Q) True props
  | _ => True
  end.

(** The data model of the spec: neither [null] nor [undefined], no empty
    array, and the keys of a mapping are distinct. *)
Definition canonicalShape (v : JsValue) : Prop :=
  match v with
  | VUndefined | VNull => False
  | VArray l => l <> []
  | VObject props => NoDup (map fst props)
  | _ => True
  end.

Definition CanonicalValue (v : JsValue) : Prop := allValues canonicalShape v.

(** Printing a number and parsing the text gives the number back. *)
Definition numberSurvives (v : JsValue) : Prop :=
  match v with
  | VNumber n => parseFloat (Number_toString n) = n
  | _ => True
  end.

Definition numbersSurvive (v : JsValue) : Prop := allValues numberSurvives v.

(** The law of the host that ties [toString] to [parseFloat]:
    [Number.prototype.toString] writes digits that denote the number
    itself, [Infinity] and [NaN] by their names, and [parseFloat] reads
    them back.  The zeros [+0] and [-0], which print alike and which no
    built-in of [Numbers] tells apart, count as one number. *)
Definition printedNumbersParse : Prop :=
  forall n : number, parseFloat (Number_toString n) = n.

(** No mapping has an own property named [__proto__]. *)
Definition plainKeys (v : JsValue) : Prop :=
  match v with
  | VObject props => ~ In "__proto__" (map fst props)
  | _ => True
  end.

Definition noProtoKey (v : JsValue) : Prop := allValues plainKeys v.

(** Encoding and then decoding gives the value back. *)
Definition roundTrips (v : JsValue) : Prop :=
  exists x, toDynamoDBValue v = Ok x /\ fromDynamoDBValue x = Ok v.

(** The entries [enc] are the encodings of the entries [props]. *)
Definition encodes (props enc : list (string * JsValue)) : Prop :=
  Forall2 (fun kv kx => fst kv = fst kx
                        /\ toDynamoDBValue (snd kv) = Ok (snd kx)
                        /\ fromDynamoDBValue (snd kx) = Ok (snd kv)) props enc.

(** The tags in the order [fromDynamoDBValue] tests them. *)
Definition tagOrder : list string := ["S"; "N"; "BOOL"; "SS"; "NS"; "M"; "L"].

(** What [fromDynamoDBValue] returns through the branch of [tag], whose
    component is [x]. *)
Definition decodeTag (tag : string) (x : JsValue) : Result JsValue :=
  if String.eqb tag "S" then Ok x
  else if String.eqb tag "N" then parseFloatOf x
  else if String.eqb tag "BOOL" then Ok x
  else if String.eqb tag "SS" then Ok x
  else if String.eqb tag "NS" then callMap parseFloatOf x
  else if String.eqb tag "M" then mapDynamoDBItemToType x
  else if String.eqb tag "L" then callMap fromDynamoDBValue x
  else Ok VNull.

(** The values [mapDynamoDBItemToType] passes over. *)
Definition skipped (val : JsValue) : bool :=
  negb (truthy val) || negb (String.eqb (typeof val) "object").

(** Values on which decoding cannot throw: neither [null] nor [undefined];
    an [N] component can be coerced to a string; every [NS] and [L]
    component that is defined is an array, the elements of [NS] can be
    coerced to strings; the elements of an [L] array, and the entries of an
    [M] component that are not passed over, are such values in turn. *)
Fixpoint wellShaped (val : JsValue) : bool :=
  match val with
  | VUndefined | VNull => false
  | VObject props =>
      forallb (fun '(k, x) =>
                 if String.eqb k "N" then negb (shadowsToString x)
                 else if String.eqb k "NS" then
                   match x with
                   | VUndefined => true
                   | VArray ns => forallb (fun n => negb (shadowsToString n)) ns
                   | _ => false
                   end
                 else if String.eqb k "L" then
                   match x with
                   | VUndefined => true
                   | VArray xs => forallb wellShaped xs
                   | _ => false
                   end
                 else if String.eqb k "M" then
                   match x with
                   | VObject ps => forallb (fun '(_, y) => skipped y || wellShaped y) ps
                   | VArray ys => forallb (fun y => skipped y || wellShaped y) ys
                   | _ => true
                   end
                 else true) props
  | _ => true
  end.

(** An item whose entries are passed over or well shaped. *)
Definition wellShapedItem (item : JsValue) : bool :=
  match item with
  | VObject ps => forallb (fun '(_, y) => skipped y || wellShaped y) ps
  | VArray ys => forallb (fun y => skipped y || wellShaped y) ys
  | _ => true
  end.

(** The three ways a nested value is decoded: as a typed value, as an item
    and as the array of an [L] component. *)
Definition decodesSafely (v : JsValue) : Prop :=
  (wellShaped v = true -> exists r, fromDynamoDBValue v = Ok r)
  /\ (wellShapedItem v = true -> exists r, mapDynamoDBItemToType v = Ok r)
  /\ (forall xs, v = VArray xs -> forallb wellShaped xs = true ->
        exists r, mapR fromDynamoDBValue xs = Ok r).

Definition paginationFields : list string := ["page"; "size"; "limit"; "offset"].

(** The pagination spec [p] has the property [name], with value [v]. *)
Definition presentField (p : JsValue) (name : string) (v : JsValue) : Prop :=
  truthy p = true /\ get p name = v /\ v <> VUndefined.

Definition integerError (e : JsError) : Prop :=
  exists label, In label ["Page"; "Size"; "Limit"; "Offset"]
                /\ e = DynamoValidationError (label +:+ " must be an integer").

Definition fieldLabels : list (string * string) :=
  [("page", "Page"); ("size", "Size"); ("limit", "Limit"); ("offset", "Offset")].

(** The comparator of the claim, on two keys: two strings by
    [localeCompare], two numbers by the sign of their difference, any other
    pair by [localeCompare] of their string forms; descending order swaps
    the arguments. *)
Definition keyOrder (scanForward : bool) (aVal bVal : JsValue) : comparison :=
  match aVal, bVal with
  | VString a, VString b =>
      if scanForward then localeCompare a b else localeCompare b a
  | VNumber a, VNumber b =>
      if scanForward then number_subSign a b else number_subSign b a
  | _, _ =>
      if scanForward then localeCompare (ToString aVal) (ToString bVal)
      else localeCompare (ToString bVal) (ToString aVal)
  end.

(** The same on the items, through their keys. *)
Definition itemOrder (scanForward : bool) (keyOf : JsValue -> JsValue)
    (a b : JsValue) : comparison :=
  keyOrder scanForward (keyOf a) (keyOf b).

(** A raw item is a record. *)
Definition isRecord (v : JsValue) : bool :=
  match v with VObject _ => true | _ => false end.

End Vocabulary.

(** Concrete inputs, over the fixed-point numbers. *)
Section Samples.
#[local] Existing Instance Milli.numbers.
#[local] Existing Instance codeUnitLocale.

Definition idEquals123 : IFilterQuery :=
  {| field := "id"; operator := "="; value := VString "123" |}.

Definition tagsIn : IFilterQuery :=
  {| field := "tags"; operator := "in"; value := VArray [VString "a"; VString "b"] |}.

Definition cityNotIn : IFilterQuery :=
  {| field := "profile.address.city"; operator := "not in"; value := VString "z" |}.

Definition priceAbove : IFilterQuery :=
  {| field := "price"; operator := ">"; value := VNumber (Some 2500) |}.

Definition sampleFilters : list IFilterQuery :=
  [tagsIn; idEquals123; cityNotIn; idEquals123; priceAbove].

Definition sampleValue : JsValue :=
  VObject [("a", VArray [VNumber (Some 1500); VString "x"; VBool true]);
           ("c", VArray [VString "p"; VString "q"]);
           ("d", VArray [VNumber (Some 1000); VNumber (Some 2500)]);
           ("e", VObject [])].

Definition protoValue : JsValue := VObject [("__proto__", VString "x")].

Definition pageOneAndAHalf : JsValue := VObject [("page", VNumber (Some 1500))].

(** [{page: {toString: 1}}]. *)
Definition uncoerciblePage : JsValue :=
  VObject [("page", VObject [("toString", VNumber (Some 1000))])].

Definition rawItem (name : string) (k : Z) : JsValue :=
  VObject [("name", tagged "S" (VString name));
           ("k", tagged "N" (VString (Milli.toString (Some k))))].

Definition rawItems : list JsValue :=
  [rawItem "b" 3000; rawItem "a" 1500; rawItem "c" 3000;
   VObject [("name", tagged "S" (VString "d"))]].

Definition sortByK : JsValue := VObject [("sortBy", VString "k")].

(** Items whose keys are the numbers 9 and 10 and the string ["5"]. *)
Definition mixedItems : list JsValue :=
  [VObject [("k", tagged "N" (VString "9"))];
   VObject [("k", tagged "N" (VString "10"))];
   VObject [("k", tagged "S" (VString "5"))]].

(** Items whose keys are the mapping [{toString: "x"}] and the number 1. *)
Definition unprintableItems : list JsValue :=
  [VObject [("k", tagged "M" (VObject [("toString", tagged "S" (VString "x"))]))];
   VObject [("k", tagged "N" (VString "1"))]].

(** The key of an item, read off [sortKeyValue]. *)
Definition keyOfK (a : JsValue) : JsValue :=
  match outcome (sortKeyValue (VString "k") a) with
  | Ok key => key
  | Throw _ => VNull
  end.

Definition unknownTag : JsValue := VObject [("UNKNOWN_TYPE", VString "value")].

Definition listOfTyped : JsValue :=
  tagged "L" (VArray [tagged "S" (VString "item1"); tagged "N" (VString "123")]).

Definition stringAndNumber : JsValue :=
  VObject [("N", VString "1"); ("S", VString "x")].

Definition numberAndList : JsValue :=
  VObject [("L", VArray []); ("N", VString "2.5")].

End Samples.

(* ===================================================================== *)
(** ** Vocabulary of the further properties                               *)
(* ===================================================================== *)

Section CoverageVocabulary.
Context `{Numbers}.

(** A deny-list token of [validateValue] occurs in [s], up to case. *)
Definition dangerousToken (s : string) : Prop :=
  exists token, In token dangerousPatterns /\ occursIgnoringCase token s.

(** Some string inside [v], or some key of a mapping inside [v] whose value
    is not [undefined], satisfies [P]. *)
Fixpoint mentions (P : string -> Prop) (v : JsValue) : Prop :=
  match v with
  | VString s => P s
  | VArray l => foldr (fun x Q => mentions P x \/ Q) False l
  | VObject props =>
      foldr (fun '(k, x) Q => (x <> VUndefined /\ (P k \/ mentions P x)) \/ Q)
            False props
  | _ => False
  end.

(** The characters of the deny-list tokens, in lower case. *)
Definition tokenChar (c : ascii) : bool :=
  isLower c || Ascii.eqb c "$" || Ascii.eqb c "_".

(** What [toDynamoDBValue] can encode: neither [null] nor [undefined], and
    no empty array. *)
Definition encodableShape (v : JsValue) : Prop :=
  match v with
  | VUndefined | VNull => False
  | VArray l => l <> []
  | _ => True
  end.

Definition Encodable (v : JsValue) : Prop := allValues encodableShape v.

(** The keys of a mapping are distinct, as the keys of an object are. *)
Definition distinctKeys (v : JsValue) : Prop :=
  match v with
  | VObject props => NoDup (map fst props)
  | _ => True
  end.

Definition shortString (v : JsValue) : Prop :=
  match v with
  | VString s => strlen s <= MAX_VALUE_LENGTH
  | _ => True
  end.

End CoverageVocabulary.

Section BuilderVocabulary.
Context `{Numbers}.

(** The operators that are own properties of [operatorMap]. *)
Definition supportedOperator (op : string) : Prop := In op (map fst operatorMap).

(** [in] and [not in] take a list of operands. *)
Definition isListOperator (op : string) : bool :=
  String.eqb op "in" || String.eqb op "not in".

(** [Array.isArray(value) ? value : [value]]. *)
Definition inOperands (value : JsValue) : list JsValue :=
  match value with VArray l => l | _ => [value] end.

(** Every value the builder encodes for the predicate can be encoded. *)
Definition operandsEncodable (f : IFilterQuery) : Prop :=
  if isListOperator (operator f) then Forall Encodable (inOperands (value f))
  else Encodable (value f).

(** The path of the predicate at position [index]: one name placeholder per
    segment of the field. *)
Definition pathOf (index : nat) (field : string) : string :=
  join "." (map (fun '(idx, _) => nameKey index idx) (indexed (split "." field))).

(** The text of the sub-expression of the predicate at position [index]. *)
Definition subExpressionText (index : nat) (f : IFilterQuery) : option string :=
  let path := pathOf index (field f) in
  if String.eqb (operator f) "like"
  then Some ("contains(" +:+ path +:+ ", " +:+ valueKey index +:+ ")")
  else if String.eqb (operator f) "not like"
  then Some ("NOT contains(" +:+ path +:+ ", " +:+ valueKey index +:+ ")")
  else if String.eqb (operator f) "in"
  then Some ("(" +:+ disjunctionOf path index (inOperands (value f)) +:+ ")")
  else if String.eqb (operator f) "not in"
  then Some ("NOT (" +:+ disjunctionOf path index (inOperands (value f)) +:+ ")")
  else match lookupOwn (operator f) operatorMap with
       | Some dynOp => Some (path +:+ " " +:+ dynOp +:+ " " +:+ valueKey index)
       | None => None
       end.

(** The value placeholders of the predicate at position [index] are bound,
    in [vals], to the encodings of its operands. *)
Definition boundValues (index : nat) (f : IFilterQuery) (vals : gmap string JsValue)
  : Prop :=
  if isListOperator (operator f)
  then forall k v, inOperands (value f) !! k = Some v ->
         exists x, toDynamoDBValue v = Ok x /\ vals !! valueKeyAt index k = Some x
  else exists x, toDynamoDBValue (value f) = Ok x /\ vals !! valueKey index = Some x.

(** The name placeholders of the predicate at position [index] are bound, in
    [names], to the segments of its field. *)
Definition boundNames (index : nat) (f : IFilterQuery) (names : gmap string string)
  : Prop :=
  forall j part, split "." (field f) !! j = Some part ->
    names !! nameKey index j = Some part.

End BuilderVocabulary.

Section DecoderVocabulary.
Context `{Numbers}.

(** The entries [rs] are the decodings of the entries [kept], key by key. *)
Definition decodedEntries (kept rs : list (string * JsValue)) : Prop :=
  Forall2 (fun kv kr => fst kr = fst kv /\ fromDynamoDBValue (snd kv) = Ok (snd kr))
          kept rs.

End DecoderVocabulary.

Section ServiceVocabulary.
Context `{Numbers}.

(** What [executeQuery] makes of the outcome of the one command it sends:
    [response.Items || []]. *)
Definition itemsOf (sent : Result JsValue) : Result JsValue :=
  response ← sent;
  items ← getMember response "Items";
  Ok (if truthy items then items else VArray []).

(** Some predicate of the list is an equality on the partition key. *)
Definition keyed (pkName : string) (filters : list IFilterQuery) : bool :=
  existsb (fun f => String.eqb (field f) pkName && String.eqb (operator f) "=") filters.

End ServiceVocabulary.

Section SortVocabulary.
Context `{Locale}.

(** [localeCompare] is a consistent comparator: it is antisymmetric, and "not
    after" is transitive. *)
Definition consistentLocale : Prop :=
  (forall a b, localeCompare a b = Gt -> localeCompare b a = Lt)
  /\ (forall a b c, localeCompare a b <> Gt -> localeCompare b c <> Gt ->
        localeCompare a c <> Gt).

(** The order of two items whose keys are the strings [keyOf a] and
    [keyOf b]. *)
Definition stringOrder {A} (scanForward : bool) (keyOf : A -> string) (a b : A)
  : comparison :=
  if scanForward then localeCompare (keyOf a) (keyOf b)
  else localeCompare (keyOf b) (keyOf a).

End SortVocabulary.

(** More concrete inputs, over the fixed-point numbers. *)
Section CoverageSamples.
#[local] Existing Instance Milli.numbers.
#[local] Existing Instance codeUnitLocale.

(** [{nested: {$ne: null}}]. *)
Definition nestedOperator : JsValue :=
  VObject [("nested", VObject [("$ne", VNull)])].

Definition unsafeField : IFilterQuery :=
  {| field := "$where"; operator := "="; value := VString "x" |}.

Definition unknownOperator : IFilterQuery :=
  {| field := "name"; operator := "~="; value := VString "v" |}.

Definition residualFilters : list IFilterQuery := [tagsIn; cityNotIn; priceAbove].

(** An item with an attribute that is not a typed value. *)
Definition looseItem : list (string * JsValue) :=
  [("id", tagged "N" (VString (Milli.toString (Some 1000))));
   ("weird", VString "value");
   ("name", tagged "S" (VString "test"))].

Definition keyedExpression : DynamoExpression :=
  {| TableName := None;
     KeyConditionExpression := Some "#pk = :pkVal";
     FilterExpression := None;
     ExpressionAttributeNames := Some {["#pk" := "id"]};
     ExpressionAttributeValues := Some {[":pkVal" := tagged "S" (VString "123")]};
     ScanIndexForward := None |}.

Definition sortByUpdatedAt : JsValue := VObject [("sortBy", VString "updatedAt")].

(** A client that answers a query with one item and a scan with a response
    that has no [Items]. *)
Definition sampleClient (command : Command) : Result JsValue :=
  match command with
  | QueryCommand _ => Ok (VObject [("Items", VArray [rawItem "a" 1000])])
  | ScanCommand _ => Ok (VObject [])
  end.

Definition keyedQuery : IGenericFilterQuery :=
  {| query_pagination := VUndefined; query_filters := Some [priceAbove; idEquals123] |}.

End CoverageSamples.

Section SortSamples.
#[local] Existing Instance Milli.numbers.
#[local] Existing Instance codeUnitLocale.

Definition namedItems : list JsValue :=
  [rawItem "pear" 1000; rawItem "apple" 2000; VObject []; rawItem "fig" 3000].

Definition sortByNameDesc : JsValue :=
  VObject [("sortBy", VString "name"); ("sortDirection", VString "desc")].

(** The name of an item, the empty string when it has none. *)
Definition nameOf (a : JsValue) : string :=
  match outcome (sortKeyValue (VString "name") a) with
  | Ok (VString s) => s
  | _ => EmptyString
  end.

End SortSamples.

(* ===================================================================== *)
(** ** Outcomes                                                           *)
(* ===================================================================== *)

Lemma isOk_exists {A} (r : Result A) : isOk r = true -> exists a, r = Ok a.
Proof. destruct r as [a|e]; [exists a; reflexivity | discriminate]. Qed.

(* ===================================================================== *)
(** ** The fixed-point numbers: parsing inverts printing                  *)
(* ===================================================================== *)

Module MilliFacts.
Import Milli.

Lemma digitChar_digit d : 0 <= d <= 9 ->
  isDigit (digitChar d) = true
  /\ Z.of_nat (nat_of_ascii (digitChar d) - 48) = d.
Proof.
  intros Hd.
  assert (Hcases : d = 0 \/ d = 1 \/ d = 2 \/ d = 3 \/ d = 4 \/ d = 5 \/ d = 6
                   \/ d = 7 \/ d = 8 \/ d = 9) by lia.
  destruct Hcases as [->|[->|[->|[->|[->|[->|[->|[->|[->| ->]]]]]]]]];
    split; reflexivity.
Qed.

Lemma takeDigits_end s : digitsEnd s -> takeDigits s = ([], s).
Proof. destruct s as [|c r]; [reflexivity|]. cbn. intros ->. reflexivity. Qed.

Lemma takeDigits_cons c r :
  isDigit c = true ->
  takeDigits (String c r)
  = (Z.of_nat (nat_of_ascii c - 48) :: fst (takeDigits r), snd (takeDigits r)).
Proof.
  intros Hc. cbn [takeDigits]. rewrite Hc. destruct (takeDigits r). reflexivity.
Qed.

Lemma String_append c (s t : string) : String c s +:+ t = String c (s +:+ t).
Proof. reflexivity. Qed.

Lemma takeDigits_uint (u : Decimal.uint) (rest : string) :
  digitsEnd rest ->
  exists ds,
    takeDigits (NilEmpty.string_of_uint u +:+ rest) = (ds, rest)
    /\ (u <> Decimal.Nil -> ds <> [])
    /\ forall acc, 0 <= acc ->
         fold_left (fun acc d => 10 * acc + d) ds acc
         = Z.of_nat (Nat.of_uint_acc u (Z.to_nat acc)).
Proof.
  intros Hrest.
  induction u as [|u (ds & Htake & _ & Hfold)|u (ds & Htake & _ & Hfold)
                  |u (ds & Htake & _ & Hfold)|u (ds & Htake & _ & Hfold)
                  |u (ds & Htake & _ & Hfold)|u (ds & Htake & _ & Hfold)
                  |u (ds & Htake & _ & Hfold)|u (ds & Htake & _ & Hfold)
                  |u (ds & Htake & _ & Hfold)|u (ds & Htake & _ & Hfold)].
  1: { exists []. split; [apply takeDigits_end, Hrest|]. split; [congruence|].
       intros acc Hacc. cbn. lia. }
  all: eexists (_ :: ds); split;
    [ cbn [NilEmpty.string_of_uint]; rewrite String_append;
      rewrite takeDigits_cons by reflexivity;
      rewrite Htake; reflexivity
    | split; [discriminate|];
      intros acc Hacc; cbn [fold_left Nat.of_uint_acc];
      simpl (nat_of_ascii _ - 48)%nat;
      rewrite Hfold by lia; f_equal; f_equal;
      rewrite Nat.tail_mul_spec; lia ].
Qed.

Lemma showNat_digits (n : nat) (rest : string) :
  digitsEnd rest ->
  exists ds,
    takeDigits (showNat n +:+ rest) = (ds, rest)
    /\ ds <> [] /\ digitsValue ds = Z.of_nat n.
Proof.
  intros Hrest. unfold showNat.
  destruct (takeDigits_uint (Nat.to_uint n) rest Hrest) as (ds & Htake & Hne & Hfold).
  exists ds. split; [exact Htake|]. split.
  - apply Hne. intros Hnil.
    pose proof (DecimalNat.Unsigned.of_to n) as Hn. rewrite Hnil in Hn.
    cbn in Hn. subst n. discriminate Hnil.
  - unfold digitsValue. rewrite Hfold by lia.
    change (Nat.of_uint_acc (Nat.to_uint n) (Z.to_nat 0)) with (Nat.of_uint (Nat.to_uint n)).
    rewrite DecimalNat.Unsigned.of_to. reflexivity.
Qed.

Lemma showNat_head (n : nat) :
  exists c r, showNat n = String c r /\ isDigit c = true.
Proof.
  destruct (showNat_digits n EmptyString I) as (ds & Htake & Hne & _).
  destruct (showNat n) as [|c r].
  { change (([] : list Z, EmptyString) = (ds, EmptyString)) in Htake. congruence. }
  exists c, r. split; [reflexivity|].
  rewrite String_append in Htake. cbn [takeDigits] in Htake.
  destruct (isDigit c); [reflexivity | congruence].
Qed.

Lemma showFraction_digits f :
  0 < f < 1000 ->
  exists ds,
    takeDigits (showFraction f) = (ds, EmptyString)
    /\ ds <> [] /\ fractionValue ds = f.
Proof.
  intros Hf. unfold showFraction.
  set (d1 := f / 100). set (d2 := (f / 10) mod 10). set (d3 := f mod 10).
  assert (H1 : 0 <= d1 <= 9) by (unfold d1; Z.div_mod_to_equations; lia).
  assert (H2 : 0 <= d2 <= 9) by (unfold d2; Z.div_mod_to_equations; lia).
  assert (H3 : 0 <= d3 <= 9) by (unfold d3; Z.div_mod_to_equations; lia).
  assert (Hsum : f = 100 * d1 + 10 * d2 + d3)
    by (unfold d1, d2, d3; Z.div_mod_to_equations; lia).
  destruct (digitChar_digit d1 H1) as [Hc1 Hv1].
  destruct (digitChar_digit d2 H2) as [Hc2 Hv2].
  destruct (digitChar_digit d3 H3) as [Hc3 Hv3].
  destruct (Z.eqb_spec d3 0) as [Hz3|Hz3]; cbn [negb];
    [destruct (Z.eqb_spec d2 0) as [Hz2|Hz2]; cbn [negb]|].
  - exists [d1]. rewrite takeDigits_cons by exact Hc1. cbn [takeDigits fst snd].
    rewrite Hv1. split; [reflexivity|]. split; [discriminate|].
    cbn [fractionValue]. lia.
  - exists [d1; d2]. rewrite !takeDigits_cons by assumption. cbn [takeDigits fst snd].
    rewrite Hv1, Hv2. split; [reflexivity|]. split; [discriminate|].
    cbn [fractionValue]. lia.
  - exists [d1; d2; d3]. rewrite !takeDigits_cons by assumption.
    cbn [takeDigits fst snd]. rewrite Hv1, Hv2, Hv3.
    split; [reflexivity|]. split; [discriminate|]. cbn [fractionValue]. lia.
Qed.

Lemma parsePrefix_minus r :
  parsePrefix (String "-" r)
  = match unsignedPrefix r with
    | Some (v, rest) => Some (- v, rest)
    | None => None
    end.
Proof.
  unfold parsePrefix, unsignedPrefix. destruct (takeDigits r) as [ip s2].
  destruct (match s2 with String "." r0 => takeDigits r0 | _ => ([], s2) end)
    as [fp s3].
  destruct ip, fp; reflexivity.
Qed.

Lemma digit_plain c :
  isDigit c = true ->
  Ascii.is_space c = false /\ c <> "-"%char /\ c <> "+"%char.
Proof.
  destruct c as [[] [] [] [] [] [] [] []]; try discriminate;
    intros _; repeat split; discriminate.
Qed.

Lemma parsePrefix_digit c r :
  isDigit c = true -> parsePrefix (String c r) = unsignedPrefix (String c r).
Proof.
  intros Hc. unfold parsePrefix, unsignedPrefix.
  destruct c as [[] [] [] [] [] [] [] []]; try discriminate Hc;
    destruct (takeDigits _) as [ip s2];
    destruct (match s2 with String "." r0 => takeDigits r0 | _ => ([], s2) end)
      as [fp s3];
    destruct ip, fp; reflexivity.
Qed.

(** The text of a non-negative number reads as that number. *)
Lemma unsignedPrefix_body a :
  0 <= a ->
  let whole := showNat (Z.to_nat (a / 1000)) in
  unsignedPrefix (if a mod 1000 =? 0 then whole
                  else whole +:+ "." +:+ showFraction (a mod 1000))
  = Some (a, EmptyString).
Proof.
  intros Ha whole. unfold unsignedPrefix.
  assert (Hwhole : Z.of_nat (Z.to_nat (a / 1000)) = a / 1000)
    by (apply Z2Nat.id; Z.div_mod_to_equations; lia).
  destruct (Z.eqb_spec (a mod 1000) 0) as [Hz|Hz].
  - destruct (showNat_digits (Z.to_nat (a / 1000)) EmptyString I)
      as (ds & Htake & Hne & Hval).
    assert (Hnil : whole +:+ EmptyString = whole).
    { clear. induction whole as [|c r IH]; [reflexivity|].
      rewrite String_append, IH. reflexivity. }
    fold whole in Htake. rewrite Hnil in Htake. rewrite Htake.
    destruct ds as [|d ds]; [congruence|].
    rewrite Hval, Hwhole. cbn [fractionValue]. f_equal. f_equal.
    Z.div_mod_to_equations. lia.
  - destruct (showNat_digits (Z.to_nat (a / 1000))
                ("." +:+ showFraction (a mod 1000)))
      as (ds & Htake & Hne & Hval); [reflexivity|].
    fold whole in Htake. rewrite Htake.
    change ("." +:+ showFraction (a mod 1000))
      with (String "." (showFraction (a mod 1000))).
    destruct (showFraction_digits (a mod 1000)) as (fs & Hfrac & Hfne & Hfval);
      [Z.div_mod_to_equations; lia|].
    rewrite Hfrac. rewrite Hval, Hwhole, Hfval.
    destruct ds as [|d ds]; [congruence|]. destruct fs as [|g fs]; [congruence|].
    f_equal. f_equal. Z.div_mod_to_equations. lia.
Qed.

Lemma body_head a :
  let whole := showNat (Z.to_nat (a / 1000)) in
  exists c r,
    (if a mod 1000 =? 0 then whole
     else whole +:+ "." +:+ showFraction (a mod 1000)) = String c r
    /\ isDigit c = true.
Proof.
  intros whole. destruct (showNat_head (Z.to_nat (a / 1000))) as (c & r & Hs & Hc).
  fold whole in Hs. rewrite Hs. destruct (a mod 1000 =? 0).
  - exists c, r. split; [reflexivity | exact Hc].
  - exists c, (r +:+ "." +:+ showFraction (a mod 1000)).
    split; [reflexivity | exact Hc].
Qed.

(** Reading the text of a number gives the number back. *)
Lemma parse_toString (n : option Z) : parse (toString n) = n.
Proof.
  destruct n as [k|]; [|reflexivity].
  unfold toString, parse. cbv zeta.
  pose proof (unsignedPrefix_body (Z.abs k) (Z.abs_nonneg k)) as Hbody.
  destruct (body_head (Z.abs k)) as (c & r & Hs & Hc). cbv zeta in Hbody, Hs.
  rewrite Hs in Hbody |- *.
  destruct (digit_plain c Hc) as (Hspace & _ & _).
  destruct (Z.ltb_spec k 0) as [Hneg|Hpos].
  - change ("-" +:+ String c r) with (String "-" (String c r)).
    change (skipSpaces (String "-" (String c r))) with (String "-" (String c r)).
    rewrite parsePrefix_minus, Hbody. cbn. f_equal. lia.
  - cbn [skipSpaces]. rewrite Hspace. rewrite parsePrefix_digit by exact Hc.
    rewrite Hbody. cbn. f_equal. lia.
Qed.

End MilliFacts.

(* ===================================================================== *)
(** ** Facts about the string built-ins                                   *)
(* ===================================================================== *)

Lemma append_cons a s t : String a s +:+ t = String a (s +:+ t).
Proof. reflexivity. Qed.

Lemma append_nil_r s : s +:+ EmptyString = s.
Proof. induction s as [|a s IH]; [reflexivity|]. rewrite append_cons, IH. reflexivity. Qed.

Lemma append_assoc s t u : (s +:+ t) +:+ u = s +:+ (t +:+ u).
Proof.
  induction s as [|a s IH]; [reflexivity|].
  rewrite !append_cons, IH. reflexivity.
Qed.

Lemma append_eq_nil s t : s +:+ t = EmptyString -> s = EmptyString /\ t = EmptyString.
Proof. destruct s; [intros Ht; split; [reflexivity | exact Ht] | discriminate]. Qed.

Lemma toLowerCase_app s t : toLowerCase (s +:+ t) = toLowerCase s +:+ toLowerCase t.
Proof.
  induction s as [|a s IH]; [reflexivity|].
  rewrite append_cons. simpl. rewrite IH. reflexivity.
Qed.

(** A lower-cased string splits where its source splits. *)
Lemma toLowerCase_eq_app s a b :
  toLowerCase s = a +:+ b ->
  exists a' b', s = a' +:+ b' /\ toLowerCase a' = a /\ toLowerCase b' = b.
Proof.
  revert s. induction a as [|c a IH]; intros s Hs.
  - exists EmptyString, s. repeat split. exact Hs.
  - destruct s as [|d s]; [discriminate|].
    rewrite append_cons in Hs. simpl in Hs. injection Hs as Hc Hr.
    destruct (IH _ Hr) as (a' & b' & -> & Ha & Hb).
    exists (String d a'), b'. rewrite append_cons. simpl.
    rewrite Hc, Ha. repeat split. exact Hb.
Qed.

Lemma startsWith_spec p s :
  startsWith p s = true <-> exists post, s = p +:+ post.
Proof.
  revert s. induction p as [|a p IH]; intros s; simpl.
  - split; [intros _; exists s; reflexivity | reflexivity].
  - destruct s as [|b s].
    + split; [discriminate | intros [post Hp]; discriminate].
    + destruct (Ascii.eqb_spec a b) as [->|Hne].
      * rewrite IH. split; intros [post Hp]; exists post.
        -- rewrite append_cons, Hp. reflexivity.
        -- rewrite append_cons in Hp. injection Hp as Hp. exact Hp.
      * split; [discriminate|]. intros [post Hp].
        rewrite append_cons in Hp. injection Hp as Hab _. congruence.
Qed.

Lemma includes_spec s t :
  includes s t = true <-> exists pre post, s = pre +:+ t +:+ post.
Proof.
  induction s as [|a s IH].
  - simpl. rewrite startsWith_spec. split.
    + intros [post Hp]. symmetry in Hp. apply append_eq_nil in Hp as [-> ->].
      exists EmptyString, EmptyString. reflexivity.
    + intros (pre & post & Hp). symmetry in Hp.
      apply append_eq_nil in Hp as [_ Hp]. apply append_eq_nil in Hp as [-> ->].
      exists EmptyString. reflexivity.
  - cbn [includes]. rewrite orb_true_iff, startsWith_spec, IH. split.
    + intros [[post Hp] | (pre & post & Hp)].
      * exists EmptyString, post. exact Hp.
      * exists (String a pre), post. rewrite append_cons, Hp. reflexivity.
    + intros (pre & post & Hp). destruct pre as [|b pre].
      * left. exists post. exact Hp.
      * right. rewrite append_cons in Hp. injection Hp as _ Hp.
        exists pre, post. exact Hp.
Qed.

Lemma includes_false s t :
  includes s t = false <-> ~ exists pre post, s = pre +:+ t +:+ post.
Proof.
  rewrite <- includes_spec. destruct (includes s t); split; intros; congruence.
Qed.

(** *** [split] undoes [join] on segments that hold no separator *)

Lemma split_no_sep c s : noChar c s -> split c s = [s].
Proof.
  induction s as [|a s IH]; [reflexivity|]. intros [Ha Hs]. simpl.
  destruct (Ascii.eqb_spec a c); [contradiction|]. rewrite (IH Hs). reflexivity.
Qed.

Lemma split_app_sep c s t :
  noChar c s -> split c (s +:+ String c t) = s :: split c t.
Proof.
  induction s as [|a s IH]; intros Hs.
  - simpl. rewrite Ascii.eqb_refl. reflexivity.
  - destruct Hs as [Ha Hs]. rewrite append_cons. simpl.
    destruct (Ascii.eqb_spec a c); [contradiction|]. rewrite (IH Hs). reflexivity.
Qed.

Lemma split_join c (segs : list string) :
  segs <> [] -> Forall (noChar c) segs ->
  split c (join (String c EmptyString) segs) = segs.
Proof.
  induction segs as [|s segs IH]; [congruence|]. intros _ Hall.
  inversion Hall as [|? ? Hs Hrest]; subst.
  destruct segs as [|s' segs].
  - simpl. apply split_no_sep. exact Hs.
  - change (join (String c EmptyString) (s :: s' :: segs))
      with (s +:+ String c EmptyString +:+ join (String c EmptyString) (s' :: segs)).
    rewrite append_cons. change (EmptyString +:+ ?x) with x.
    rewrite split_app_sep by exact Hs. f_equal. apply IH; [congruence | exact Hrest].
Qed.

(* ===================================================================== *)
(** ** validateFieldName                                                  *)
(* ===================================================================== *)

Lemma occursIgnoringCase_includes token s :
  occursIgnoringCase token s <->
  includes (toLowerCase s) (toLowerCase token) = true.
Proof.
  rewrite includes_spec. split.
  - intros (pre & mid & post & -> & Hmid).
    exists (toLowerCase pre), (toLowerCase post).
    rewrite !toLowerCase_app, Hmid. reflexivity.
  - intros (a & b & Hs).
    apply toLowerCase_eq_app in Hs as (pre & rest & -> & _ & Hrest).
    apply toLowerCase_eq_app in Hrest as (mid & post & -> & Hmid & _).
    exists pre, mid, post. split; [reflexivity | exact Hmid].
Qed.

Lemma unsafe_scan_spec s :
  some (fun pattern => includes (toLowerCase s) (toLowerCase pattern))
       UNSAFE_PATTERNS = true
  <-> containsUnsafePattern s.
Proof.
  unfold some, containsUnsafePattern. rewrite existsb_exists.
  split; intros (token & Hin & Hocc); exists token; split; try exact Hin;
    apply occursIgnoringCase_includes; exact Hocc.
Qed.

Lemma allChars_noChar p c s :
  p c = false -> allChars p s = true -> noChar c s.
Proof.
  intros Hc. induction s as [|a s IH]; simpl; [trivial|].
  intros [Ha Hs]%andb_true_iff. split; [|exact (IH Hs)].
  intros ->. congruence.
Qed.

Lemma validSegment_noDot part : validSegment part -> noChar "." part.
Proof.
  intros [_ Hre]. destruct part as [|a r]; [exact I|].
  simpl in Hre. apply andb_true_iff in Hre as [Ha Hr]. split.
  - intros ->. discriminate Ha.
  - eapply allChars_noChar; [|exact Hr]. reflexivity.
Qed.

Lemma forEachM_validateFieldPart parts :
  Forall validSegment parts -> forEachM validateFieldPart parts = Ok tt.
Proof.
  induction 1 as [|part parts [Hlen Hre] _ IH]; [reflexivity|].
  simpl. unfold validateFieldPart at 1, strlen, MAX_FIELD_LENGTH.
  destruct (Z.gtb_spec (Z.of_nat (String.length part)) 255) as [Hgt|_]; [lia|].
  rewrite Hre. simpl. exact IH.
Qed.

Lemma validateFieldName_unsafe field :
  containsUnsafePattern field ->
  exists message, validateFieldName field = Throw (DynamoValidationError message).
Proof.
  intros Hc. unfold validateFieldName.
  destruct (String.eqb field EmptyString); [eexists; reflexivity|].
  apply unsafe_scan_spec in Hc. rewrite Hc. eexists; reflexivity.
Qed.

Lemma validateFieldName_safe (segs : list string) :
  segs <> [] -> (length segs <= 20)%nat -> Forall validSegment segs ->
  ~ containsUnsafePattern (join "." segs) ->
  validateFieldName (join "." segs) = Ok tt.
Proof.
  intros Hne Hdepth Hsegs Hsafe. unfold validateFieldName.
  assert (Hsplit : split "." (join "." segs) = segs).
  { apply split_join; [exact Hne|].
    eapply Forall_impl; [exact Hsegs|]. exact validSegment_noDot. }
  destruct (String.eqb_spec (join "." segs) EmptyString) as [Hempty|_].
  - rewrite Hempty in Hsplit. simpl in Hsplit. subst segs.
    inversion Hsegs as [|? ? [_ Hre] _]; subst. discriminate Hre.
  - destruct (some _ UNSAFE_PATTERNS) eqn:Hscan.
    + apply unsafe_scan_spec in Hscan. contradiction.
    + rewrite Hsplit. unfold MAX_FIELD_DEPTH.
      destruct (Z.gtb_spec (Z.of_nat (length segs)) 20) as [Hgt|_]; [lia|].
      apply forEachM_validateFieldPart. exact Hsegs.
Qed.

(** C5, as amended: [validateFieldName] raises a validation error for every
    string in which a deny-list token occurs, whatever the case of its
    letters; and it returns normally for every dotted path of 1 to 20
    segments, each of at most 255 characters and matching
    [^[A-Za-z][A-Za-z0-9_]*$], in which no deny-list token occurs. *)
Theorem C5_validateFieldName_denylist_and_shape :
  (forall field,
      containsUnsafePattern field ->
      exists message, validateFieldName field = Throw (DynamoValidationError message))
  /\
  (forall segs : list string,
      segs <> [] -> (length segs <= 20)%nat -> Forall validSegment segs ->
      ~ containsUnsafePattern (join "." segs) ->
      validateFieldName (join "." segs) = Ok tt).
Proof.
  split; [exact validateFieldName_unsafe | exact validateFieldName_safe].
Qed.

(** C5, as stated, fails: [updatedAt] is a single segment of 9 characters
    that matches the segment pattern, and it is rejected because it
    contains [UPDATE] up to case. *)
Lemma C5_counterexample_updatedAt :
  (length ["updatedAt"] <= 20)%nat /\ Forall validSegment ["updatedAt"] /\
  validateFieldName (join "." ["updatedAt"])
  = Throw (DynamoValidationError "Field name contains unsafe pattern: updatedAt").
Proof.
  split; [simpl; lia|]. split; [|reflexivity].
  constructor; [|constructor]. split; [simpl; lia | reflexivity].
Qed.

(* ===================================================================== *)
(** ** Placeholder names are pairwise distinct                            *)
(* ===================================================================== *)

Lemma string_of_uint_sep d d' t t' :
  afterDigits t -> afterDigits t' ->
  NilEmpty.string_of_uint d +:+ t = NilEmpty.string_of_uint d' +:+ t' ->
  d = d' /\ t = t'.
Proof.
  intros Ht Ht'. revert d'.
  induction d as [|d IH|d IH|d IH|d IH|d IH|d IH|d IH|d IH|d IH|d IH];
    intros d' Heq; destruct d'; simpl in Heq; rewrite ?append_cons in Heq;
    try (destruct Ht as [->|[r ->]]; discriminate Heq);
    try (destruct Ht' as [->|[r ->]]; discriminate Heq);
    try discriminate Heq;
    try (injection Heq as Heq; destruct (IH _ Heq) as [-> ->]; split; reflexivity).
  split; [reflexivity | exact Heq].
Qed.

Lemma showNat_sep n n' t t' :
  afterDigits t -> afterDigits t' ->
  showNat n +:+ t = showNat n' +:+ t' -> n = n' /\ t = t'.
Proof.
  intros Ht Ht' Heq. unfold showNat in Heq.
  destruct (string_of_uint_sep _ _ _ _ Ht Ht' Heq) as [Hd Htt].
  split; [|exact Htt].
  rewrite <- (Unsigned.of_to n), <- (Unsigned.of_to n'), Hd. reflexivity.
Qed.

Lemma afterDigits_nil : afterDigits EmptyString.
Proof. left; reflexivity. Qed.

Lemma afterDigits_sep r : afterDigits (String "_" r).
Proof. right; exists r; reflexivity. Qed.

Lemma showNat_inj n n' : showNat n = showNat n' -> n = n'.
Proof.
  intros Heq.
  apply (showNat_sep n n' EmptyString EmptyString afterDigits_nil afterDigits_nil).
  rewrite !append_nil_r. exact Heq.
Qed.

Lemma nameKey_inj i j i' j' : nameKey i j = nameKey i' j' -> i = i' /\ j = j'.
Proof.
  unfold nameKey. intros Heq. injection Heq as Heq.
  apply showNat_sep in Heq as [-> Heq]; try apply afterDigits_sep.
  injection Heq as Heq. apply showNat_inj in Heq. split; [reflexivity | exact Heq].
Qed.

Lemma valueKey_inj i i' : valueKey i = valueKey i' -> i = i'.
Proof. unfold valueKey. intros Heq. injection Heq as Heq. exact (showNat_inj _ _ Heq). Qed.

Lemma valueKeyAt_inj i k i' k' : valueKeyAt i k = valueKeyAt i' k' -> i = i' /\ k = k'.
Proof.
  unfold valueKeyAt. intros Heq. injection Heq as Heq.
  apply showNat_sep in Heq as [-> Heq]; try apply afterDigits_sep.
  injection Heq as Heq. apply showNat_inj in Heq. split; [reflexivity | exact Heq].
Qed.

Lemma valueKey_ne_valueKeyAt i i' k : valueKey i <> valueKeyAt i' k.
Proof.
  unfold valueKey, valueKeyAt. intros Heq. injection Heq as Heq.
  rewrite <- (append_nil_r (showNat i)) in Heq.
  apply showNat_sep in Heq as [_ Heq];
    [discriminate Heq | apply afterDigits_nil | apply afterDigits_sep].
Qed.

Lemma pk_ne_nameKey i j : "#pk" <> nameKey i j.
Proof. unfold nameKey. intros Heq. discriminate Heq. Qed.

Lemma pkVal_ne_valueKey i : ":pkVal" <> valueKey i.
Proof. unfold valueKey. intros Heq. discriminate Heq. Qed.

Lemma pkVal_ne_valueKeyAt i k : ":pkVal" <> valueKeyAt i k.
Proof. unfold valueKeyAt. intros Heq. discriminate Heq. Qed.

(** Lists of keys indexed by the position of their predicate. *)
Lemma indexedFrom_fst {A} (l : list A) s : map fst (indexedFrom s l) = seq s (length l).
Proof.
  revert s. induction l as [|x l IH]; intros s; [reflexivity|].
  simpl. rewrite IH. reflexivity.
Qed.

Lemma indexedFrom_ge {A} (l : list A) s i x :
  In (i, x) (indexedFrom s l) -> (s <= i)%nat.
Proof.
  revert s. induction l as [|y l IH]; intros s; simpl; [tauto|].
  intros [Heq | Hin]; [injection Heq as <- _; lia | apply IH in Hin; lia].
Qed.

Lemma NoDup_indexedFrom_map {A} (key : nat -> string) (l : list A) s :
  (forall i j, key i = key j -> i = j) ->
  NoDup (map (fun '(i, _) => key i) (indexedFrom s l)).
Proof.
  intros Hinj. revert s. induction l as [|x l IH]; intros s; simpl.
  - constructor.
  - constructor; [|apply IH].
    rewrite list_elem_of_In, in_map_iff. intros ([i y] & Hk & Hin).
    apply Hinj in Hk. subst i. apply indexedFrom_ge in Hin. lia.
Qed.

Section OwnedKeys.
Context {A : Type} (keysOf : nat -> A -> list string) (owner : string -> nat -> Prop).
Hypothesis owner_functional : forall k i j, owner k i -> owner k j -> i = j.
Hypothesis keysOf_owner : forall i a k, In k (keysOf i a) -> owner k i.
Hypothesis keysOf_NoDup : forall i a, NoDup (keysOf i a).

Lemma concat_owner (l : list A) s k :
  In k (concat (map (fun '(i, a) => keysOf i a) (indexedFrom s l))) ->
  exists i, (s <= i)%nat /\ owner k i.
Proof.
  revert s. induction l as [|a l IH]; intros s; simpl; [tauto|].
  rewrite in_app_iff. intros [Hin | Hin].
  - exists s. split; [lia | eapply keysOf_owner; exact Hin].
  - destruct (IH _ Hin) as (i & Hle & Ho). exists i. split; [lia | exact Ho].
Qed.

Lemma NoDup_concat_indexed (l : list A) s :
  NoDup (concat (map (fun '(i, a) => keysOf i a) (indexedFrom s l))).
Proof.
  revert s. induction l as [|a l IH]; intros s; simpl; [constructor|].
  apply NoDup_app. split; [apply keysOf_NoDup|]. split; [|apply IH].
  intros k Hk Hk'. rewrite list_elem_of_In in Hk, Hk'.
  apply keysOf_owner in Hk. apply concat_owner in Hk' as (i & Hle & Ho).
  pose proof (owner_functional _ _ _ Hk Ho). lia.
Qed.
End OwnedKeys.

Lemma ownsName_functional k i j : ownsName k i -> ownsName k j -> i = j.
Proof. intros [a ->] [b Hb]. apply nameKey_inj in Hb. tauto. Qed.

Lemma ownsValue_functional k i j : ownsValue k i -> ownsValue k j -> i = j.
Proof.
  intros [-> | [a ->]] [Hb | [b Hb]].
  - exact (valueKey_inj _ _ Hb).
  - destruct (valueKey_ne_valueKeyAt _ _ _ Hb).
  - symmetry in Hb. destruct (valueKey_ne_valueKeyAt _ _ _ Hb).
  - apply valueKeyAt_inj in Hb. tauto.
Qed.

Section KeyLists.
Context `{Numbers}.

Lemma subExpressionNameKeys_owner i (f : IFilterQuery) k :
  In k (subExpressionNameKeys i f) -> ownsName k i.
Proof.
  unfold subExpressionNameKeys. rewrite in_map_iff.
  intros ([j part] & <- & _). exists j. reflexivity.
Qed.

Lemma subExpressionNameKeys_NoDup i (f : IFilterQuery) :
  NoDup (subExpressionNameKeys i f).
Proof.
  apply NoDup_indexedFrom_map. intros a b Hab. apply nameKey_inj in Hab. tauto.
Qed.

Lemma subExpressionValueKeys_owner i (f : IFilterQuery) k :
  In k (subExpressionValueKeys i f) -> ownsValue k i.
Proof.
  unfold subExpressionValueKeys.
  destruct (_ || _); [intros [<- | []]; left; reflexivity|].
  destruct (_ || _); [|intros [<- | []]; left; reflexivity].
  rewrite in_map_iff. intros ([j v] & <- & _). right. exists j. reflexivity.
Qed.

Lemma subExpressionValueKeys_NoDup i (f : IFilterQuery) :
  NoDup (subExpressionValueKeys i f).
Proof.
  unfold subExpressionValueKeys.
  destruct (_ || _); [apply NoDup_singleton|].
  destruct (_ || _); [|apply NoDup_singleton].
  apply NoDup_indexedFrom_map. intros a b Hab. apply valueKeyAt_inj in Hab. tauto.
Qed.

Lemma assignedNameKeys_NoDup pkName (filters : list IFilterQuery) :
  NoDup (assignedNameKeys pkName filters).
Proof.
  unfold assignedNameKeys.
  destruct (extractPartitionKeyFilter pkName filters) as [pkFilter remaining].
  apply NoDup_app. split; [destruct pkFilter; [apply NoDup_singleton | constructor]|].
  split.
  - intros k Hk Hk'. destruct pkFilter as [pk|]; [|inversion Hk].
    apply list_elem_of_singleton in Hk. subst k. rewrite list_elem_of_In in Hk'.
    apply (concat_owner _ ownsName subExpressionNameKeys_owner) in Hk'
      as (i & _ & [j Hj]).
    exact (pk_ne_nameKey _ _ Hj).
  - apply (NoDup_concat_indexed _ ownsName ownsName_functional
             subExpressionNameKeys_owner subExpressionNameKeys_NoDup).
Qed.

Lemma assignedValueKeys_NoDup pkName (filters : list IFilterQuery) :
  NoDup (assignedValueKeys pkName filters).
Proof.
  unfold assignedValueKeys.
  destruct (extractPartitionKeyFilter pkName filters) as [pkFilter remaining].
  apply NoDup_app. split; [destruct pkFilter; [apply NoDup_singleton | constructor]|].
  split.
  - intros k Hk Hk'. destruct pkFilter as [pk|]; [|inversion Hk].
    apply list_elem_of_singleton in Hk. subst k. rewrite list_elem_of_In in Hk'.
    apply (concat_owner _ ownsValue subExpressionValueKeys_owner) in Hk'
      as (i & _ & [Hj | [j Hj]]).
    + exact (pkVal_ne_valueKey _ Hj).
    + exact (pkVal_ne_valueKeyAt _ _ Hj).
  - apply (NoDup_concat_indexed _ ownsValue ownsValue_functional
             subExpressionValueKeys_owner subExpressionValueKeys_NoDup).
Qed.

End KeyLists.

(* ===================================================================== *)
(** ** The expression builder and its placeholder maps                    *)
(* ===================================================================== *)

Section BuilderFacts.
Context `{Numbers}.

Implicit Types (expr : DynamoExpression) (names : gmap string string)
  (vals : gmap string JsValue).

Lemma setName_Some expr k v names :
  ExpressionAttributeNames expr = Some names ->
  exists e', setName expr k v = Ok e'
    /\ ExpressionAttributeNames e' = Some (<[k:=v]> names)
    /\ ExpressionAttributeValues e' = ExpressionAttributeValues expr.
Proof.
  intros Hn. unfold setName. rewrite Hn. eexists. repeat split.
Qed.

Lemma bindValue_inv expr k v e' vals :
  ExpressionAttributeValues expr = Some vals ->
  bindValue expr k v = Ok e' ->
  exists x, toDynamoDBValue v = Ok x
    /\ ExpressionAttributeValues e' = Some (<[k:=x]> vals)
    /\ ExpressionAttributeNames e' = ExpressionAttributeNames expr.
Proof.
  intros Hv. unfold bindValue, mbind, Result_bind, setValue. rewrite Hv.
  destruct (toDynamoDBValue v) as [x|e]; [|discriminate].
  intros [= <-]. exists x. repeat split.
Qed.

Lemma names_fold index (l : list (nat * string)) expr names :
  ExpressionAttributeNames expr = Some names ->
  exists e' names',
    foldlM (fun expr '(idx, part) => setName expr (nameKey index idx) part) expr l = Ok e'
    /\ ExpressionAttributeNames e' = Some names'
    /\ dom names' = dom names ∪ list_to_set (map (fun '(idx, _) => nameKey index idx) l)
    /\ ExpressionAttributeValues e' = ExpressionAttributeValues expr.
Proof.
  revert expr names. induction l as [|[idx part] l IH]; intros expr names Hn.
  - exists expr, names. simpl. repeat split; [exact Hn|].
    rewrite (right_id_L ∅ (∪)). reflexivity.
  - destruct (setName_Some expr (nameKey index idx) part names Hn) as (e1 & He1 & Hn1 & Hv1).
    destruct (IH e1 _ Hn1) as (e' & names' & Hfold & Hn' & Hdom & Hv').
    exists e', names'. simpl. rewrite He1. repeat split; try assumption.
    + rewrite Hdom, dom_insert_L, (comm_L (∪) {[_]} (dom names)), <- (assoc_L (∪)).
      reflexivity.
    + congruence.
Qed.

(** The loop of the [in] / [not in] case over the elements [arr], the first
    of which has index [s]. *)
Lemma in_fold index path (arr : list JsValue) :
  forall s expr conditions e' conditions' vals,
  ExpressionAttributeValues expr = Some vals ->
  foldlM (fun '(expr, conditions) '(i, v) =>
            expr ← bindValue expr (valueKeyAt index i) v;
            Ok (expr, conditions ++ [path +:+ " = " +:+ valueKeyAt index i]))
         (expr, conditions) (indexedFrom s arr) = Ok (e', conditions') ->
  exists vals',
    ExpressionAttributeValues e' = Some vals'
    /\ ExpressionAttributeNames e' = ExpressionAttributeNames expr
    /\ conditions' = conditions
         ++ map (fun '(i, _) => path +:+ " = " +:+ valueKeyAt index i) (indexedFrom s arr)
    /\ dom vals' = dom vals
         ∪ list_to_set (map (fun '(i, _) => valueKeyAt index i) (indexedFrom s arr))
    /\ (forall k v, arr !! k = Some v ->
          exists x, toDynamoDBValue v = Ok x
                    /\ vals' !! valueKeyAt index (s + k) = Some x)
    /\ (forall key, (forall k, key <> valueKeyAt index (s + k)) -> vals' !! key = vals !! key).
Proof.
  induction arr as [|v arr IH]; intros s expr conditions e' conditions' vals Hv; simpl.
  - intros [= <- <-]. exists vals. rewrite app_nil_r.
    repeat split; [exact Hv | | intros k v Hk; discriminate Hk].
    rewrite (right_id_L ∅ (∪)). reflexivity.
  - unfold mbind at 1, Result_bind at 1.
    destruct (bindValue expr (valueKeyAt index s) v) as [e1|err] eqn:Hb; [|discriminate].
    destruct (bindValue_inv _ _ _ _ _ Hv Hb) as (x & Hx & Hv1 & Hn1).
    intros Hfold. apply (IH (S s) e1 _ e' conditions' _ Hv1) in Hfold
      as (vals' & Hv' & Hn' & Hc & Hdom & Hlook & Hframe).
    exists vals'. repeat split.
    + exact Hv'.
    + congruence.
    + rewrite Hc, <- app_assoc. reflexivity.
    + rewrite Hdom, dom_insert_L, (comm_L (∪) {[_]} (dom vals)), <- (assoc_L (∪)).
      reflexivity.
    + intros [|k] w Hk.
      * injection Hk as <-. exists x. split; [exact Hx|].
        rewrite Nat.add_0_r, Hframe.
        -- apply lookup_insert_eq.
        -- intros k Heq. apply valueKeyAt_inj in Heq. lia.
      * destruct (Hlook k w Hk) as (y & Hy & Hl). exists y. split; [exact Hy|].
        replace (s + S k)%nat with (S s + k)%nat by lia. exact Hl.
    + intros key Hkey. rewrite Hframe.
      * apply lookup_insert_ne. intros Heq. apply (Hkey 0%nat).
        rewrite Nat.add_0_r. congruence.
      * intros k Heq. apply (Hkey (S k)).
        replace (s + S k)%nat with (S s + k)%nat by lia. exact Heq.
Qed.

End BuilderFacts.

Section BuilderKeys.
Context `{Numbers}.

Implicit Types (expr : DynamoExpression) (names : gmap string string)
  (vals : gmap string JsValue).

Lemma bindValue_dom expr k v e' names vals :
  ExpressionAttributeNames expr = Some names ->
  ExpressionAttributeValues expr = Some vals ->
  bindValue expr k v = Ok e' ->
  exists vals',
    ExpressionAttributeNames e' = Some names
    /\ ExpressionAttributeValues e' = Some vals'
    /\ dom vals' = dom vals ∪ {[k]}.
Proof.
  intros Hn Hv Hb. destruct (bindValue_inv _ _ _ _ _ Hv Hb) as (x & _ & Hv' & Hn').
  eexists. split; [congruence|]. split; [exact Hv'|].
  rewrite dom_insert_L. apply (comm_L (∪)).
Qed.

Lemma buildSubExpression_keys expr (f : IFilterQuery) i e' s names vals :
  ExpressionAttributeNames expr = Some names ->
  ExpressionAttributeValues expr = Some vals ->
  buildSubExpression expr (field f) (operator f) (value f) i = Ok (e', s) ->
  exists names' vals',
    ExpressionAttributeNames e' = Some names'
    /\ ExpressionAttributeValues e' = Some vals'
    /\ dom names' = dom names ∪ list_to_set (subExpressionNameKeys i f)
    /\ dom vals' = dom vals ∪ list_to_set (subExpressionValueKeys i f).
Proof.
  intros Hn Hv. unfold buildSubExpression, subExpressionNameKeys, subExpressionValueKeys.
  destruct (names_fold i (indexed (split "." (field f))) expr names Hn)
    as (e1 & names1 & Hfold & Hn1 & Hdom1 & Hv1).
  rewrite Hv in Hv1. unfold mbind at 1, Result_bind at 1. rewrite Hfold.
  assert (Hsingle : forall e2 k,
             bindValue e1 k (value f) = Ok e2 ->
             exists names' vals',
               ExpressionAttributeNames e2 = Some names'
               /\ ExpressionAttributeValues e2 = Some vals'
               /\ dom names' = dom names ∪ list_to_set
                    (map (fun '(idx, _) => nameKey i idx) (indexed (split "." (field f))))
               /\ dom vals' = dom vals ∪ list_to_set [k]).
  { intros e2 k Hb.
    destruct (bindValue_dom _ _ _ _ _ _ Hn1 Hv1 Hb) as (vals' & Hn2 & Hv2 & Hd2).
    exists names1, vals'. repeat split; try assumption.
    rewrite Hd2. simpl. rewrite (right_id_L ∅ (∪)). reflexivity. }
  destruct (String.eqb (operator f) "like").
  { simpl. unfold mbind, Result_bind.
    destruct (bindValue e1 _ _) eqn:Hb; [|discriminate].
    intros [= <- <-]. eapply Hsingle; exact Hb. }
  destruct (String.eqb (operator f) "not like").
  { simpl. unfold mbind, Result_bind.
    destruct (bindValue e1 _ _) eqn:Hb; [|discriminate].
    intros [= <- <-]. eapply Hsingle; exact Hb. }
  simpl. destruct (String.eqb (operator f) "in" || String.eqb (operator f) "not in").
  - unfold mbind at 1, Result_bind at 1.
    destruct (foldlM _ (e1, []) _) as [[e2 conditions]|err] eqn:Hin; [|discriminate].
    intros [= <- <-].
    apply (in_fold i _ _ 0%nat e1 [] e2 conditions vals Hv1) in Hin
      as (vals' & Hv2 & Hn2 & _ & Hd2 & _).
    exists names1, vals'. repeat split; try assumption. congruence.
  - unfold mbind, Result_bind.
    destruct (bindValue e1 _ _) eqn:Hb; [|discriminate].
    match goal with
    | |- match ?o with Some _ => _ | None => _ end = _ -> _ => destruct o
    end;
      [|discriminate].
    intros [= <- <-]. eapply Hsingle; exact Hb.
Qed.

Lemma filters_fold (l : list IFilterQuery) :
  forall s expr subs e' subs' names vals,
  ExpressionAttributeNames expr = Some names ->
  ExpressionAttributeValues expr = Some vals ->
  foldlM (fun '(expr, subExpressions) '(i, filter) =>
            '(expr, sub) ← buildSubExpression expr (field filter)
                              (operator filter) (value filter) i;
            Ok (expr, subExpressions ++ [sub]))
         (expr, subs) (indexedFrom s l) = Ok (e', subs') ->
  exists names' vals',
    ExpressionAttributeNames e' = Some names'
    /\ ExpressionAttributeValues e' = Some vals'
    /\ dom names' = dom names ∪ list_to_set
         (concat (map (fun '(i, f) => subExpressionNameKeys i f) (indexedFrom s l)))
    /\ dom vals' = dom vals ∪ list_to_set
         (concat (map (fun '(i, f) => subExpressionValueKeys i f) (indexedFrom s l))).
Proof.
  induction l as [|f l IH]; intros s expr subs e' subs' names vals Hn Hv; simpl.
  - intros [= <- <-]. exists names, vals.
    repeat split; try assumption; rewrite (right_id_L ∅ (∪)); reflexivity.
  - unfold mbind at 1, Result_bind at 1.
    destruct (buildSubExpression _ _ _ _ _) as [[e1 sub]|err] eqn:Hsub; [|discriminate].
    destruct (buildSubExpression_keys _ _ _ _ _ _ _ Hn Hv Hsub)
      as (names1 & vals1 & Hn1 & Hv1 & Hdn1 & Hdv1).
    intros Hfold. apply (IH _ _ _ _ _ _ _ Hn1 Hv1) in Hfold
      as (names' & vals' & Hn' & Hv' & Hdn & Hdv).
    exists names', vals'. repeat split; try assumption.
    + rewrite Hdn, Hdn1, list_to_set_app_L, (assoc_L (∪)). reflexivity.
    + rewrite Hdv, Hdv1, list_to_set_app_L, (assoc_L (∪)). reflexivity.
Qed.

Lemma addFilterExpressions_keys expr (filters : list IFilterQuery) e' names vals :
  ExpressionAttributeNames expr = Some names ->
  ExpressionAttributeValues expr = Some vals ->
  addFilterExpressions expr filters = Ok e' ->
  exists names' vals',
    ExpressionAttributeNames e' = Some names'
    /\ ExpressionAttributeValues e' = Some vals'
    /\ dom names' = dom names ∪ list_to_set
         (concat (map (fun '(i, f) => subExpressionNameKeys i f) (indexed filters)))
    /\ dom vals' = dom vals ∪ list_to_set
         (concat (map (fun '(i, f) => subExpressionValueKeys i f) (indexed filters))).
Proof.
  intros Hn Hv. unfold addFilterExpressions, mbind, Result_bind.
  destruct (foldlM _ _ _) as [[e1 subs]|err] eqn:Hfold; [|discriminate].
  intros [= <-]. exact (filters_fold _ _ _ _ _ _ _ _ Hn Hv Hfold).
Qed.

Lemma addPartitionKeyExpression_keys expr (pk : IFilterQuery) e' names vals :
  ExpressionAttributeNames expr = Some names ->
  ExpressionAttributeValues expr = Some vals ->
  addPartitionKeyExpression expr pk = Ok e' ->
  exists names' vals',
    ExpressionAttributeNames e' = Some names'
    /\ ExpressionAttributeValues e' = Some vals'
    /\ dom names' = dom names ∪ {["#pk"]}
    /\ dom vals' = dom vals ∪ {[":pkVal"]}.
Proof.
  intros Hn Hv. unfold addPartitionKeyExpression.
  destruct (setName_Some (setKeyConditionExpression expr "#pk = :pkVal")
              "#pk" (field pk) names Hn) as (e1 & He1 & Hn1 & Hv1).
  unfold mbind at 1, Result_bind at 1. rewrite He1. simpl in Hv1. rewrite Hv in Hv1.
  intros Hb. destruct (bindValue_dom _ _ _ _ _ _ Hn1 Hv1 Hb) as (vals' & Hn2 & Hv2 & Hd2).
  eexists _, vals'. repeat split; try eassumption.
  rewrite dom_insert_L. apply (comm_L (∪)).
Qed.


End BuilderKeys.

Section BuilderScenarios.
Context `{Numbers}.

(** C1: for the single predicate [{field: "id", operator: "=", value: "123"}]
    and the partition key [id], [buildFilterExpression] returns an
    expression whose key condition is [#pk = :pkVal], whose name map binds
    [#pk] to [id], whose value map binds [:pkVal] to the string-tagged
    encoding of ["123"], and which has no filter expression. *)
Theorem C1_partition_key_equality_becomes_key_condition :
  exists e,
    buildFilterExpression "id"
      [{| field := "id"; operator := "="; value := VString "123" |}] = Ok e
    /\ KeyConditionExpression e = Some "#pk = :pkVal"
    /\ ExpressionAttributeNames e = Some {[ "#pk" := "id" ]}
    /\ ExpressionAttributeValues e = Some {[ ":pkVal" := tagged "S" (VString "123") ]}
    /\ toDynamoDBValue (VString "123") = Ok (tagged "S" (VString "123"))
    /\ FilterExpression e = None.
Proof.
  eexists. split; [vm_compute; reflexivity|].
  repeat split.
Qed.

Lemma buildSubExpression_in expr field operator value index e' s names vals :
  operator = "in" \/ operator = "not in" ->
  ExpressionAttributeNames expr = Some names ->
  ExpressionAttributeValues expr = Some vals ->
  buildSubExpression expr field operator value index = Ok (e', s) ->
  let elems := match value with VArray l => l | _ => [value] end in
  let path := join "." (map (fun '(idx, _) => nameKey index idx)
                            (indexed (split "." field))) in
  s = (if String.eqb operator "in"
       then "(" +:+ disjunctionOf path index elems +:+ ")"
       else "NOT (" +:+ disjunctionOf path index elems +:+ ")")
  /\ exists vals',
       ExpressionAttributeValues e' = Some vals'
       /\ forall k v, elems !! k = Some v ->
            exists x, toDynamoDBValue v = Ok x
                      /\ vals' !! valueKeyAt index k = Some x.
Proof.
  intros Hop Hn Hv. unfold buildSubExpression.
  destruct (names_fold index (indexed (split "." field)) expr names Hn)
    as (e1 & names1 & Hfold & Hn1 & _ & Hv1).
  rewrite Hv in Hv1. unfold mbind at 1, Result_bind at 1. rewrite Hfold.
  assert (Hlike : String.eqb operator "like" = false)
    by (destruct Hop as [-> | ->]; reflexivity).
  assert (Hnotlike : String.eqb operator "not like" = false)
    by (destruct Hop as [-> | ->]; reflexivity).
  assert (Hin : String.eqb operator "in" || String.eqb operator "not in" = true)
    by (destruct Hop as [-> | ->]; reflexivity).
  rewrite Hlike, Hnotlike, Hin.
  unfold mbind at 1, Result_bind at 1.
  destruct (foldlM _ (e1, []) _) as [[e2 conditions]|err] eqn:Hloop; [|discriminate].
  intros [= <- <-].
  apply (in_fold index _ _ 0%nat e1 [] e2 conditions vals Hv1) in Hloop
    as (vals' & Hv2 & _ & Hc & _ & Hlook & _).
  simpl in Hc. subst conditions. split; [reflexivity|].
  exists vals'. split; [exact Hv2 | exact Hlook].
Qed.

(** C4: with a partition key other than [tags], the single predicate
    [{field: "tags", operator: "in", value: ["a", "b"]}] yields the filter
    expression [(#key0_0 = :val0_0 OR #key0_0 = :val0_1)], with [#key0_0]
    bound to [tags] and [:val0_0], [:val0_1] bound to the encodings of
    ["a"] and ["b"].  In general [in] and [not in] take a value that is not
    an array as a one-element array and expand to the [OR] of one equality
    per element, each with its own value placeholder bound to the encoding
    of the element; [not in] puts [NOT] in front. *)
Theorem C4_in_expands_to_disjunction :
  (forall pkName, pkName <> "tags" ->
     exists e names vals,
       buildFilterExpression pkName
         [{| field := "tags"; operator := "in";
             value := VArray [VString "a"; VString "b"] |}] = Ok e
       /\ FilterExpression e = Some "(#key0_0 = :val0_0 OR #key0_0 = :val0_1)"
       /\ ExpressionAttributeNames e = Some names
       /\ names !! "#key0_0" = Some "tags"
       /\ ExpressionAttributeValues e = Some vals
       /\ vals !! ":val0_0" = Some (tagged "S" (VString "a"))
       /\ vals !! ":val0_1" = Some (tagged "S" (VString "b"))
       /\ toDynamoDBValue (VString "a") = Ok (tagged "S" (VString "a"))
       /\ toDynamoDBValue (VString "b") = Ok (tagged "S" (VString "b")))
  /\
  (forall expr field operator value index e' s names vals,
     operator = "in" \/ operator = "not in" ->
     ExpressionAttributeNames expr = Some names ->
     ExpressionAttributeValues expr = Some vals ->
     buildSubExpression expr field operator value index = Ok (e', s) ->
     let elems := match value with VArray l => l | _ => [value] end in
     let path := join "." (map (fun '(idx, _) => nameKey index idx)
                               (indexed (split "." field))) in
     s = (if String.eqb operator "in"
          then "(" +:+ disjunctionOf path index elems +:+ ")"
          else "NOT (" +:+ disjunctionOf path index elems +:+ ")")
     /\ exists vals',
          ExpressionAttributeValues e' = Some vals'
          /\ forall k v, elems !! k = Some v ->
               exists x, toDynamoDBValue v = Ok x
                         /\ vals' !! valueKeyAt index k = Some x).
Proof.
  split; [|exact buildSubExpression_in].
  intros pkName Hpk.
  assert (Hextract : String.eqb "tags" pkName = false).
  { apply String.eqb_neq. congruence. }
  unfold buildFilterExpression, extractPartitionKeyFilter.
  cbn [field operator]. rewrite Hextract. cbn [andb].
  eexists _, _, _. split; [vm_compute; reflexivity|].
  repeat split.
Qed.

End BuilderScenarios.

(* ===================================================================== *)
(** ** The value codec                                                    *)
(* ===================================================================== *)

Section Codec.
Context `{Numbers}.

Lemma JsValue_nested_ind (P : JsValue -> Prop) :
  P VUndefined -> P VNull -> (forall b, P (VBool b)) -> (forall n, P (VNumber n)) ->
  (forall s, P (VString s)) ->
  (forall l, Forall P l -> P (VArray l)) ->
  (forall props, Forall (fun kv => P (snd kv)) props -> P (VObject props)) ->
  forall v, P v.
Proof.
  intros Hu Hn Hb Hnum Hs Ha Ho. fix IH 1. intros [| |b|n|s|l|props].
  - exact Hu.
  - exact Hn.
  - apply Hb.
  - apply Hnum.
  - apply Hs.
  - apply Ha. revert l. fix IHl 1. intros [|x l]; constructor; [apply IH | apply IHl].
  - apply Ho. revert props. fix IHp 1.
    intros [|[k x] props]; constructor; [apply IH | apply IHp].
Qed.

Lemma allValues_array P l :
  allValues P (VArray l) <-> P (VArray l) /\ Forall (allValues P) l.
Proof.
  cbn [allValues]. apply and_iff_compat_l.
  induction l as [|x l IH]; cbn [foldr].
  - split; [constructor | trivial].
  - rewrite IH, Forall_cons. reflexivity.
Qed.

Lemma allValues_object P props :
  allValues P (VObject props)
  <-> P (VObject props) /\ Forall (fun kv => allValues P (snd kv)) props.
Proof.
  cbn [allValues]. apply and_iff_compat_l.
  induction props as [|[k x] props IH]; cbn [foldr].
  - split; [constructor | trivial].
  - rewrite IH, Forall_cons. reflexivity.
Qed.

Lemma allValues_head P v : allValues P v -> P v.
Proof. destruct v; cbn [allValues]; tauto. Qed.

Lemma toDynamoDBValue_array l :
  toDynamoDBValue (VArray l) =
  match l with
  | [] => Throw (DynamoValidationError "Empty arrays not supported")
  | first :: _ =>
      let firstType := typeof first in
      let sameType := every (fun item => String.eqb (typeof item) firstType) l in
      if sameType && String.eqb firstType "string"
      then Ok (tagged "SS" (VArray l))
      else if sameType && String.eqb firstType "number"
      then Ok (tagged "NS" (VArray (map (fun n => VString (ToString n)) l)))
      else
        match mapR toDynamoDBValue l with
        | Ok encoded => Ok (tagged "L" (VArray encoded))
        | Throw e => Throw e
        end
  end.
Proof. destruct l; reflexivity. Qed.

Lemma toDynamoDBValue_object props :
  toDynamoDBValue (VObject props) =
  match foldlM (fun mapVal '(k, v) =>
                  match toDynamoDBValue v with
                  | Ok x => Ok (setProp mapVal k x)
                  | Throw e => Throw e
                  end) [] props with
  | Ok mapVal => Ok (tagged "M" (VObject mapVal))
  | Throw e => Throw e
  end.
Proof. reflexivity. Qed.

Lemma fromDynamoDBValue_L l :
  fromDynamoDBValue (tagged "L" (VArray l)) = VArray <$> mapR fromDynamoDBValue l.
Proof. reflexivity. Qed.

Lemma fromDynamoDBValue_M props :
  fromDynamoDBValue (tagged "M" (VObject props))
  = VObject <$> decodeProps fromDynamoDBValue [] props.
Proof. reflexivity. Qed.

Lemma fromDynamoDBValue_NS l :
  fromDynamoDBValue (tagged "NS" (VArray l))
  = VArray <$> mapR parseFloatOf l.
Proof. reflexivity. Qed.

(** What [toDynamoDBValue] returns is an object, hence neither falsy nor
    skipped by [mapDynamoDBItemToType]. *)
Lemma toDynamoDBValue_object_result v x :
  toDynamoDBValue v = Ok x -> exists props, x = VObject props.
Proof.
  destruct v as [| |b|n|s|l|props].
  - discriminate.
  - discriminate.
  - intros [= <-]. eexists; reflexivity.
  - intros [= <-]. eexists; reflexivity.
  - intros [= <-]. eexists; reflexivity.
  - rewrite toDynamoDBValue_array. destruct l as [|first rest]; [discriminate|].
    cbv zeta. destruct (_ && _); [intros [= <-]; eexists; reflexivity|].
    destruct (_ && _); [intros [= <-]; eexists; reflexivity|].
    destruct (mapR _ _); [intros [= <-]; eexists; reflexivity | discriminate].
  - rewrite toDynamoDBValue_object.
    destruct (foldlM _ _ _); [intros [= <-]; eexists; reflexivity | discriminate].
Qed.

Lemma replaceProp_fresh k (x : JsValue) props :
  ~ In k (map fst props) -> replaceProp k x props = props ++ [(k, x)].
Proof.
  induction props as [|[k' y] props IH]; [reflexivity|].
  cbn [map fst In replaceProp]. intros Hk.
  destruct (String.eqb_spec k k') as [->|_]; [tauto|].
  rewrite IH by tauto. reflexivity.
Qed.

Lemma setProp_fresh k (x : JsValue) props :
  k <> "__proto__" -> ~ In k (map fst props) ->
  setProp props k x = props ++ [(k, x)].
Proof.
  intros Hk Hfresh. unfold setProp.
  destruct (String.eqb_spec k "__proto__"); [contradiction|].
  apply replaceProp_fresh, Hfresh.
Qed.

Lemma mapR_cons {A B} (f : A -> Result B) x r :
  mapR f (x :: r) =
  match f x with
  | Ok y => match mapR f r with Ok ys => Ok (y :: ys) | Throw e => Throw e end
  | Throw e => Throw e
  end.
Proof. reflexivity. Qed.

Lemma foldlM_cons {A B} (f : A -> B -> Result A) acc x r :
  foldlM f acc (x :: r) =
  match f acc x with Ok acc' => foldlM f acc' r | Throw e => Throw e end.
Proof. reflexivity. Qed.

Lemma decodeProps_cons decode result key val r :
  decodeProps decode result ((key, val) :: r) =
  match decodeEntry result key val (decode val) with
  | Ok result' => decodeProps decode result' r
  | Throw e => Throw e
  end.
Proof. reflexivity. Qed.

Lemma encode_decode_list (l : list JsValue) :
  Forall roundTrips l ->
  exists xs, mapR toDynamoDBValue l = Ok xs /\ mapR fromDynamoDBValue xs = Ok l.
Proof.
  induction 1 as [|v l (x & Hx & Hd) _ (xs & Hxs & Hds)].
  - exists []. split; reflexivity.
  - exists (x :: xs). rewrite !mapR_cons, Hx, Hxs, Hd, Hds. split; reflexivity.
Qed.

Lemma numbers_decode (l : list JsValue) :
  Forall (fun v => typeof v = "number" /\ numberSurvives v) l ->
  mapR parseFloatOf (map (fun n => VString (ToString n)) l) = Ok l.
Proof.
  induction 1 as [|v l [Hty Hn] _ IH]; [reflexivity|].
  cbn [map]. rewrite mapR_cons, IH.
  destruct v; try discriminate Hty. cbn in Hn |- *. rewrite Hn. reflexivity.
Qed.

Lemma encode_props props :
  forall acc,
  NoDup (map fst acc ++ map fst props) ->
  ~ In "__proto__" (map fst props) ->
  Forall (fun kv => roundTrips (snd kv)) props ->
  exists enc,
    foldlM (fun mapVal '(k, v) =>
              match toDynamoDBValue v with
              | Ok x => Ok (setProp mapVal k x)
              | Throw e => Throw e
              end) acc props = Ok (acc ++ enc)
    /\ encodes props enc.
Proof.
  induction props as [|[k v] props IH]; intros acc Hnd Hproto Hall.
  - exists []. rewrite app_nil_r. split; [reflexivity | constructor].
  - inversion Hall as [|? ? (x & Hx & Hd) Hrest]; subst. cbn [snd] in Hx, Hd.
    cbn [map fst In] in Hnd, Hproto.
    apply NoDup_app in Hnd as (Hacc & Hdisj & Hprops).
    apply NoDup_cons in Hprops as [Hk Hprops].
    assert (Hfresh : ~ In k (map fst acc)).
    { intros Hin. apply (Hdisj k); [apply list_elem_of_In, Hin | left]. }
    destruct (IH (acc ++ [(k, x)])) as (enc & Hfold & Henc).
    + rewrite map_app. cbn [map fst]. apply NoDup_app. repeat split.
      * apply NoDup_app. repeat split; [exact Hacc | | apply NoDup_singleton].
        intros k' Hk' ->%list_elem_of_singleton. apply Hfresh, list_elem_of_In, Hk'.
      * intros k' [Hk'|Hk']%elem_of_app Hin.
        -- apply (Hdisj k' Hk'). right. exact Hin.
        -- apply list_elem_of_singleton in Hk'. subst k'. exact (Hk Hin).
      * exact Hprops.
    + tauto.
    + exact Hrest.
    + exists ((k, x) :: enc). rewrite foldlM_cons, Hx.
      rewrite setProp_fresh by tauto. rewrite Hfold, <- app_assoc.
      split; [reflexivity|]. constructor; [|exact Henc]. cbn. tauto.
Qed.

Lemma decode_props props :
  forall enc acc,
  encodes props enc ->
  NoDup (map fst acc ++ map fst props) ->
  ~ In "__proto__" (map fst props) ->
  decodeProps fromDynamoDBValue acc enc = Ok (acc ++ props).
Proof.
  induction props as [|[k v] props IH]; intros enc acc Henc Hnd Hproto.
  - inversion Henc; subst. rewrite app_nil_r. reflexivity.
  - inversion Henc as [|? [k' x] ? enc' (Hk & Hx & Hd) Hrest]; subst.
    cbn [fst snd] in Hk, Hx, Hd. subst k'.
    cbn [map fst In] in Hnd, Hproto.
    apply NoDup_app in Hnd as (Hacc & Hdisj & Hprops).
    apply NoDup_cons in Hprops as [Hk Hprops].
    assert (Hfresh : ~ In k (map fst acc)).
    { intros Hin. apply (Hdisj k); [apply list_elem_of_In, Hin | left]. }
    rewrite decodeProps_cons. unfold decodeEntry.
    destruct (toDynamoDBValue_object_result _ _ Hx) as [xprops ->].
    cbn [truthy typeof]. change (String.eqb "object" "object") with true.
    cbn [negb orb]. rewrite Hd. cbv beta iota. rewrite setProp_fresh by tauto.
    rewrite (IH enc' (acc ++ [(k, v)]) Hrest).
    + rewrite <- app_assoc. reflexivity.
    + rewrite map_app. cbn [map fst]. apply NoDup_app. repeat split.
      * apply NoDup_app. repeat split; [exact Hacc | | apply NoDup_singleton].
        intros k' Hk' ->%list_elem_of_singleton. apply Hfresh, list_elem_of_In, Hk'.
      * intros k' [Hk'|Hk']%elem_of_app Hin.
        -- apply (Hdisj k' Hk'). right. exact Hin.
        -- apply list_elem_of_singleton in Hk'. subst k'. exact (Hk Hin).
      * exact Hprops.
    + tauto.
Qed.

Lemma every_typeof (l : list JsValue) ty :
  every (fun item => String.eqb (typeof item) ty) l = true ->
  Forall (fun v => typeof v = ty) l.
Proof.
  unfold every. rewrite forallb_forall, Forall_forall.
  intros Hall v Hv. apply String.eqb_eq, Hall, list_elem_of_In, Hv.
Qed.

Lemma printed_numbers_survive :
  printedNumbersParse -> forall v, numbersSurvive v.
Proof.
  intros Hlaw. unfold numbersSurvive.
  induction v as [| |b|n|s|l IH|props IH] using JsValue_nested_ind;
    try (cbn; tauto).
  - split; [apply Hlaw | exact I].
  - apply allValues_array. split; [exact I | exact IH].
  - apply allValues_object. split; [exact I | exact IH].
Qed.



End Codec.

(* ===================================================================== *)
(** ** Decoding: precedence of the tags, and where it can throw          *)
(* ===================================================================== *)

Section Decoder.
Context `{Numbers}.

Lemma ifDefined_get {A} k props (f : JsValue -> A) (otherwise : A) :
  ifDefined k props f otherwise
  = if isUndefined (get (VObject props) k) then otherwise
    else f (get (VObject props) k).
Proof.
  unfold ifDefined. cbn [get].
  induction props as [|[k' x] props IH]; [reflexivity|].
  cbn [lookupOwn]. destruct (String.eqb k k'); [|exact IH].
  cbn [default]. destruct x; reflexivity.
Qed.

Lemma fromDynamoDBValue_object props :
  fromDynamoDBValue (VObject props) =
  ifDefined "S" props Ok (
  ifDefined "N" props parseFloatOf (
  ifDefined "BOOL" props Ok (
  ifDefined "SS" props Ok (
  ifDefined "NS" props (callMap parseFloatOf) (
  ifDefined "M" props mapDynamoDBItemToType (
  ifDefined "L" props (callMap fromDynamoDBValue) (
  Ok VNull))))))).
Proof. reflexivity. Qed.

Lemma get_tag_of_array l tag : In tag tagOrder -> getElement l tag = VUndefined.
Proof.
  unfold tagOrder. cbn [In].
  intros [<-|[<-|[<-|[<-|[<-|[<-|[<-|[]]]]]]]]; reflexivity.
Qed.

Lemma get_tag_undefined val tag :
  In tag tagOrder -> get val tag <> VUndefined -> exists props, val = VObject props.
Proof.
  intros Htag Hget. destruct val; cbn [get] in Hget; try congruence.
  - rewrite get_tag_of_array in Hget by exact Htag. congruence.
  - rewrite get_tag_of_array in Hget by exact Htag. congruence.
  - eexists; reflexivity.
Qed.

Lemma isUndefined_false (x : JsValue) : x <> VUndefined -> isUndefined x = false.
Proof. destruct x; [congruence | reflexivity..]. Qed.

Lemma isUndefined_true (x : JsValue) : x = VUndefined -> isUndefined x = true.
Proof. intros ->. reflexivity. Qed.

Lemma fromDynamoDBValue_first_tag val pre tag post :
  val <> VUndefined -> val <> VNull ->
  tagOrder = pre ++ tag :: post ->
  (forall t, In t pre -> get val t = VUndefined) ->
  get val tag <> VUndefined ->
  fromDynamoDBValue val = decodeTag tag (get val tag).
Proof.
  intros _ _ Hsplit Hpre Htag.
  assert (Hin : In tag tagOrder) by (rewrite Hsplit; apply in_elt).
  destruct (get_tag_undefined val tag Hin Htag) as [props ->].
  rewrite fromDynamoDBValue_object, !ifDefined_get.
  unfold tagOrder in Hsplit.
  repeat (destruct pre as [|? pre];
          [injection Hsplit as <- <-;
           rewrite (isUndefined_false _ Htag); reflexivity
          |injection Hsplit as <- Hsplit;
           rewrite (isUndefined_true _ (Hpre _ (or_introl eq_refl)));
           specialize (fun t Ht => Hpre t (or_intror Ht))]).
  destruct pre; discriminate Hsplit.
Qed.

(** C10: a typed value with several tag components defined is decoded by the
    first one that is defined in the order S, N, BOOL, SS, NS, M, L,
    whatever the later ones hold; a value with both an [S] and an [N]
    component decodes to the [S] string. *)
Theorem C10_first_defined_tag_wins :
  (forall val pre tag post,
     val <> VUndefined -> val <> VNull ->
     tagOrder = pre ++ tag :: post ->
     (forall t, In t pre -> get val t = VUndefined) ->
     get val tag <> VUndefined ->
     fromDynamoDBValue val = decodeTag tag (get val tag))
  /\ (forall s n rest,
        fromDynamoDBValue (VObject (("S", VString s) :: ("N", n) :: rest))
        = Ok (VString s))
  /\ (forall s n rest,
        fromDynamoDBValue (VObject (("N", n) :: ("S", VString s) :: rest))
        = Ok (VString s)).
Proof.
  split; [exact fromDynamoDBValue_first_tag|]. split; reflexivity.
Qed.

Lemma fromDynamoDBValue_no_tag val :
  val <> VUndefined -> val <> VNull ->
  (forall t, In t tagOrder -> get val t = VUndefined) ->
  fromDynamoDBValue val = Ok VNull.
Proof.
  intros Hu Hn Htags. destruct val; try congruence; try reflexivity.
  rewrite fromDynamoDBValue_object, !ifDefined_get.
  rewrite !isUndefined_true; [reflexivity|..]; apply Htags; unfold tagOrder; cbn; tauto.
Qed.

Lemma mapDynamoDBItemToType_not_object item :
  truthy item = false \/ typeof item <> "object" ->
  mapDynamoDBItemToType item = Ok (VObject []).
Proof.
  intros Hitem. unfold mapDynamoDBItemToType, mapItemWith.
  destruct Hitem as [-> | Hty]; [reflexivity|].
  apply String.eqb_neq in Hty. rewrite Hty, orb_true_r. reflexivity.
Qed.

Lemma decodeProps_skip decode props :
  forall acc,
  decodeProps decode acc props
  = decodeProps decode acc (List.filter (fun '(_, val) => negb (skipped val)) props).
Proof.
  induction props as [|[k val] props IH]; intros acc; [reflexivity|].
  cbn [List.filter]. destruct (skipped val) eqn:Hskip; cbn [negb].
  - rewrite decodeProps_cons. unfold decodeEntry. fold (skipped val).
    rewrite Hskip. apply IH.
  - rewrite !decodeProps_cons.
    destruct (decodeEntry acc k val (decode val)); [apply IH | reflexivity].
Qed.

Lemma mapDynamoDBItemToType_skips props :
  mapDynamoDBItemToType (VObject props)
  = mapDynamoDBItemToType
      (VObject (List.filter (fun '(_, val) => negb (skipped val)) props)).
Proof.
  unfold mapDynamoDBItemToType, mapItemWith. cbn [truthy typeof].
  rewrite (decodeProps_skip fromDynamoDBValue props []). reflexivity.
Qed.

Lemma decodeElems_cons decode i result val r :
  decodeElems decode i result (val :: r) =
  match decodeEntry result (showNat i) val (decode val) with
  | Ok result' => decodeElems decode (S i) result' r
  | Throw e => Throw e
  end.
Proof. reflexivity. Qed.

Lemma wellShaped_object props :
  wellShaped (VObject props) =
  forallb (fun '(k, x) =>
             if String.eqb k "N" then negb (shadowsToString x)
             else if String.eqb k "NS" then
               match x with
               | VUndefined => true
               | VArray ns => forallb (fun n => negb (shadowsToString n)) ns
               | _ => false
               end
             else if String.eqb k "L" then
               match x with
               | VUndefined => true
               | VArray xs => forallb wellShaped xs
               | _ => false
               end
             else if String.eqb k "M" then wellShapedItem x
             else true) props.
Proof. reflexivity. Qed.

Lemma parseFloatOf_total x :
  shadowsToString x = false -> exists r, parseFloatOf x = Ok r.
Proof.
  intros Hx. unfold parseFloatOf, JsString. rewrite Hx. eexists; reflexivity.
Qed.

Lemma parseFloatOf_list_total ns :
  forallb (fun n => negb (shadowsToString n)) ns = true ->
  exists r, mapR parseFloatOf ns = Ok r.
Proof.
  induction ns as [|n ns IH]; [eexists; reflexivity|].
  cbn [forallb]. intros [Hn Hns]%andb_true_iff. apply negb_true_iff in Hn.
  destruct (parseFloatOf_total n Hn) as [r Hr]. destruct (IH Hns) as [rs Hrs].
  exists (r :: rs). rewrite mapR_cons, Hr, Hrs. reflexivity.
Qed.

(** What [wellShaped] says of the component read under a tag. *)
Lemma wellShaped_component props tag x :
  wellShaped (VObject props) = true ->
  get (VObject props) tag = x -> x <> VUndefined ->
  In x (map snd props)
  /\ (tag = "N" -> shadowsToString x = false)
  /\ (tag = "NS" -> exists ns, x = VArray ns
                    /\ forallb (fun n => negb (shadowsToString n)) ns = true)
  /\ (tag = "L" -> exists xs, x = VArray xs /\ forallb wellShaped xs = true)
  /\ (tag = "M" -> wellShapedItem x = true).
Proof.
  rewrite wellShaped_object. cbn [get].
  induction props as [|[k y] props IH]; cbn [lookupOwn forallb map snd In default].
  - intros _ <-. congruence.
  - intros [Hhead Htail]%andb_true_iff. destruct (String.eqb_spec tag k) as [<-|Hne].
    + intros Hget Hx. change (y = x) in Hget. subst y. split; [left; reflexivity|].
      repeat split.
      * intros ->. cbn in Hhead. apply negb_true_iff, Hhead.
      * intros ->. cbn in Hhead. destruct x; try discriminate Hhead; [congruence|].
        eexists. split; [reflexivity | exact Hhead].
      * intros ->. cbn in Hhead. destruct x; try discriminate Hhead; [congruence|].
        eexists. split; [reflexivity | exact Hhead].
      * intros ->. exact Hhead.
    + intros Hget Hx. destruct (IH Htail Hget Hx) as (Hin & Hrest).
      split; [right; exact Hin | exact Hrest].
Qed.

Lemma decodeProps_total props :
  Forall (fun kv => decodesSafely (snd kv)) props ->
  forallb (fun '(_, y) => skipped y || wellShaped y) props = true ->
  forall acc, exists r, decodeProps fromDynamoDBValue acc props = Ok r.
Proof.
  induction 1 as [|[k y] props Hy _ IH]; intros Hshape acc.
  - exists acc. reflexivity.
  - cbn [forallb] in Hshape. apply andb_true_iff in Hshape as [Hhead Htail].
    rewrite decodeProps_cons. unfold decodeEntry. fold (skipped y).
    destruct (skipped y) eqn:Hskip; [apply IH, Htail|].
    cbn [orb] in Hhead. destruct Hy as [Hdec _]. cbn [snd] in Hdec.
    destruct (Hdec Hhead) as [r ->]. apply IH, Htail.
Qed.

Lemma decodeElems_total l :
  Forall decodesSafely l ->
  forallb (fun y => skipped y || wellShaped y) l = true ->
  forall i acc, exists r, decodeElems fromDynamoDBValue i acc l = Ok r.
Proof.
  induction 1 as [|y l Hy _ IH]; intros Hshape i acc.
  - exists acc. reflexivity.
  - cbn [forallb] in Hshape. apply andb_true_iff in Hshape as [Hhead Htail].
    rewrite decodeElems_cons. unfold decodeEntry. fold (skipped y).
    destruct (skipped y) eqn:Hskip; [apply IH, Htail|].
    cbn [orb] in Hhead. destruct Hy as [Hdec _]. destruct (Hdec Hhead) as [r ->].
    apply IH, Htail.
Qed.

Lemma mapR_total l :
  Forall decodesSafely l -> forallb wellShaped l = true ->
  exists r, mapR fromDynamoDBValue l = Ok r.
Proof.
  induction 1 as [|y l Hy _ IH]; intros Hshape.
  - exists []. reflexivity.
  - cbn [forallb] in Hshape. apply andb_true_iff in Hshape as [Hhead Htail].
    destruct Hy as [Hdec _]. destruct (Hdec Hhead) as [r Hr].
    destruct (IH Htail) as [rs Hrs]. exists (r :: rs).
    rewrite mapR_cons, Hr, Hrs. reflexivity.
Qed.

Lemma mapR_pure {A B} (f : A -> B) (l : list A) :
  mapR (fun x => Ok (f x)) l = Ok (map f l).
Proof.
  induction l as [|x l IH]; [reflexivity|]. rewrite mapR_cons, IH. reflexivity.
Qed.

Lemma decodesSafely_all v : decodesSafely v.
Proof.
  induction v as [| |b|n|s|l IH|props IH] using JsValue_nested_ind;
    unfold decodesSafely.
  - repeat split; [discriminate | eexists; reflexivity | discriminate].
  - repeat split; [discriminate | eexists; reflexivity | discriminate].
  - repeat split; [eexists; reflexivity | | discriminate].
    intros _. eexists. apply mapDynamoDBItemToType_not_object. right. discriminate.
  - repeat split; [eexists; reflexivity | | discriminate].
    intros _. eexists. apply mapDynamoDBItemToType_not_object. right. discriminate.
  - repeat split; [eexists; reflexivity | | discriminate].
    intros _. eexists. apply mapDynamoDBItemToType_not_object. right. discriminate.
  - repeat split.
    + eexists; reflexivity.
    + intros Hshape. unfold mapDynamoDBItemToType, mapItemWith. cbn [truthy typeof].
      change (negb true || negb (String.eqb "object" "object")) with false. cbv iota.
      destruct (decodeElems_total l IH Hshape 0%nat []) as [r ->].
      eexists; reflexivity.
    + intros xs [= <-] Hshape. apply mapR_total; assumption.
  - repeat split; [| |discriminate].
    + intros Hshape. rewrite fromDynamoDBValue_object, !ifDefined_get.
      assert (Hsub : forall tag x, get (VObject props) tag = x -> x <> VUndefined ->
                       decodesSafely x).
      { intros tag x Hget Hx.
        destruct (wellShaped_component props tag x Hshape Hget Hx) as (Hin & _).
        apply in_map_iff in Hin as (kv & <- & Hin).
        rewrite Forall_forall in IH. apply IH, list_elem_of_In, Hin. }
      repeat match goal with
             | |- exists r, (if isUndefined ?g then _ else _) = Ok r =>
                 destruct (isUndefined g) eqn:?; [|try (eexists; reflexivity)]
             end.
      * eexists; reflexivity.
      * remember (get (VObject props) "L") as x eqn:Hget. symmetry in Hget.
        assert (Hx : x <> VUndefined) by (intros ->; discriminate).
        destruct (wellShaped_component props "L" x Hshape Hget Hx)
          as (_ & _ & _ & Hl & _).
        destruct (Hl eq_refl) as (xs & -> & Hxs).
        destruct (Hsub "L" _ Hget Hx) as (_ & _ & Harr).
        destruct (Harr xs eq_refl Hxs) as [r Hr].
        cbn [callMap]. rewrite Hr. eexists; reflexivity.
      * remember (get (VObject props) "M") as x eqn:Hget. symmetry in Hget.
        assert (Hx : x <> VUndefined) by (intros ->; discriminate).
        destruct (wellShaped_component props "M" x Hshape Hget Hx)
          as (_ & _ & _ & _ & Hm).
        destruct (Hsub "M" _ Hget Hx) as (_ & Hitem & _).
        exact (Hitem (Hm eq_refl)).
      * remember (get (VObject props) "NS") as x eqn:Hget. symmetry in Hget.
        assert (Hx : x <> VUndefined) by (intros ->; discriminate).
        destruct (wellShaped_component props "NS" x Hshape Hget Hx)
          as (_ & _ & Hns & _).
        destruct (Hns eq_refl) as (ns & -> & Hall).
        destruct (parseFloatOf_list_total ns Hall) as [r Hr].
        cbn [callMap]. rewrite Hr. eexists; reflexivity.
      * remember (get (VObject props) "N") as x eqn:Hget. symmetry in Hget.
        assert (Hx : x <> VUndefined) by (intros ->; discriminate).
        destruct (wellShaped_component props "N" x Hshape Hget Hx)
          as (_ & Hn & _).
        exact (parseFloatOf_total x (Hn eq_refl)).
    + intros Hshape. unfold mapDynamoDBItemToType, mapItemWith. cbn [truthy typeof].
      change (negb true || negb (String.eqb "object" "object")) with false. cbv iota.
      destruct (decodeProps_total props IH Hshape []) as [r ->].
      eexists; reflexivity.
Qed.

(** C9: decoding does throw.  The elements of an [L] array are passed to
    [fromDynamoDBValue] as they are, so that a [null] among them is read for
    its [S] property; the error leaves [mapDynamoDBItemToType] as well.  The
    loop of [mapDynamoDBItemToType] does guard its own entries: a [null]
    there is passed over. *)
Theorem C9_list_elements_are_not_guarded :
  fromDynamoDBValue (tagged "L" (VArray [VNull])) = Throw TypeError
  /\ mapDynamoDBItemToType (VObject [("tags", tagged "L" (VArray [VNull]))])
     = Throw TypeError
  /\ mapDynamoDBItemToType (VObject [("tags", VNull)]) = Ok (VObject [])
  /\ fromDynamoDBValue (tagged "M" (VObject [("tags", VNull)])) = Ok (VObject []).
Proof. repeat split. Qed.

End Decoder.

(* ===================================================================== *)
(** ** Pagination                                                         *)
(* ===================================================================== *)

Section Pagination.
Context `{Numbers} `{Locale}.

Lemma mustBeInteger_orDefault label v z :
  mustBeInteger label (orDefault v (VNumber (number_of_Z z))) = mustBeInteger label v.
Proof.
  destruct v; try reflexivity.
  unfold mustBeInteger, JsNumber.
  cbn [orDefault isUndefined shadowsToString ToNumber negb].
  unfold mbind, Result_bind. rewrite Number_isInteger_of_Z. reflexivity.
Qed.

Lemma mustBeInteger_defined label v :
  v <> VUndefined ->
  mustBeInteger label v =
  match JsNumber v with
  | Ok n => if Number_isInteger n then Ok tt
            else Throw (DynamoValidationError (label +:+ " must be an integer"))
  | Throw e => Throw e
  end.
Proof.
  intros Hv. unfold mustBeInteger. destruct v; [congruence|..];
    cbn [isUndefined negb]; unfold mbind, Result_bind;
    destruct (JsNumber _) as [m|e]; try reflexivity;
    destruct (Number_isInteger m); reflexivity.
Qed.

Lemma mustBeInteger_Throw label v e :
  mustBeInteger label v = Throw e <->
  v <> VUndefined
  /\ ((exists n, JsNumber v = Ok n /\ Number_isInteger n = false
                 /\ e = DynamoValidationError (label +:+ " must be an integer"))
      \/ JsNumber v = Throw e).
Proof.
  destruct v as [| |b|n|s|l|props];
    try (rewrite mustBeInteger_defined by discriminate;
         destruct (JsNumber _) as [m|e'];
         [destruct (Number_isInteger m) eqn:Hm|];
         split;
         [ try discriminate; intros [= <-]; split; try discriminate; eauto
         | intros (_ & [(m' & [= <-] & Hm' & He)|[=]]); congruence
         | try discriminate; intros [= <-]; split; try discriminate; eauto
         | intros (_ & [(m' & [= <-] & Hm' & He)|[=]]); congruence
         | intros [= <-]; split; [discriminate | right; reflexivity]
         | intros (_ & [(m' & [=] & _)|[= <-]]); reflexivity ]).
  split; [discriminate | intros [Hu _]; congruence].
Qed.

Lemma validatePagination_chain p :
  validatePagination p =
  let q := if negb (truthy p) then VObject [] else p in
  _ ← mustBeInteger "Page" (get q "page");
  _ ← mustBeInteger "Size" (get q "size");
  _ ← mustBeInteger "Limit" (get q "limit");
  mustBeInteger "Offset" (get q "offset").
Proof.
  unfold validatePagination. cbv zeta. rewrite !mustBeInteger_orDefault. reflexivity.
Qed.

Lemma validatePagination_Throw p e :
  validatePagination p = Throw e ->
  exists name label,
    In (name, label) fieldLabels
    /\ mustBeInteger label (get (if negb (truthy p) then VObject [] else p) name) = Throw e.
Proof.
  rewrite validatePagination_chain. cbv zeta.
  set (q := if negb (truthy p) then VObject [] else p).
  unfold mbind, Result_bind, fieldLabels.
  destruct (mustBeInteger "Page" (get q "page")) eqn:Hp;
    [|intros [= <-]; exists "page", "Page"; split; [cbn; tauto | exact Hp]].
  destruct (mustBeInteger "Size" (get q "size")) eqn:Hs;
    [|intros [= <-]; exists "size", "Size"; split; [cbn; tauto | exact Hs]].
  destruct (mustBeInteger "Limit" (get q "limit")) eqn:Hl;
    [|intros [= <-]; exists "limit", "Limit"; split; [cbn; tauto | exact Hl]].
  intros Ho. exists "offset", "Offset". split; [cbn; tauto | exact Ho].
Qed.

Lemma validatePagination_rejects p name label e :
  In (name, label) fieldLabels ->
  mustBeInteger label (get (if negb (truthy p) then VObject [] else p) name) = Throw e ->
  exists e', validatePagination p = Throw e'.
Proof.
  rewrite validatePagination_chain. cbv zeta.
  set (q := if negb (truthy p) then VObject [] else p).
  unfold mbind, Result_bind, fieldLabels. cbn [In].
  intros [[= <- <-]|[[= <- <-]|[[= <- <-]|[[= <- <-]|[]]]]] Hthrow.
  - rewrite Hthrow. eexists; reflexivity.
  - destruct (mustBeInteger "Page" _); [|eexists; reflexivity].
    rewrite Hthrow. eexists; reflexivity.
  - destruct (mustBeInteger "Page" _); [|eexists; reflexivity].
    destruct (mustBeInteger "Size" _); [|eexists; reflexivity].
    rewrite Hthrow. eexists; reflexivity.
  - destruct (mustBeInteger "Page" _); [|eexists; reflexivity].
    destruct (mustBeInteger "Size" _); [|eexists; reflexivity].
    destruct (mustBeInteger "Limit" _); [|eexists; reflexivity].
    rewrite Hthrow. eexists; reflexivity.
Qed.

Lemma get_empty_object name : get (VObject []) name = VUndefined.
Proof. reflexivity. Qed.

Lemma fieldLabels_name name label :
  In (name, label) fieldLabels ->
  In name paginationFields /\ In label ["Page"; "Size"; "Limit"; "Offset"].
Proof.
  unfold fieldLabels, paginationFields. cbn [In].
  intros [[= <- <-]|[[= <- <-]|[[= <- <-]|[[= <- <-]|[]]]]]; tauto.
Qed.

(** The error of [validatePagination] comes from a field that is present:
    it is the integer error of that field, or the error of its coercion. *)
Lemma validatePagination_Throw_field p e :
  validatePagination p = Throw e ->
  exists name v,
    In name paginationFields /\ presentField p name v
    /\ ((exists n, JsNumber v = Ok n /\ Number_isInteger n = false /\ integerError e)
        \/ JsNumber v = Throw e).
Proof.
  intros He. apply validatePagination_Throw in He as (name & label & Hin & Hthrow).
  apply mustBeInteger_Throw in Hthrow as (Hdef & Hcase).
  destruct (fieldLabels_name name label Hin) as [Hname Hlabel].
  destruct (truthy p) eqn:Htruthy; cbn [negb] in Hdef, Hcase.
  - exists name, (get p name). split; [exact Hname|].
    split; [repeat split; assumption|].
    destruct Hcase as [(n & Hn & Hint & ->)|Hcase]; [left | right; exact Hcase].
    exists n. split; [exact Hn|]. split; [exact Hint|].
    exists label. split; [exact Hlabel | reflexivity].
  - rewrite get_empty_object in Hdef. congruence.
Qed.

Lemma validatePagination_iff p :
  (forall name v, In name paginationFields -> presentField p name v ->
     exists n, JsNumber v = Ok n) ->
  ((exists e, validatePagination p = Throw e /\ integerError e) <->
   (exists name v n, In name paginationFields /\ presentField p name v
                     /\ JsNumber v = Ok n /\ Number_isInteger n = false))
  /\ (forall e, validatePagination p = Throw e -> integerError e).
Proof.
  intros Hcoerce.
  assert (Herr : forall e, validatePagination p = Throw e -> integerError e).
  { intros e He.
    apply validatePagination_Throw_field in He as (name & v & Hin & Hfield & Hcase).
    destruct Hcase as [(n & _ & _ & Herr)|Hthrow]; [exact Herr|].
    destruct (Hcoerce name v Hin Hfield) as [n Hn]. congruence. }
  split; [|exact Herr]. split.
  - intros (e & He & _).
    apply validatePagination_Throw_field in He as (name & v & Hin & Hfield & Hcase).
    destruct Hcase as [(n & Hn & Hint & _)|Hthrow].
    + exists name, v, n. tauto.
    + destruct (Hcoerce name v Hin Hfield) as [n Hn]. congruence.
  - intros (name & v & n & Hin & (Htruthy & Hget & Hdef) & Hn & Hint).
    unfold paginationFields in Hin. cbn [In] in Hin.
    assert (Hlabel : exists label, In (name, label) fieldLabels).
    { unfold fieldLabels. cbn [In].
      destruct Hin as [<-|[<-|[<-|[<-|[]]]]]; eexists; eauto 6. }
    destruct Hlabel as [label Hlabel].
    destruct (validatePagination_rejects p name label
                (DynamoValidationError (label +:+ " must be an integer")) Hlabel)
      as [e He].
    + rewrite Htruthy. cbn [negb]. rewrite Hget.
      apply mustBeInteger_Throw. split; [exact Hdef|]. left. exists n. tauto.
    + exists e. split; [exact He | exact (Herr e He)].
Qed.

Lemma prepareQueryParameters_validates_first
    calculatePaginationValues tableName pkName (query : IGenericFilterQuery) e :
  validatePagination (orDefault (query_pagination query) (VObject [])) = Throw e ->
  prepareQueryParameters calculatePaginationValues tableName pkName query = Throw e.
Proof.
  intros He. unfold prepareQueryParameters. cbv zeta.
  unfold mbind at 1, Result_bind at 1. rewrite He. reflexivity.
Qed.

(** C6, as amended: for a pagination spec whose fields [page], [size],
    [limit] and [offset], where present, can be coerced to a number,
    [validatePagination] raises a "<Field> must be an integer" error
    exactly when the number that some present field coerces to is not an
    integer, and it raises no other error; [prepareQueryParameters] raises
    the error of [validatePagination] before it looks at the filters,
    whatever they are, so that for [{page: n}] with [n] not an integer no
    expression is built. *)
Theorem C6_pagination_integers_checked_first :
  (forall p,
     (forall name v, In name paginationFields -> presentField p name v ->
        exists n, JsNumber v = Ok n) ->
     ((exists e, validatePagination p = Throw e /\ integerError e) <->
      (exists name v n, In name paginationFields /\ presentField p name v
                        /\ JsNumber v = Ok n /\ Number_isInteger n = false))
     /\ (forall e, validatePagination p = Throw e -> integerError e))
  /\ (forall calculatePaginationValues tableName pkName (query : IGenericFilterQuery) e,
        validatePagination (orDefault (query_pagination query) (VObject [])) = Throw e ->
        prepareQueryParameters calculatePaginationValues tableName pkName query = Throw e)
  /\ (forall n calculatePaginationValues tableName pkName filters,
        Number_isInteger n = false ->
        prepareQueryParameters calculatePaginationValues tableName pkName
          {| query_pagination := VObject [("page", VNumber n)];
             query_filters := filters |}
        = Throw (DynamoValidationError "Page must be an integer")).
Proof.
  split; [exact validatePagination_iff|].
  split; [exact prepareQueryParameters_validates_first|].
  intros n calc tableName pkName filters Hn.
  apply prepareQueryParameters_validates_first.
  cbn [query_pagination orDefault]. set (q := VObject [("page", VNumber n)]).
  assert (Hpage : get q "page" = VNumber n) by reflexivity.
  rewrite validatePagination_chain. cbv zeta.
  change (if negb (truthy q) then VObject [] else q) with q. rewrite Hpage.
  unfold mbind at 1, Result_bind at 1.
  rewrite mustBeInteger_defined by discriminate.
  change (JsNumber (VNumber n)) with (Ok n : Result number). cbv iota.
  rewrite Hn. reflexivity.
Qed.

(* ===================================================================== *)
(** ** The result processor: the two early returns                        *)
(* ===================================================================== *)

(** C8: [processResults] returns the empty sequence when [limit] is 0, and
    when [offset] is at least the number of raw items; in both cases it
    returns before any call of a decoder. *)
Theorem C8_nothing_decoded_on_empty_page
    (items : list JsValue) (limit offset : Z) (pagination : JsValue) :
  (limit = 0 ->
     outcome (processResults items limit offset pagination) = Ok []
     /\ decodeCalls (processResults items limit offset pagination) = 0%nat)
  /\ (offset >= Z.of_nat (length items) ->
     outcome (processResults items limit offset pagination) = Ok []
     /\ decodeCalls (processResults items limit offset pagination) = 0%nat).
Proof.
  unfold processResults. split.
  - intros ->. split; reflexivity.
  - intros Hoff. destruct (limit =? 0); [split; reflexivity|].
    destruct (Z.geb_spec offset (Z.of_nat (length items))) as [_|Hlt]; [|lia].
    split; reflexivity.
Qed.

End Pagination.

(* ===================================================================== *)
(** ** The result processor: ordering                                     *)
(* ===================================================================== *)

(** The algorithm of [insertionSort] with a comparator that cannot throw. *)
Section SortFacts.
Context {A : Type} (cmp : A -> A -> comparison).

Lemma insertPure_Permutation x l : Permutation (x :: l) (insertPure cmp x l).
Proof.
  induction l as [|y l IH]; [reflexivity|]. cbn [insertPure].
  destruct (cmp x y); try reflexivity.
  rewrite perm_swap. apply perm_skip, IH.
Qed.

Lemma sortPure_Permutation l : Permutation l (sortPure cmp l).
Proof.
  induction l as [|x l IH]; [reflexivity|]. cbn [sortPure].
  rewrite <- insertPure_Permutation. apply perm_skip, IH.
Qed.

Section Consistent.
Context (D : A -> Prop) (Hcons : consistentOn cmp D).

Lemma insertPure_sorted x l :
  D x -> Forall D l -> StronglySorted (precedes cmp) l ->
  StronglySorted (precedes cmp) (insertPure cmp x l).
Proof.
  destruct Hcons as [Hanti Htrans]. intros Hx Hl Hs.
  induction Hs as [|y l Hs IH Hy]; cbn [insertPure].
  - constructor; constructor.
  - inversion Hl as [|? ? Dy Dl]; subst.
    destruct (cmp x y) eqn:Hxy.
    + constructor; [constructor; assumption|].
      constructor; [unfold precedes; congruence|].
      rewrite Forall_forall in Hy, Dl |- *. intros z Hz.
      apply (Htrans x y z); auto. unfold precedes; congruence.
    + constructor; [constructor; assumption|].
      constructor; [unfold precedes; congruence|].
      rewrite Forall_forall in Hy, Dl |- *. intros z Hz.
      apply (Htrans x y z); auto. unfold precedes; congruence.
    + constructor; [apply IH, Dl|].
      apply (Permutation_Forall (insertPure_Permutation x l)).
      constructor; [|exact Hy]. unfold precedes. rewrite (Hanti x y Hx Dy Hxy).
      discriminate.
Qed.

Lemma sortPure_sorted l :
  Forall D l -> StronglySorted (precedes cmp) (sortPure cmp l).
Proof.
  induction 1 as [|x l Hx Hl IH]; cbn [sortPure]; [constructor|].
  apply insertPure_sorted; [exact Hx | | exact IH].
  apply (Permutation_Forall (sortPure_Permutation l)), Hl.
Qed.

Lemma insertPure_filter a x l :
  D a -> D x -> Forall D l ->
  List.filter (sameKey cmp a) (insertPure cmp x l) = List.filter (sameKey cmp a) (x :: l).
Proof.
  destruct Hcons as [Hanti Htrans]. intros Ha Hx Hl.
  induction Hl as [|y l Hy Hl IH]; [reflexivity|]. cbn [insertPure].
  destruct (cmp x y) eqn:Hxy; try reflexivity.
  cbn [List.filter] in IH |- *. rewrite IH.
  destruct (sameKey cmp a x) eqn:Hax; [|reflexivity].
  destruct (sameKey cmp a y) eqn:Hay; [|reflexivity].
  exfalso. unfold sameKey in Hax, Hay.
  destruct (cmp a x) eqn:Hcx; try discriminate.
  destruct (cmp a y) eqn:Hcy; try discriminate.
  apply (Htrans x a y Hx Ha Hy); unfold precedes; [|congruence|exact Hxy].
  intros Hgt. apply (Hanti x a Hx Ha) in Hgt. congruence.
Qed.

Lemma sortPure_stable a l :
  D a -> Forall D l ->
  List.filter (sameKey cmp a) (sortPure cmp l) = List.filter (sameKey cmp a) l.
Proof.
  intros Ha. induction 1 as [|x l Hx Hl IH]; [reflexivity|]. cbn [sortPure].
  rewrite insertPure_filter; [|exact Ha | exact Hx |].
  - cbn [List.filter]. rewrite IH. reflexivity.
  - apply (Permutation_Forall (sortPure_Permutation l)), Hl.
Qed.

End Consistent.

(** A comparator that counts decoder calls and, on [D], returns what [cmp]
    returns. *)
Section Counting.
Context (cmpC : A -> A -> Counted comparison) (D : A -> Prop).
Hypothesis cmpC_pure :
  forall a b, D a -> D b -> forall n, exists n', cmpC a b n = (Ok (cmp a b), n').

Lemma insertSorted_cons x y r :
  insertSorted cmpC x (y :: r) =
  bindC (cmpC x y) (fun c =>
    match c with
    | Gt => bindC (insertSorted cmpC x r) (fun r' => retC (y :: r'))
    | _ => retC (x :: y :: r)
    end).
Proof. reflexivity. Qed.

Lemma insertSorted_pure x l :
  D x -> Forall D l ->
  forall n, exists n', insertSorted cmpC x l n = (Ok (insertPure cmp x l), n').
Proof.
  intros Hx. induction 1 as [|y l Hy Hl IH]; intros n.
  - exists n. reflexivity.
  - rewrite insertSorted_cons. cbn [insertPure]. unfold bindC at 1.
    destruct (cmpC_pure x y Hx Hy n) as [n1 ->].
    destruct (cmp x y); try (eexists; reflexivity).
    unfold bindC. destruct (IH n1) as [n2 ->]. eexists; reflexivity.
Qed.

Lemma insertionSort_pure l :
  Forall D l ->
  forall n, exists n', insertionSort cmpC l n = (Ok (sortPure cmp l), n').
Proof.
  induction 1 as [|x l Hx Hl IH]; intros n.
  - exists n. reflexivity.
  - cbn [sortPure].
    change (insertionSort cmpC (x :: l))
      with (bindC (insertionSort cmpC l) (insertSorted cmpC x)).
    unfold bindC. destruct (IH n) as [n1 ->].
    apply insertSorted_pure; [exact Hx|].
    apply (Permutation_Forall (sortPure_Permutation l)), Hl.
Qed.

End Counting.
End SortFacts.

Section Ordering.
Context `{Numbers} `{Locale}.

Lemma sortKeyValue_run sortKey a n :
  fst (sortKeyValue sortKey a n) = outcome (sortKeyValue sortKey a).
Proof.
  unfold outcome, sortKeyValue, bindC, liftC, decodeCall, retC.
  destruct (getComputed a sortKey) as [raw|e]; [|reflexivity].
  destruct (truthyMember raw); reflexivity.
Qed.

Lemma sortKeyValue_spec sortKey a :
  outcome (sortKeyValue sortKey a) =
  match getComputed a sortKey with
  | Ok raw => if truthyMember raw then decodeMember raw else Ok (VString EmptyString)
  | Throw e => Throw e
  end.
Proof.
  unfold outcome, sortKeyValue, bindC, liftC, decodeCall, retC.
  destruct (getComputed a sortKey) as [raw|e]; [|reflexivity].
  destruct (truthyMember raw); reflexivity.
Qed.

Lemma sortKeyValue_Ok sortKey a k n :
  outcome (sortKeyValue sortKey a) = Ok k ->
  exists n', sortKeyValue sortKey a n = (Ok k, n').
Proof.
  intros Hk. rewrite <- sortKeyValue_run with (n := n) in Hk.
  destruct (sortKeyValue sortKey a n) as [r n']. cbn [fst] in Hk. subst r.
  exists n'. reflexivity.
Qed.

Lemma compareItems_pure sortKey scanForward (keyOf : JsValue -> JsValue)
    (cmp : JsValue -> JsValue -> comparison) (D : JsValue -> Prop) :
  (forall a, D a -> outcome (sortKeyValue sortKey a) = Ok (keyOf a)) ->
  (forall a b, D a -> D b ->
     compareKeys scanForward (keyOf a) (keyOf b) = Ok (cmp a b)) ->
  forall a b, D a -> D b -> forall n,
  exists n', compareItems sortKey scanForward a b n = (Ok (cmp a b), n').
Proof.
  intros Hkey Hcmp a b Ha Hb n. unfold compareItems, bindC.
  destruct (sortKeyValue_Ok sortKey a _ n (Hkey a Ha)) as [n1 ->].
  destruct (sortKeyValue_Ok sortKey b _ n1 (Hkey b Hb)) as [n2 ->].
  unfold liftC. rewrite (Hcmp a b Ha Hb). eexists; reflexivity.
Qed.

Lemma probeItem_Ok sortKey a k n :
  outcome (sortKeyValue sortKey a) = Ok k ->
  exists r n', probeItem sortKey a n = (Ok r, n').
Proof.
  rewrite sortKeyValue_spec. unfold probeItem, bindC, liftC, decodeCall.
  destruct (getComputed a sortKey) as [raw|e]; [|discriminate].
  destruct (truthyMember raw).
  - intros ->. eexists _, _; reflexivity.
  - intros _. eexists _, _; reflexivity.
Qed.

Lemma forEachC_probe sortKey (keyOf : JsValue -> JsValue) (l : list JsValue) :
  Forall (fun a => outcome (sortKeyValue sortKey a) = Ok (keyOf a)) l ->
  forall n, exists n', forEachC (probeItem sortKey) l n = (Ok tt, n').
Proof.
  induction 1 as [|a l Ha _ IH]; intros n.
  - exists n. reflexivity.
  - change (forEachC (probeItem sortKey) (a :: l))
      with (bindC (probeItem sortKey a) (fun _ => forEachC (probeItem sortKey) l)).
    unfold bindC. destruct (probeItem_Ok sortKey a _ n Ha) as (r & n1 & ->).
    apply IH.
Qed.

Lemma slice_subset {A} (l : list A) start finish x :
  In x (slice l start finish) -> In x l.
Proof.
  unfold slice. rewrite <- !list_elem_of_In. intros Hx.
  eapply elem_of_sublist; [exact Hx|].
  etransitivity; [apply sublist_take | apply sublist_drop].
Qed.

Lemma defined_items sortKey (keyOf : JsValue -> JsValue) (l : list JsValue) :
  Forall (fun a => outcome (sortKeyValue sortKey a) = Ok (keyOf a)) l ->
  List.filter (fun x => negb (isUndefined x)) l = l /\ List.filter isUndefined l = [].
Proof.
  induction 1 as [|a l Ha _ [IH1 IH2]]; [split; reflexivity|].
  rewrite sortKeyValue_spec in Ha.
  destruct a; try discriminate Ha; cbn [List.filter isUndefined negb];
    rewrite IH1, IH2; split; reflexivity.
Qed.

Lemma mapC_decodeCall {A B} (g : A -> Result B) (l : list A) n :
  fst (mapC (fun item => decodeCall (g item)) l n) = mapR g l.
Proof.
  revert n. induction l as [|x l IH]; intros n; [reflexivity|].
  change (mapC (fun item => decodeCall (g item)) (x :: l))
    with (bindC (decodeCall (g x)) (fun y =>
            bindC (mapC (fun item => decodeCall (g item)) l) (fun ys => retC (y :: ys)))).
  rewrite mapR_cons. unfold bindC at 1, decodeCall at 1.
  destruct (g x) as [y|e]; [|reflexivity].
  unfold bindC. specialize (IH (S n)).
  destruct (mapC _ l (S n)) as [[ys|e] n']; cbn [fst] in IH |- *; rewrite <- IH; reflexivity.
Qed.

Lemma orderResults_sorted items pagination (keyOf : JsValue -> JsValue)
    (cmp : JsValue -> JsValue -> comparison) :
  let sortBy := optionalGet pagination "sortBy" in
  let scanForward := scanForwardOf (get pagination "sortDirection") in
  truthy sortBy = true ->
  (forall a, In a items -> outcome (sortKeyValue sortBy a) = Ok (keyOf a)) ->
  (forall a b, In a items -> In b items ->
     compareKeys scanForward (keyOf a) (keyOf b) = Ok (cmp a b)) ->
  forall n, exists n', orderResults items pagination n = (Ok (sortPure cmp items), n').
Proof.
  intros sortBy scanForward Hsort Hkey Hcmp n. unfold orderResults.
  fold sortBy scanForward. rewrite Hsort. cbv zeta.
  assert (Hall : Forall (fun a => outcome (sortKeyValue sortBy a) = Ok (keyOf a)) items).
  { apply Forall_forall. intros a Ha. apply Hkey, list_elem_of_In, Ha. }
  assert (Hprobe : Forall (fun a => outcome (sortKeyValue sortBy a) = Ok (keyOf a))
                          (slice items 0 5)).
  { apply Forall_forall. intros a Ha. apply Hkey.
    apply list_elem_of_In in Ha. exact (slice_subset _ _ _ _ Ha). }
  unfold bindC at 1. destruct (forEachC_probe sortBy keyOf _ Hprobe n) as [n1 ->].
  unfold Array_sort. destruct (defined_items sortBy keyOf items Hall) as [-> ->].
  unfold bindC.
  destruct (insertionSort_pure cmp
              (compareItems sortBy scanForward) (fun a => In a items)
              (compareItems_pure sortBy scanForward keyOf cmp _ Hkey Hcmp) items)
    with (n := n1) as [n2 ->].
  { apply Forall_forall. intros a Ha. apply list_elem_of_In, Ha. }
  rewrite app_nil_r. eexists; reflexivity.
Qed.

(** On keys that can be coerced to strings the comparator of the source
    returns what the comparator of the claim says. *)
Lemma compareKeys_keyOrder scanForward aVal bVal :
  shadowsToString aVal = false -> shadowsToString bVal = false ->
  compareKeys scanForward aVal bVal = Ok (keyOrder scanForward aVal bVal).
Proof.
  intros Ha Hb. unfold compareKeys, keyOrder, JsString.
  destruct aVal, bVal; try reflexivity;
    rewrite ?Ha, ?Hb; reflexivity.
Qed.

Lemma compareKeys_swap aVal bVal :
  compareKeys false aVal bVal = compareKeys true bVal aVal.
Proof.
  unfold compareKeys, JsString.
  destruct aVal, bVal; try reflexivity;
    repeat match goal with
           | |- context [shadowsToString ?v] =>
               destruct (shadowsToString v); cbn [mbind Result_bind]
           end; reflexivity.
Qed.

Lemma compareKeys_mixed aVal bVal :
  (forall x y, ~ (aVal = VString x /\ bVal = VString y)) ->
  (forall x y, ~ (aVal = VNumber x /\ bVal = VNumber y)) ->
  compareKeys true aVal bVal
  = (a ← JsString aVal; b ← JsString bVal; Ok (localeCompare a b)).
Proof.
  intros _ Hn. destruct aVal, bVal; try reflexivity.
  destruct (Hn n n0). split; reflexivity.
Qed.

Lemma scanForwardOf_desc d : scanForwardOf d = false <-> d = VString "desc".
Proof.
  destruct d; cbn [scanForwardOf]; try (split; discriminate).
  rewrite negb_false_iff, String.eqb_eq. split; [intros -> | intros [= ->]]; reflexivity.
Qed.

(** The key of a record: the decoded own property, the empty string when
    that property is falsy or absent, and [null] when the record has no such
    property and the name is one that it inherits. *)
Lemma sortKeyValue_record sortBy props key :
  outcome (sortKeyValue sortBy (VObject props)) = Ok key ->
  JsString sortBy = Ok (ToString sortBy)
  /\ match lookupOwn (ToString sortBy) props with
     | Some raw => if truthy raw then fromDynamoDBValue raw = Ok key
                   else key = VString EmptyString
     | None => key = if arrayIncludes objectPrototypeNames (ToString sortBy)
                     then VNull else VString EmptyString
     end.
Proof.
  rewrite sortKeyValue_spec. unfold getComputed, JsString.
  destruct (shadowsToString sortBy); [discriminate|].
  cbn [mbind Result_bind]. unfold mbind, Result_bind, memberOf.
  split; [reflexivity|].
  destruct (lookupOwn (ToString sortBy) props) as [raw|].
  - cbn [truthyMember decodeMember] in *. destruct (truthy raw); congruence.
  - destruct (arrayIncludes objectPrototypeNames (ToString sortBy));
      cbn [truthyMember decodeMember truthy] in *; congruence.
Qed.

(** C7, as amended: when [sortBy] is set, the raw items are records whose
    keys decode, every key can be coerced to a string, and the comparator is
    consistent on the items, the sequence held by [results] before slicing
    is a permutation of the raw items that is sorted by the comparator and
    keeps items with equal keys in their original order; the page returned
    is the decoded slice of that sequence.  The key of an item is the
    decoded value of its [sortBy] field, the empty string when the field is
    falsy or absent, and [null] when it is absent under a name that every
    object inherits; two strings are compared by [localeCompare], two
    numbers by the sign of their difference, any other pair by
    [localeCompare] of their string forms; the order is ascending unless
    [sortDirection] is ["desc"], which swaps the arguments.  A mapping
    decoded from one with a [__proto__] entry has lost the prototype that
    coerces it, and is left out. *)
Theorem C7_results_stably_sorted_by_key
    (items : list JsValue) (pagination : JsValue) (keyOf : JsValue -> JsValue) :
  let sortBy := optionalGet pagination "sortBy" in
  let scanForward := scanForwardOf (get pagination "sortDirection") in
  let cmp := itemOrder scanForward keyOf in
  truthy sortBy = true ->
  (forall a, In a items -> isRecord a = true) ->
  (forall a, In a items -> outcome (sortKeyValue sortBy a) = Ok (keyOf a)) ->
  (forall a, In a items ->
     shadowsToString (keyOf a) = false /\ noProtoKey (get a (ToString sortBy))) ->
  consistentOn cmp (fun a => In a items) ->
  (exists sorted,
     outcome (orderResults items pagination) = Ok sorted
     /\ Permutation items sorted
     /\ StronglySorted (precedes cmp) sorted
     /\ (forall a, In a items ->
           List.filter (sameKey cmp a) sorted = List.filter (sameKey cmp a) items)
     /\ (forall limit offset,
           limit <> 0 -> offset < Z.of_nat (length items) ->
           outcome (processResults items limit offset pagination)
           = mapR mapDynamoDBItemToType (slice sorted offset (offset + limit))))
  /\ (forall props, In (VObject props) items ->
        match lookupOwn (ToString sortBy) props with
        | Some raw => if truthy raw then fromDynamoDBValue raw = Ok (keyOf (VObject props))
                      else keyOf (VObject props) = VString EmptyString
        | None => keyOf (VObject props)
                  = if arrayIncludes objectPrototypeNames (ToString sortBy)
                    then VNull else VString EmptyString
        end)
  /\ (forall a b, In a items -> In b items ->
        compareKeys scanForward (keyOf a) (keyOf b) = Ok (cmp a b))
  /\ (forall x y, compareKeys true (VString x) (VString y) = Ok (localeCompare x y))
  /\ (forall x y, compareKeys true (VNumber x) (VNumber y) = Ok (number_subSign x y))
  /\ (forall aVal bVal,
        (forall x y, ~ (aVal = VString x /\ bVal = VString y)) ->
        (forall x y, ~ (aVal = VNumber x /\ bVal = VNumber y)) ->
        compareKeys true aVal bVal
        = (a ← JsString aVal; b ← JsString bVal; Ok (localeCompare a b)))
  /\ (forall aVal bVal, compareKeys false aVal bVal = compareKeys true bVal aVal)
  /\ (scanForward = false <-> get pagination "sortDirection" = VString "desc").
Proof.
  intros sortBy scanForward cmp Hsort _ Hkey Hcoerce Hcons.
  assert (Hall : Forall (fun a => In a items) items).
  { apply Forall_forall. intros a Ha. apply list_elem_of_In, Ha. }
  assert (Hcmp : forall a b, In a items -> In b items ->
                   compareKeys scanForward (keyOf a) (keyOf b) = Ok (cmp a b)).
  { intros a b Ha Hb. apply compareKeys_keyOrder; [apply Hcoerce, Ha | apply Hcoerce, Hb]. }
  split; [|split; [|split; [|split; [|split; [|split; [|split]]]]]].
  - exists (sortPure cmp items).
    destruct (orderResults_sorted items pagination keyOf cmp Hsort Hkey Hcmp 0%nat)
      as [n' Hrun].
    split; [unfold outcome; rewrite Hrun; reflexivity|].
    split; [apply sortPure_Permutation|].
    split; [exact (sortPure_sorted cmp _ Hcons items Hall)|].
    split; [intros a Ha; exact (sortPure_stable cmp _ Hcons a items Ha Hall)|].
    intros limit offset Hlimit Hoffset. unfold outcome, processResults.
    destruct (Z.eqb_spec limit 0) as [|_]; [contradiction|].
    destruct (Z.geb_spec offset (Z.of_nat (length items))) as [|_]; [lia|].
    unfold bindC. rewrite Hrun. apply mapC_decodeCall.
  - intros props Ha. exact (proj2 (sortKeyValue_record _ _ _ (Hkey _ Ha))).
  - exact Hcmp.
  - reflexivity.
  - reflexivity.
  - exact compareKeys_mixed.
  - exact compareKeys_swap.
  - apply scanForwardOf_desc.
Qed.

End Ordering.

(* ===================================================================== *)
(** ** Further properties of the validator, the codec, the builder and
       the service                                                        *)
(* ===================================================================== *)

Section ValidatorFacts.
Context `{Numbers}.

Lemma forEachM_Ok {A} (f : A -> Result unit) (l : list A) :
  forEachM f l = Ok tt <-> Forall (fun x => f x = Ok tt) l.
Proof.
  induction l as [|x l IH]; cbn [forEachM].
  - split; [constructor | reflexivity].
  - rewrite Forall_cons, <- IH. destruct (f x) as [[]|e].
    + tauto.
    + split; [discriminate | intros [? _]; discriminate].
Qed.

Lemma forEachM_Throw {A} (f : A -> Result unit) (l : list A) e :
  forEachM f l = Throw e <->
  exists pre x post, l = pre ++ x :: post
                     /\ Forall (fun y => f y = Ok tt) pre /\ f x = Throw e.
Proof.
  induction l as [|x l IH]; cbn [forEachM].
  - split; [discriminate|]. intros (pre & y & post & Hl & _). destruct pre; discriminate.
  - destruct (f x) as [[]|e'] eqn:Hx.
    + rewrite IH. split.
      * intros (pre & y & post & -> & Hpre & Hy).
        exists (x :: pre), y, post. repeat split; [|exact Hy].
        constructor; assumption.
      * intros (pre & y & post & Hl & Hpre & Hy). destruct pre as [|p pre].
        -- injection Hl as -> ->. congruence.
        -- injection Hl as -> ->. inversion Hpre; subst.
           exists pre, y, post. repeat split; assumption.
    + split.
      * intros [= ->]. exists [], x, l. repeat split; [constructor | exact Hx].
      * intros (pre & y & post & Hl & Hpre & Hy). destruct pre as [|p pre].
        -- injection Hl as -> ->. congruence.
        -- injection Hl as -> ->. inversion Hpre; subst. congruence.
Qed.

Lemma validateFieldPart_Ok part : validateFieldPart part = Ok tt <-> validSegment part.
Proof.
  unfold validateFieldPart, validSegment, strlen, MAX_FIELD_LENGTH.
  destruct (Z.gtb_spec (Z.of_nat (String.length part)) 255) as [Hgt|Hle].
  - split; [discriminate | intros [Hlen _]; lia].
  - destruct (VALID_FIELD_REGEX_test part); cbn [negb].
    + split; [intros _; split; [lia | reflexivity] | reflexivity].
    + split; [discriminate | intros [_ Hre]; discriminate].
Qed.

Lemma validateFieldPart_error part e :
  validateFieldPart part = Throw e -> exists message, e = DynamoValidationError message.
Proof.
  unfold validateFieldPart. destruct (_ >? _); [intros [= <-]; eexists; reflexivity|].
  destruct (negb _); [intros [= <-]; eexists; reflexivity | discriminate].
Qed.

Lemma validateFieldName_Ok field :
  validateFieldName field = Ok tt <->
  field <> EmptyString /\ ~ containsUnsafePattern field
  /\ (length (split "." field) <= 20)%nat /\ Forall validSegment (split "." field).
Proof.
  unfold validateFieldName, MAX_FIELD_DEPTH.
  destruct (String.eqb_spec field EmptyString) as [Hempty|Hne].
  { split; [discriminate | tauto]. }
  destruct (some _ UNSAFE_PATTERNS) eqn:Hscan.
  { apply unsafe_scan_spec in Hscan. split; [discriminate | tauto]. }
  assert (Hsafe : ~ containsUnsafePattern field).
  { intros Hc. apply unsafe_scan_spec in Hc. congruence. }
  cbv zeta. destruct (Z.gtb_spec (Z.of_nat (length (split "." field))) 20) as [Hgt|Hle].
  { split; [discriminate | intros (_ & _ & Hlen & _); lia]. }
  rewrite forEachM_Ok. split.
  - intros Hall. repeat split; try assumption; [lia|].
    eapply Forall_impl; [exact Hall|]. intros part. apply validateFieldPart_Ok.
  - intros (_ & _ & _ & Hall).
    eapply Forall_impl; [exact Hall|]. intros part. apply validateFieldPart_Ok.
Qed.

Lemma validateFieldName_error field e :
  validateFieldName field = Throw e -> exists message, e = DynamoValidationError message.
Proof.
  unfold validateFieldName.
  destruct (String.eqb field EmptyString); [intros [= <-]; eexists; reflexivity|].
  destruct (some _ UNSAFE_PATTERNS); [intros [= <-]; eexists; reflexivity|].
  cbv zeta. destruct (_ >? _); [intros [= <-]; eexists; reflexivity|].
  intros (pre & x & post & _ & _ & Hx)%forEachM_Throw.
  exact (validateFieldPart_error _ _ Hx).
Qed.

(** X1: [validateFieldName] returns normally exactly for the non-empty
    strings that contain no deny-list token (up to case) and that split at
    the dots into at most 20 segments, each of at most 255 characters and
    matching [^[a-zA-Z][a-zA-Z0-9_]*$]; every other string makes it throw,
    and what it throws is always a [DynamoValidationError]. *)
Theorem X1_validateFieldName_accepts_exactly (field : string) :
  (validateFieldName field = Ok tt <->
   field <> EmptyString /\ ~ containsUnsafePattern field
   /\ (length (split "." field) <= 20)%nat /\ Forall validSegment (split "." field))
  /\ (forall e, validateFieldName field = Throw e ->
        exists message, e = DynamoValidationError message).
Proof.
  split; [apply validateFieldName_Ok | apply validateFieldName_error].
Qed.

(** *** [JSON.stringify] keeps the deny-list tokens readable *)

Lemma escapeString_app a b :
  escapeString (a +:+ b) = escapeString a +:+ escapeString b.
Proof.
  induction a as [|c a IH]; [reflexivity|].
  rewrite append_cons. cbn [escapeString]. rewrite IH, append_assoc. reflexivity.
Qed.

Lemma escapeChar_tokenChar c :
  tokenChar (toLowerCaseChar c) = true -> escapeChar c = String c EmptyString.
Proof.
  destruct c as [[] [] [] [] [] [] [] []]; vm_compute; intros Hc;
    first [reflexivity | discriminate Hc].
Qed.

Lemma escapeString_token mid :
  allChars tokenChar (toLowerCase mid) = true -> escapeString mid = mid.
Proof.
  induction mid as [|c mid IH]; [reflexivity|].
  cbn [toLowerCase allChars escapeString]. intros [Hc Hmid]%andb_true_iff.
  rewrite (escapeChar_tokenChar c Hc), IH by exact Hmid. reflexivity.
Qed.

Lemma dangerousPatterns_tokenChars token :
  In token dangerousPatterns -> allChars tokenChar (toLowerCase token) = true.
Proof.
  revert token. apply (proj1 (List.Forall_forall _ _)). unfold dangerousPatterns.
  repeat (constructor; [reflexivity|]). constructor.
Qed.

Lemma dangerousToken_wrap a s b : dangerousToken s -> dangerousToken (a +:+ s +:+ b).
Proof.
  intros (token & Hin & pre & mid & post & -> & Hmid).
  exists token. split; [exact Hin|].
  exists (a +:+ pre), mid, (post +:+ b). split; [|exact Hmid].
  rewrite !append_assoc. reflexivity.
Qed.

Lemma dangerousToken_app_r a s : dangerousToken s -> dangerousToken (a +:+ s).
Proof.
  intros Hs. pose proof (dangerousToken_wrap a s EmptyString Hs) as Hw.
  rewrite append_nil_r in Hw. exact Hw.
Qed.

Lemma dangerousToken_app_l s b : dangerousToken s -> dangerousToken (s +:+ b).
Proof. exact (dangerousToken_wrap EmptyString s b). Qed.

Lemma dangerousToken_quote s : dangerousToken s -> dangerousToken (quoteJSONString s).
Proof.
  intros (token & Hin & pre & mid & post & -> & Hmid).
  unfold quoteJSONString. rewrite !escapeString_app.
  rewrite (escapeString_token mid)
    by (rewrite Hmid; apply dangerousPatterns_tokenChars, Hin).
  apply dangerousToken_wrap. exists token. split; [exact Hin|].
  exists (escapeString pre), mid, (escapeString post). split; [reflexivity | exact Hmid].
Qed.

Lemma join_cons sep x y (l : list string) :
  join sep (x :: y :: l) = x +:+ sep +:+ join sep (y :: l).
Proof. reflexivity. Qed.

Lemma dangerousToken_join sep (l : list string) x :
  In x l -> dangerousToken x -> dangerousToken (join sep l).
Proof.
  intros Hin Hx. induction l as [|y l IH]; [destruct Hin|].
  destruct l as [|z l].
  - destruct Hin as [->|[]]. exact Hx.
  - rewrite join_cons. destruct Hin as [->|Hin].
    + apply dangerousToken_app_l. exact Hx.
    + do 2 apply dangerousToken_app_r. apply IH, Hin.
Qed.

Lemma JSON_stringify_defined v :
  v <> VUndefined -> exists s, JSON_stringify v = Some s.
Proof. destruct v; [congruence | eexists; reflexivity..]. Qed.

Lemma dangerous_scan_spec s :
  some (fun pattern => includes (toLowerCase s) (toLowerCase pattern))
       dangerousPatterns = true
  <-> dangerousToken s.
Proof.
  unfold some, dangerousToken. rewrite existsb_exists.
  split; intros (token & Hin & Hocc); exists token; (split; [exact Hin|]);
    apply occursIgnoringCase_includes; exact Hocc.
Qed.

Lemma mentions_array P l :
  mentions P (VArray l) <-> Exists (mentions P) l.
Proof.
  cbn [mentions]. induction l as [|x l IH]; cbn [foldr].
  - rewrite Exists_nil. reflexivity.
  - rewrite Exists_cons, IH. reflexivity.
Qed.

Lemma mentions_object P props :
  mentions P (VObject props)
  <-> Exists (fun kv => snd kv <> VUndefined /\ (P (fst kv) \/ mentions P (snd kv))) props.
Proof.
  cbn [mentions]. induction props as [|[k x] props IH]; cbn [foldr].
  - rewrite Exists_nil. reflexivity.
  - rewrite Exists_cons, IH. reflexivity.
Qed.

Lemma JSON_stringify_array l :
  JSON_stringify (VArray l)
  = Some ("[" +:+ join "," (map (fun x => default "null" (JSON_stringify x)) l) +:+ "]").
Proof. reflexivity. Qed.

Lemma JSON_stringify_object props :
  JSON_stringify (VObject props)
  = Some ("{" +:+
          join "," (omap (fun '(k, x) =>
                            match JSON_stringify x with
                            | Some sx => Some (quoteJSONString k +:+ ":" +:+ sx)
                            | None => None
                            end) props)
          +:+ "}").
Proof. reflexivity. Qed.

Lemma JSON_stringify_mentions v :
  mentions dangerousToken v ->
  exists s, JSON_stringify v = Some s /\ dangerousToken s.
Proof.
  induction v as [| |b|n|s|l IH|props IH] using JsValue_nested_ind;
    try (intros Hm; exact (False_ind _ Hm)).
  - intros Hs. eexists. split; [reflexivity|]. apply dangerousToken_quote, Hs.
  - intros (x & Hin & Hx)%mentions_array%Exists_exists.
    rewrite Forall_forall in IH. destruct (IH x Hin Hx) as (sx & Hsx & Hd).
    rewrite JSON_stringify_array. eexists. split; [reflexivity|].
    apply dangerousToken_wrap.
    apply (dangerousToken_join _ _ sx); [|exact Hd].
    apply in_map_iff. exists x. split; [cbv beta; rewrite Hsx; reflexivity|].
    apply list_elem_of_In, Hin.
  - intros ([k x] & Hin & Hdef & Hx)%mentions_object%Exists_exists.
    cbn [fst snd] in Hdef, Hx. rewrite Forall_forall in IH.
    destruct (JSON_stringify_defined x Hdef) as [sx Hsx].
    rewrite JSON_stringify_object. eexists. split; [reflexivity|].
    apply dangerousToken_wrap.
    apply (dangerousToken_join _ _ (quoteJSONString k +:+ ":" +:+ sx)).
    + apply list_elem_of_In, list_elem_of_omap. exists (k, x).
      split; [exact Hin|]. rewrite Hsx. reflexivity.
    + destruct Hx as [Hk|Hx].
      * apply dangerousToken_app_l, dangerousToken_quote, Hk.
      * destruct (IH (k, x) Hin Hx) as (sx' & Hsx' & Hd).
        cbn [snd] in Hsx'. rewrite Hsx in Hsx'. injection Hsx' as <-.
        do 2 apply dangerousToken_app_r. exact Hd.
Qed.

Lemma validateValue_eq value :
  validateValue value =
  match value with
  | VUndefined | VNull =>
      Throw (DynamoValidationError "Value cannot be null or undefined")
  | _ =>
      match JSON_stringify value with
      | None => Throw TypeError
      | Some stringified =>
          if some (fun pattern =>
                     includes (toLowerCase stringified) (toLowerCase pattern))
                  dangerousPatterns
          then Throw injectionDetected
          else if (match value with
                   | VString s => strlen s >? MAX_VALUE_LENGTH
                   | _ => false
                   end)
          then Throw (DynamoValidationError "Value length exceeds maximum of 400000")
          else
            match value with
            | VArray l =>
                match l with
                | [] => Throw (DynamoValidationError "Empty arrays not supported")
                | _ => forEachM validateValue l
                end
            | VObject props =>
                let propsToCheck := map fst props ++ map fst props in
                if some (fun prop => arrayIncludes dangerousPatterns prop) propsToCheck
                then Throw injectionDetected
                else forEachM (fun '(_, x) => validateValue x) props
            | _ => Ok tt
            end
      end
  end.
Proof. destruct value; reflexivity. Qed.

(** X2: a value in which a deny-list token of [validateValue] occurs, up to
    case, in a string at any depth or in the key of a nested mapping (whose
    value is not [undefined]) is rejected with the error [Potential NoSQL
    injection detected]. *)
Theorem X2_validateValue_rejects_tokens_at_any_depth (v : JsValue) :
  mentions dangerousToken v -> validateValue v = Throw injectionDetected.
Proof.
  intros Hm. destruct (JSON_stringify_mentions v Hm) as (s & Hs & Hd).
  rewrite validateValue_eq, Hs. apply dangerous_scan_spec in Hd. rewrite Hd.
  destruct v; try reflexivity; destruct Hm.
Qed.

End ValidatorFacts.

Section CodecCoverage.
Context `{Numbers}.

Lemma allValues_impl (P Q : JsValue -> Prop) v :
  (forall u, P u -> Q u) -> allValues P v -> allValues Q v.
Proof.
  intros HPQ. induction v as [| |b|n|s|l IH|props IH] using JsValue_nested_ind;
    try (cbn [allValues]; intros [Hv _]; split; [apply HPQ, Hv | exact I]).
  - rewrite !allValues_array. intros [Hv Hl]. split; [apply HPQ, Hv|].
    rewrite Forall_forall in IH, Hl |- *. intros x Hx. apply IH; auto.
  - rewrite !allValues_object. intros [Hv Hl]. split; [apply HPQ, Hv|].
    rewrite Forall_forall in IH, Hl |- *. intros x Hx. apply IH; auto.
Qed.

Lemma allValues_conj (P Q : JsValue -> Prop) v :
  allValues P v -> allValues Q v -> allValues (fun u => P u /\ Q u) v.
Proof.
  induction v as [| |b|n|s|l IH|props IH] using JsValue_nested_ind;
    try (cbn [allValues]; tauto).
  - rewrite !allValues_array. intros [Hp Hpl] [Hq Hql]. split; [tauto|].
    rewrite Forall_forall in IH, Hpl, Hql |- *. intros x Hx. apply IH; auto.
  - rewrite !allValues_object. intros [Hp Hpl] [Hq Hql]. split; [tauto|].
    rewrite Forall_forall in IH, Hpl, Hql |- *. intros x Hx. apply IH; auto.
Qed.

Lemma typeof_string v : typeof v = "string" -> exists s, v = VString s.
Proof. destruct v; try discriminate. eexists; reflexivity. Qed.

Lemma typeof_number v : typeof v = "number" -> exists n, v = VNumber n.
Proof. destruct v; try discriminate. eexists; reflexivity. Qed.

Lemma Forall2_In_l {A B} {R : A -> B -> Prop} {l k} :
  Forall2 R l k -> forall x, In x l -> exists y, In y k /\ R x y.
Proof.
  induction 1 as [|a b l k Hab _ IH]; intros x; [intros []|].
  intros [<-|Hx].
  - exists b. split; [left; reflexivity | exact Hab].
  - destruct (IH x Hx) as (y & Hy & Hxy). exists y. split; [right; exact Hy | exact Hxy].
Qed.

Lemma Forall2_In_r {A B} {R : A -> B -> Prop} {l k} :
  Forall2 R l k -> forall y, In y k -> exists x, In x l /\ R x y.
Proof.
  induction 1 as [|a b l k Hab _ IH]; intros y; [intros []|].
  intros [<-|Hy].
  - exists a. split; [left; reflexivity | exact Hab].
  - destruct (IH y Hy) as (x & Hx & Hxy). exists x. split; [right; exact Hx | exact Hxy].
Qed.

Lemma mapR_Ok {A B} (f : A -> Result B) (l : list A) ys :
  mapR f l = Ok ys <-> Forall2 (fun x y => f x = Ok y) l ys.
Proof.
  revert ys. induction l as [|x l IH]; intros ys.
  - cbn. split; [intros [= <-]; constructor | intros Hf; inversion Hf; reflexivity].
  - rewrite mapR_cons. split.
    + destruct (f x) as [y|e] eqn:Hx; [|discriminate].
      destruct (mapR f l) as [ys'|e]; [|discriminate].
      intros [= <-]. constructor; [exact Hx | apply IH; reflexivity].
    + intros Hf. inversion Hf as [|? y ? ys' Hx Hrest]; subst.
      rewrite Hx. apply IH in Hrest. rewrite Hrest. reflexivity.
Qed.

Lemma mapR_Throw {A B} (f : A -> Result B) (l : list A) e :
  mapR f l = Throw e -> exists x, In x l /\ f x = Throw e.
Proof.
  induction l as [|x l IH]; [discriminate|]. rewrite mapR_cons.
  destruct (f x) as [y|e'] eqn:Hx.
  - destruct (mapR f l) as [ys|e']; [discriminate|]. intros [= ->].
    destruct (IH eq_refl) as (z & Hz & Hfz). exists z. split; [right; exact Hz | exact Hfz].
  - intros [= ->]. exists x. split; [left; reflexivity | exact Hx].
Qed.

Lemma mapR_all_Ok {A B} (f : A -> Result B) (l : list A) :
  Forall (fun x => exists y, f x = Ok y) l -> exists ys, mapR f l = Ok ys.
Proof.
  induction 1 as [|x l [y Hx] _ [ys Hys]].
  - exists []. reflexivity.
  - exists (y :: ys). rewrite mapR_cons, Hx, Hys. reflexivity.
Qed.

(** The loop of the object case of [toDynamoDBValue]. *)
Lemma encode_fold_Ok props :
  Forall (fun kv => exists x, toDynamoDBValue (snd kv) = Ok x) props ->
  forall acc, exists mapVal,
    foldlM (fun mapVal '(k, v) =>
              match toDynamoDBValue v with
              | Ok x => Ok (setProp mapVal k x)
              | Throw e => Throw e
              end) acc props = Ok mapVal.
Proof.
  induction 1 as [|[k v] props [x Hx] _ IH]; intros acc.
  - exists acc. reflexivity.
  - rewrite foldlM_cons. cbn [snd] in Hx. rewrite Hx. apply IH.
Qed.

Lemma encode_fold_inv props :
  forall acc mapVal,
  foldlM (fun mapVal '(k, v) =>
            match toDynamoDBValue v with
            | Ok x => Ok (setProp mapVal k x)
            | Throw e => Throw e
            end) acc props = Ok mapVal ->
  Forall (fun kv => exists x, toDynamoDBValue (snd kv) = Ok x) props.
Proof.
  induction props as [|[k v] props IH]; intros acc mapVal; [constructor|].
  rewrite foldlM_cons. destruct (toDynamoDBValue v) as [x|e] eqn:Hx; [|discriminate].
  intros Hfold. constructor; [exists x; exact Hx | exact (IH _ _ Hfold)].
Qed.

Lemma encode_fold_Throw props :
  forall acc e,
  foldlM (fun mapVal '(k, v) =>
            match toDynamoDBValue v with
            | Ok x => Ok (setProp mapVal k x)
            | Throw e => Throw e
            end) acc props = Throw e ->
  exists kv, In kv props /\ toDynamoDBValue (snd kv) = Throw e.
Proof.
  induction props as [|[k v] props IH]; intros acc e; [discriminate|].
  rewrite foldlM_cons. destruct (toDynamoDBValue v) as [x|e'] eqn:Hx.
  - intros Hfold. destruct (IH _ _ Hfold) as (kv & Hin & Hkv).
    exists kv. split; [right; exact Hin | exact Hkv].
  - intros [= ->]. exists (k, v). split; [left; reflexivity | exact Hx].
Qed.

Lemma replaceProp_values (Q : JsValue -> Prop) k x props :
  Q x -> Forall (fun kv => Q (snd kv)) props ->
  Forall (fun kv => Q (snd kv)) (replaceProp k x props).
Proof.
  intros Hx. induction 1 as [|[k' y] props Hy Hrest IH]; cbn [replaceProp].
  - constructor; [exact Hx | constructor].
  - destruct (String.eqb k k'); constructor; assumption.
Qed.

Lemma setProp_values (Q : JsValue -> Prop) k x props :
  Q x -> Forall (fun kv => Q (snd kv)) props ->
  Forall (fun kv => Q (snd kv)) (setProp props k x).
Proof.
  intros Hx Hprops. unfold setProp.
  destruct (String.eqb k "__proto__"); [exact Hprops | apply replaceProp_values; assumption].
Qed.

Lemma encode_fold_values (Q : JsValue -> Prop) props :
  Forall (fun kv => forall x, toDynamoDBValue (snd kv) = Ok x -> Q x) props ->
  forall acc mapVal,
  Forall (fun kv => Q (snd kv)) acc ->
  foldlM (fun mapVal '(k, v) =>
            match toDynamoDBValue v with
            | Ok x => Ok (setProp mapVal k x)
            | Throw e => Throw e
            end) acc props = Ok mapVal ->
  Forall (fun kv => Q (snd kv)) mapVal.
Proof.
  induction 1 as [|[k v] props Hv _ IH]; intros acc mapVal Hacc.
  - intros [= <-]. exact Hacc.
  - rewrite foldlM_cons. cbn [snd] in Hv.
    destruct (toDynamoDBValue v) as [x|e]; [|discriminate].
    apply IH, setProp_values; [apply Hv; reflexivity | exact Hacc].
Qed.

Lemma toDynamoDBValue_charted v :
  ((exists x, toDynamoDBValue v = Ok x) <-> Encodable v)
  /\ (forall e, toDynamoDBValue v = Throw e ->
        exists message, e = DynamoValidationError message).
Proof.
  unfold Encodable.
  induction v as [| |b|n|s|l IH|props IH] using JsValue_nested_ind.
  - split; [split; [intros [x Hx]; discriminate | intros [[] _]]|].
    intros e [= <-]. eexists; reflexivity.
  - split; [split; [intros [x Hx]; discriminate | intros [[] _]]|].
    intros e [= <-]. eexists; reflexivity.
  - split; [split; [intros _; cbn; tauto | intros _; eexists; reflexivity]|].
    discriminate.
  - split; [split; [intros _; cbn; tauto | intros _; eexists; reflexivity]|].
    discriminate.
  - split; [split; [intros _; cbn; tauto | intros _; eexists; reflexivity]|].
    discriminate.
  - rewrite allValues_array, toDynamoDBValue_array.
    destruct l as [|first rest].
    { split; [split; [intros [x Hx]; discriminate | intros [Hne _]; destruct Hne; reflexivity]|].
      intros e [= <-]. eexists; reflexivity. }
    cbv zeta. set (l := first :: rest) in *.
    assert (Hne : encodableShape (VArray l)) by discriminate.
    destruct (every _ l) eqn:Hsame; cbn [andb].
    + apply every_typeof in Hsame.
      destruct (String.eqb_spec (typeof first) "string") as [Hstr|_].
      { split; [|discriminate]. split; [|intros _; eexists; reflexivity].
        intros _. split; [exact Hne|]. rewrite Hstr in Hsame.
        eapply Forall_impl; [exact Hsame|]. intros v [s ->]%typeof_string. cbn. tauto. }
      destruct (String.eqb_spec (typeof first) "number") as [Hnum|_].
      { split; [|discriminate]. split; [|intros _; eexists; reflexivity].
        intros _. split; [exact Hne|]. rewrite Hnum in Hsame.
        eapply Forall_impl; [exact Hsame|]. intros v [n ->]%typeof_number. cbn. tauto. }
      clear Hsame. split.
      * split.
        -- intros [x Hx]. split; [exact Hne|].
           destruct (mapR toDynamoDBValue l) as [ys|e] eqn:Hmap; [|discriminate].
           apply mapR_Ok in Hmap. rewrite Forall_forall in IH |- *. intros v Hv.
           apply list_elem_of_In in Hv as Hin.
           destruct (Forall2_In_l Hmap v Hin) as (y & _ & Hy).
           apply (IH v Hv). exists y. exact Hy.
        -- intros [_ Hall]. destruct (mapR_all_Ok toDynamoDBValue l) as [ys ->].
           { rewrite Forall_forall in IH, Hall |- *. intros v Hv.
             apply (IH v Hv), Hall, Hv. }
           eexists; reflexivity.
      * intros e. destruct (mapR toDynamoDBValue l) as [ys|e'] eqn:Hmap; [discriminate|].
        intros [= ->]. apply mapR_Throw in Hmap as (v & Hv & Hthrow).
        rewrite Forall_forall in IH. exact (proj2 (IH v (proj2 (list_elem_of_In _ _) Hv)) e Hthrow).
    + split.
      * split.
        -- intros [x Hx]. split; [exact Hne|].
           destruct (mapR toDynamoDBValue l) as [ys|e] eqn:Hmap; [|discriminate].
           apply mapR_Ok in Hmap. rewrite Forall_forall in IH |- *. intros v Hv.
           apply list_elem_of_In in Hv as Hin.
           destruct (Forall2_In_l Hmap v Hin) as (y & _ & Hy).
           apply (IH v Hv). exists y. exact Hy.
        -- intros [_ Hall]. destruct (mapR_all_Ok toDynamoDBValue l) as [ys ->].
           { rewrite Forall_forall in IH, Hall |- *. intros v Hv.
             apply (IH v Hv), Hall, Hv. }
           eexists; reflexivity.
      * intros e. destruct (mapR toDynamoDBValue l) as [ys|e'] eqn:Hmap; [discriminate|].
        intros [= ->]. apply mapR_Throw in Hmap as (v & Hv & Hthrow).
        rewrite Forall_forall in IH. exact (proj2 (IH v (proj2 (list_elem_of_In _ _) Hv)) e Hthrow).
  - rewrite allValues_object, toDynamoDBValue_object. split.
    + split.
      * intros [x Hx]. split; [exact I|].
        destruct (foldlM _ [] props) as [mapVal|e] eqn:Hfold; [|discriminate].
        apply encode_fold_inv in Hfold.
        rewrite Forall_forall in IH, Hfold |- *. intros kv Hkv.
        apply (IH kv Hkv), Hfold, Hkv.
      * intros [_ Hall]. destruct (encode_fold_Ok props) with (acc := @nil (string * JsValue))
          as [mapVal ->].
        { rewrite Forall_forall in IH, Hall |- *. intros kv Hkv.
          apply (IH kv Hkv), Hall, Hkv. }
        eexists; reflexivity.
    + intros e. destruct (foldlM _ [] props) as [mapVal|e'] eqn:Hfold; [discriminate|].
      intros [= ->]. apply encode_fold_Throw in Hfold as (kv & Hkv & Hthrow).
      rewrite Forall_forall in IH.
      exact (proj2 (IH kv (proj2 (list_elem_of_In _ _) Hkv)) e Hthrow).
Qed.

(** X5: [toDynamoDBValue] returns a typed value exactly for the values that
    contain, at any depth, neither [null] nor [undefined] nor an empty
    array; on every other value it throws, and what it throws is always a
    [DynamoValidationError]. *)
Theorem X5_toDynamoDBValue_encodes_exactly (v : JsValue) :
  ((exists x, toDynamoDBValue v = Ok x) <-> Encodable v)
  /\ (forall e, toDynamoDBValue v = Throw e ->
        exists message, e = DynamoValidationError message).
Proof.
  destruct (toDynamoDBValue_charted v) as [Hok Herr]. split.
  - split; [intros Hx; apply Hok, Hx | intros Hv; apply Hok, Hv].
  - intros e He. exact (Herr e He).
Qed.

Lemma toDynamoDBValue_wellShaped v :
  forall x, toDynamoDBValue v = Ok x -> wellShaped x = true.
Proof.
  induction v as [| |b|n|s|l IH|props IH] using JsValue_nested_ind; intros x.
  - discriminate.
  - discriminate.
  - intros [= <-]. reflexivity.
  - intros [= <-]. reflexivity.
  - intros [= <-]. reflexivity.
  - rewrite toDynamoDBValue_array. destruct l as [|first rest]; [discriminate|].
    cbv zeta. set (l := first :: rest) in *.
    destruct (_ && _); [intros [= <-]; reflexivity|].
    destruct (_ && _).
    { intros [= <-]. unfold tagged. rewrite wellShaped_object. cbn [forallb].
      change (String.eqb "NS" "N") with false.
      change (String.eqb "NS" "NS") with true.
      cbv iota. rewrite andb_true_r. apply forallb_forall. intros y Hy.
      apply in_map_iff in Hy as (n & <- & _). reflexivity. }
    destruct (mapR toDynamoDBValue l) as [ys|e] eqn:Hmap; [|discriminate].
    intros [= <-]. apply mapR_Ok in Hmap.
    unfold tagged. rewrite wellShaped_object. cbn [forallb].
    change (String.eqb "L" "N") with false.
    change (String.eqb "L" "NS") with false. change (String.eqb "L" "L") with true.
    cbv iota. rewrite andb_true_r. apply forallb_forall. intros y Hy.
    destruct (Forall2_In_r Hmap y Hy) as (v & Hv & Hvy).
    rewrite Forall_forall in IH. exact (IH v (proj2 (list_elem_of_In _ _) Hv) y Hvy).
  - rewrite toDynamoDBValue_object.
    destruct (foldlM _ [] props) as [mapVal|e] eqn:Hfold; [|discriminate].
    intros [= <-]. unfold tagged. rewrite wellShaped_object. cbn [forallb].
    change (String.eqb "M" "N") with false.
    change (String.eqb "M" "NS") with false. change (String.eqb "M" "L") with false.
    change (String.eqb "M" "M") with true. cbv iota. rewrite andb_true_r.
    cbn [wellShapedItem]. apply forallb_forall. intros [k y] Hy.
    assert (Hall : Forall (fun kv => wellShaped (snd kv) = true) mapVal).
    { apply (encode_fold_values (fun y => wellShaped y = true) props) with (acc := []);
        [|constructor | exact Hfold].
      rewrite Forall_forall in IH |- *. intros kv Hkv. apply (IH kv Hkv). }
    rewrite Forall_forall in Hall.
    pose proof (Hall (k, y) (proj2 (list_elem_of_In _ _) Hy)) as Hy'.
    cbn [snd] in Hy'. rewrite Hy'. apply orb_true_r.
Qed.

(** X6: whatever [toDynamoDBValue] returns, [fromDynamoDBValue] decodes
    without throwing: the encoder only produces well-shaped typed values. *)
Theorem X6_encoded_values_always_decode (v x : JsValue) :
  toDynamoDBValue v = Ok x ->
  wellShaped x = true /\ exists r, fromDynamoDBValue x = Ok r.
Proof.
  intros Hx. pose proof (toDynamoDBValue_wellShaped v x Hx) as Hshape.
  split; [exact Hshape|].
  destruct (decodesSafely_all x) as (Hdec & _). exact (Hdec Hshape).
Qed.

(** *** What [validateValue] lets through *)

Lemma validateValue_Ok_inv v :
  validateValue v = Ok tt ->
  encodableShape v /\ plainKeys v /\ shortString v
  /\ match v with
     | VArray l => Forall (fun x => validateValue x = Ok tt) l
     | VObject props => Forall (fun kv => validateValue (snd kv) = Ok tt) props
     | _ => True
     end.
Proof.
  rewrite validateValue_eq. destruct v as [| |b|n|s|l|props]; try discriminate.
  - intros _. cbn. tauto.
  - intros _. cbn. tauto.
  - destruct (JSON_stringify _); [|discriminate].
    destruct (some _ dangerousPatterns); [discriminate|].
    unfold shortString. destruct (Z.gtb_spec (strlen s) MAX_VALUE_LENGTH); [discriminate|].
    intros _. cbn. tauto.
  - destruct (JSON_stringify _); [|discriminate].
    destruct (some _ dangerousPatterns); [discriminate|].
    destruct l as [|x l]; [discriminate|].
    intros Hall%forEachM_Ok. cbn. repeat split; [discriminate | exact Hall].
  - destruct (JSON_stringify _); [|discriminate].
    destruct (some _ dangerousPatterns); [discriminate|]. cbv zeta.
    destruct (some _ (map fst props ++ map fst props)) eqn:Hkeys; [discriminate|].
    intros Hall%forEachM_Ok. cbn [encodableShape plainKeys shortString].
    repeat split.
    + intros Hin. unfold some in Hkeys.
      assert (Hex : existsb (fun prop => arrayIncludes dangerousPatterns prop)
                            (map fst props ++ map fst props) = true).
      { apply existsb_exists. exists "__proto__".
        split; [apply in_or_app; left; exact Hin | reflexivity]. }
      congruence.
    + eapply Forall_impl; [exact Hall|]. intros [k x] Hx. exact Hx.
Qed.

Lemma validateValue_allValues (P : JsValue -> Prop) :
  (forall u, validateValue u = Ok tt -> P u) ->
  forall v, validateValue v = Ok tt -> allValues P v.
Proof.
  intros HP v.
  induction v as [| |b|n|s|l IH|props IH] using JsValue_nested_ind; intros Hv;
    try (split; [apply HP, Hv | exact I]).
  - apply allValues_array. split; [apply HP, Hv|].
    destruct (validateValue_Ok_inv _ Hv) as (_ & _ & _ & Hall).
    rewrite Forall_forall in IH, Hall |- *. intros x Hx. apply IH; auto.
  - apply allValues_object. split; [apply HP, Hv|].
    destruct (validateValue_Ok_inv _ Hv) as (_ & _ & _ & Hall).
    rewrite Forall_forall in IH, Hall |- *. intros x Hx. apply IH; auto.
Qed.

Lemma validateValue_Encodable v : validateValue v = Ok tt -> Encodable v.
Proof.
  apply validateValue_allValues. intros u Hu. apply (validateValue_Ok_inv u Hu).
Qed.

Lemma validateValue_noProtoKey v : validateValue v = Ok tt -> noProtoKey v.
Proof.
  apply validateValue_allValues. intros u Hu. apply (validateValue_Ok_inv u Hu).
Qed.

(** X3: a value that [validateValue] accepts can be encoded:
    [toDynamoDBValue] does not throw on it; moreover no mapping inside it
    has a key named [__proto__], and no string inside it is longer than
    400000 characters. *)
Theorem X3_validated_values_are_encodable (v : JsValue) :
  validateValue v = Ok tt ->
  (exists x, toDynamoDBValue v = Ok x) /\ noProtoKey v /\ allValues shortString v.
Proof.
  intros Hv. split; [|split].
  - apply (proj1 (toDynamoDBValue_charted v)), validateValue_Encodable, Hv.
  - apply validateValue_noProtoKey, Hv.
  - revert v Hv. apply validateValue_allValues.
    intros u Hu. apply (validateValue_Ok_inv u Hu).
Qed.

Lemma canonical_roundTrips (v : JsValue) :
  CanonicalValue v -> numbersSurvive v -> noProtoKey v -> roundTrips v.
Proof.
  unfold CanonicalValue, numbersSurvive, noProtoKey.
  induction v as [| |b|n|s|l IH|props IH] using JsValue_nested_ind;
    intros Hc Hn Hp.
  - destruct (allValues_head _ _ Hc).
  - destruct (allValues_head _ _ Hc).
  - eexists. split; reflexivity.
  - apply allValues_head in Hn. cbn in Hn.
    eexists. split; [reflexivity|]. cbn. rewrite Hn. reflexivity.
  - eexists. split; reflexivity.
  - apply allValues_array in Hc as [Hne Hc]. apply allValues_array in Hn as [_ Hn].
    apply allValues_array in Hp as [_ Hp]. cbn in Hne.
    assert (Hall : Forall roundTrips l).
    { rewrite Forall_forall in IH, Hc, Hn, Hp |- *.
      intros x Hx. apply IH; auto. }
    unfold roundTrips. rewrite toDynamoDBValue_array.
    destruct l as [|first rest]; [congruence|]. cbv zeta.
    destruct (every _ (first :: rest)) eqn:Hsame; cbn [andb].
    + destruct (String.eqb_spec (typeof first) "string") as [_|_].
      { eexists. split; reflexivity. }
      destruct (String.eqb_spec (typeof first) "number") as [Hnum|_].
      { eexists. split; [reflexivity|]. rewrite fromDynamoDBValue_NS.
        rewrite numbers_decode; [reflexivity|].
        apply every_typeof in Hsame. rewrite Hnum in Hsame.
        rewrite Forall_forall in Hsame, Hn |- *. intros x Hx. split; [auto|].
        apply (allValues_head numberSurvives), Hn, Hx. }
      destruct (encode_decode_list _ Hall) as (xs & Hxs & Hds).
      rewrite Hxs. eexists. split; [reflexivity|].
      rewrite fromDynamoDBValue_L, Hds. reflexivity.
    + destruct (encode_decode_list _ Hall) as (xs & Hxs & Hds).
      rewrite Hxs. eexists. split; [reflexivity|].
      rewrite fromDynamoDBValue_L, Hds. reflexivity.
  - apply allValues_object in Hc as [Hnd Hc]. apply allValues_object in Hn as [_ Hn].
    apply allValues_object in Hp as [Hproto Hp]. cbn in Hnd, Hproto.
    assert (Hall : Forall (fun kv => roundTrips (snd kv)) props).
    { rewrite Forall_forall in IH, Hc, Hn, Hp |- *.
      intros x Hx. apply IH; auto. }
    destruct (encode_props props [] Hnd Hproto Hall) as (enc & Hfold & Henc).
    unfold roundTrips. rewrite toDynamoDBValue_object, Hfold.
    eexists. split; [reflexivity|]. cbn [app].
    rewrite fromDynamoDBValue_M, (decode_props props enc [] Henc Hnd Hproto).
    reflexivity.
Qed.

(** X4: a value that [validateValue] accepts survives the codec: decoding
    its encoding gives the value back, provided its numbers survive printing
    and parsing (the keys of each mapping are distinct, as the keys of an
    object are). *)
Theorem X4_validated_values_round_trip (v : JsValue) :
  validateValue v = Ok tt -> allValues distinctKeys v -> numbersSurvive v ->
  exists x, toDynamoDBValue v = Ok x /\ fromDynamoDBValue x = Ok v.
Proof.
  intros Hv Hkeys Hnum. apply canonical_roundTrips; [|exact Hnum|].
  - apply (allValues_impl (fun u => encodableShape u /\ distinctKeys u)).
    + intros u [Hshape Hdistinct]. destruct u; cbn in *; tauto.
    + apply allValues_conj; [apply validateValue_Encodable, Hv | exact Hkeys].
  - apply validateValue_noProtoKey, Hv.
Qed.

End CodecCoverage.

Section BuilderCoverage.
Context `{Numbers}.

Implicit Types (expr : DynamoExpression) (names : gmap string string)
  (vals : gmap string JsValue).

Lemma validateFilter_Ok (f : IFilterQuery) :
  validateFilter f = Ok tt
  <-> validateFieldName (field f) = Ok tt /\ validateValue (value f) = Ok tt.
Proof.
  unfold validateFilter, mbind, Result_bind.
  destruct (validateFieldName (field f)) as [[]|e].
  - tauto.
  - split; [discriminate | intros [? _]; discriminate].
Qed.

(** X7: [buildFilterExpression] validates the field and the value of every
    predicate before it builds anything: an expression is returned only if
    every predicate of the list passed [validateFieldName] and
    [validateValue], and the first predicate that fails one of them decides
    the error thrown, whatever the operators of the predicates are. *)
Theorem X7_filters_validated_before_building
    (pkName : string) (filters : list IFilterQuery) :
  (forall e, buildFilterExpression pkName filters = Ok e ->
     Forall (fun f => validateFieldName (field f) = Ok tt
                      /\ validateValue (value f) = Ok tt) filters)
  /\ (forall pre f post err,
        filters = pre ++ f :: post ->
        Forall (fun g => validateFilter g = Ok tt) pre ->
        validateFilter f = Throw err ->
        buildFilterExpression pkName filters = Throw err).
Proof.
  split.
  - intros e. unfold buildFilterExpression.
    destruct filters as [|f0 rest]; [constructor|].
    unfold mbind at 1, Result_bind at 1.
    destruct (forEachM validateFilter (f0 :: rest)) as [[]|err] eqn:Hall; [|discriminate].
    intros _. apply forEachM_Ok in Hall.
    eapply Forall_impl; [exact Hall|]. intros f. apply validateFilter_Ok.
  - intros pre f post err -> Hpre Hf. unfold buildFilterExpression.
    assert (Hthrow : forEachM validateFilter (pre ++ f :: post) = Throw err).
    { apply forEachM_Throw. exists pre, f, post. repeat split; assumption. }
    destruct (pre ++ f :: post) as [|f0 rest] eqn:Hl; [destruct pre; discriminate|].
    unfold mbind at 1, Result_bind at 1. rewrite Hthrow. reflexivity.
Qed.

(** *** One call of [buildSubExpression] *)

Lemma setName_spec expr k v names :
  ExpressionAttributeNames expr = Some names ->
  exists e', setName expr k v = Ok e'
    /\ ExpressionAttributeNames e' = Some (<[k:=v]> names)
    /\ ExpressionAttributeValues e' = ExpressionAttributeValues expr
    /\ KeyConditionExpression e' = KeyConditionExpression expr.
Proof.
  intros Hn. unfold setName. rewrite Hn. eexists. repeat split.
Qed.

Lemma names_fold_lookup index (l : list string) :
  forall s expr names,
  ExpressionAttributeNames expr = Some names ->
  exists e' names',
    foldlM (fun expr '(idx, part) => setName expr (nameKey index idx) part)
           expr (indexedFrom s l) = Ok e'
    /\ ExpressionAttributeNames e' = Some names'
    /\ (forall j part, l !! j = Some part -> names' !! nameKey index (s + j) = Some part)
    /\ (forall key, (forall j, key <> nameKey index j) -> names' !! key = names !! key)
    /\ (forall j, (j < s)%nat -> names' !! nameKey index j = names !! nameKey index j)
    /\ ExpressionAttributeValues e' = ExpressionAttributeValues expr
    /\ KeyConditionExpression e' = KeyConditionExpression expr.
Proof.
  induction l as [|part l IH]; intros s expr names Hn.
  - exists expr, names. repeat split; [exact Hn | intros j p Hj; discriminate Hj].
  - destruct (setName_spec expr (nameKey index s) part names Hn)
      as (e1 & He1 & Hn1 & Hv1 & Hk1).
    destruct (IH (S s) e1 _ Hn1) as (e' & names' & Hfold & Hn' & Hlook & Hframe & Hlow & Hv' & Hk').
    exists e', names'. cbn [indexedFrom]. rewrite foldlM_cons, He1.
    repeat split; try assumption; try congruence.
    + intros [|j] p Hj.
      * injection Hj as <-. rewrite Nat.add_0_r, Hlow by lia. apply lookup_insert_eq.
      * replace (s + S j)%nat with (S s + j)%nat by lia. apply Hlook, Hj.
    + intros key Hkey. rewrite Hframe by exact Hkey.
      apply lookup_insert_ne. intros Heq. exact (Hkey s (eq_sym Heq)).
    + intros j Hj. rewrite Hlow by lia. apply lookup_insert_ne.
      intros Heq. apply nameKey_inj in Heq. lia.
Qed.

Lemma bindValue_spec expr k v vals :
  ExpressionAttributeValues expr = Some vals ->
  match toDynamoDBValue v with
  | Ok x => exists e', bindValue expr k v = Ok e'
              /\ ExpressionAttributeValues e' = Some (<[k:=x]> vals)
              /\ ExpressionAttributeNames e' = ExpressionAttributeNames expr
              /\ KeyConditionExpression e' = KeyConditionExpression expr
  | Throw e => bindValue expr k v = Throw e
  end.
Proof.
  intros Hv. unfold bindValue, mbind, Result_bind, setValue. rewrite Hv.
  destruct (toDynamoDBValue v) as [x|e]; [|reflexivity].
  eexists. repeat split.
Qed.

(** The loop of the [in] / [not in] case. *)
Lemma in_fold_run index path (arr : list JsValue) :
  forall s expr conditions vals,
  ExpressionAttributeValues expr = Some vals ->
  Forall (fun v => exists x, toDynamoDBValue v = Ok x) arr ->
  exists e' vals',
    foldlM (fun '(expr, conditions) '(i, v) =>
              expr ← bindValue expr (valueKeyAt index i) v;
              Ok (expr, conditions ++ [path +:+ " = " +:+ valueKeyAt index i]))
           (expr, conditions) (indexedFrom s arr)
    = Ok (e', conditions
              ++ map (fun '(i, _) => path +:+ " = " +:+ valueKeyAt index i)
                     (indexedFrom s arr))
    /\ ExpressionAttributeValues e' = Some vals'
    /\ ExpressionAttributeNames e' = ExpressionAttributeNames expr
    /\ KeyConditionExpression e' = KeyConditionExpression expr.
Proof.
  induction arr as [|v arr IH]; intros s expr conditions vals Hv Hall.
  - exists expr, vals. cbn. rewrite app_nil_r. repeat split. exact Hv.
  - inversion Hall as [|? ? [x Hx] Hrest]; subst.
    pose proof (bindValue_spec expr (valueKeyAt index s) v vals Hv) as Hb.
    rewrite Hx in Hb. destruct Hb as (e1 & Hb & Hv1 & Hn1 & Hk1).
    destruct (IH (S s) e1 (conditions ++ [path +:+ " = " +:+ valueKeyAt index s])
                 _ Hv1 Hrest) as (e' & vals' & Hfold & Hv' & Hn' & Hk').
    exists e', vals'. cbn [indexedFrom map]. rewrite foldlM_cons.
    unfold mbind at 1, Result_bind at 1. rewrite Hb, Hfold, <- app_assoc.
    repeat split; [exact Hv' | congruence | congruence].
Qed.

Lemma in_fold_Ok_inv index path (arr : list JsValue) :
  forall s expr conditions e' conditions',
  foldlM (fun '(expr, conditions) '(i, v) =>
            expr ← bindValue expr (valueKeyAt index i) v;
            Ok (expr, conditions ++ [path +:+ " = " +:+ valueKeyAt index i]))
         (expr, conditions) (indexedFrom s arr) = Ok (e', conditions') ->
  KeyConditionExpression e' = KeyConditionExpression expr.
Proof.
  induction arr as [|v arr IH]; intros s expr conditions e' conditions'.
  - intros [= <- <-]. reflexivity.
  - cbn [indexedFrom]. rewrite foldlM_cons. unfold mbind at 1, Result_bind at 1.
    destruct (bindValue expr (valueKeyAt index s) v) as [e1|err] eqn:Hb; [|discriminate].
    intros Hfold. rewrite (IH _ _ _ _ _ Hfold).
    unfold bindValue, mbind, Result_bind, setValue in Hb.
    destruct (toDynamoDBValue v); [|discriminate].
    destruct (ExpressionAttributeValues expr); [|discriminate].
    injection Hb as <-. reflexivity.
Qed.

Lemma bindValue_Ok_inv expr k v e' vals :
  ExpressionAttributeValues expr = Some vals ->
  bindValue expr k v = Ok e' ->
  exists x, toDynamoDBValue v = Ok x
    /\ ExpressionAttributeValues e' = Some (<[k:=x]> vals)
    /\ ExpressionAttributeNames e' = ExpressionAttributeNames expr
    /\ KeyConditionExpression e' = KeyConditionExpression expr.
Proof.
  intros Hv Hb. pose proof (bindValue_spec expr k v vals Hv) as Hspec.
  destruct (toDynamoDBValue v) as [x|e]; [|congruence].
  destruct Hspec as (e1 & He1 & Hrest). rewrite He1 in Hb. injection Hb as <-.
  exists x. split; [reflexivity | exact Hrest].
Qed.

Lemma isListOperator_false op :
  String.eqb op "in" = false -> String.eqb op "not in" = false ->
  isListOperator op = false.
Proof. unfold isListOperator. intros -> ->. reflexivity. Qed.

Lemma ownsValue_valueKey i : ownsValue (valueKey i) i.
Proof. left. reflexivity. Qed.

Lemma ownsValue_valueKeyAt i k : ownsValue (valueKeyAt i k) i.
Proof. right. exists k. reflexivity. Qed.

Lemma buildSubExpression_spec expr (f : IFilterQuery) i e' s names vals :
  ExpressionAttributeNames expr = Some names ->
  ExpressionAttributeValues expr = Some vals ->
  buildSubExpression expr (field f) (operator f) (value f) i = Ok (e', s) ->
  exists names' vals',
    ExpressionAttributeNames e' = Some names'
    /\ ExpressionAttributeValues e' = Some vals'
    /\ boundNames i f names'
    /\ (forall key, (forall j, key <> nameKey i j) -> names' !! key = names !! key)
    /\ boundValues i f vals'
    /\ (forall key, ~ ownsValue key i -> vals' !! key = vals !! key)
    /\ subExpressionText i f = Some s
    /\ KeyConditionExpression e' = KeyConditionExpression expr.
Proof.
  intros Hn Hv. unfold buildSubExpression, subExpressionText, boundValues, pathOf.
  destruct (names_fold_lookup i (split "." (field f)) 0%nat expr names Hn)
    as (e1 & names1 & Hfold & Hn1 & Hlook & Hframe & _ & Hv1 & Hk1).
  rewrite Hv in Hv1. unfold indexed. unfold mbind at 1, Result_bind at 1. rewrite Hfold.
  cbv zeta.
  assert (Hsingle : forall e2,
             bindValue e1 (valueKey i) (value f) = Ok e2 ->
             exists vals',
               ExpressionAttributeNames e2 = Some names1
               /\ ExpressionAttributeValues e2 = Some vals'
               /\ (exists x, toDynamoDBValue (value f) = Ok x
                             /\ vals' !! valueKey i = Some x)
               /\ (forall key, ~ ownsValue key i -> vals' !! key = vals !! key)
               /\ KeyConditionExpression e2 = KeyConditionExpression expr).
  { intros e2 Hb.
    destruct (bindValue_Ok_inv _ _ _ _ _ Hv1 Hb) as (x & Hx & Hv2 & Hn2 & Hk2).
    eexists. split; [congruence|]. split; [exact Hv2|]. split; [|split; [|congruence]].
    - exists x. split; [exact Hx | apply lookup_insert_eq].
    - intros key Hkey. apply lookup_insert_ne. intros <-. apply Hkey, ownsValue_valueKey. }
  destruct (String.eqb (operator f) "like") eqn:Hlike.
  { unfold mbind, Result_bind.
    destruct (bindValue e1 _ _) as [e2|err] eqn:Hb; [|discriminate].
    intros [= <- <-]. destruct (Hsingle e2 eq_refl) as (vals' & Hn2 & Hv2 & Hbound & Hvframe & Hk2).
    exists names1, vals'.
    assert (Hlist : isListOperator (operator f) = false).
    { apply String.eqb_eq in Hlike. rewrite Hlike. reflexivity. }
    rewrite Hlist. repeat split; try assumption. }
  destruct (String.eqb (operator f) "not like") eqn:Hnotlike.
  { unfold mbind, Result_bind.
    destruct (bindValue e1 _ _) as [e2|err] eqn:Hb; [|discriminate].
    intros [= <- <-]. destruct (Hsingle e2 eq_refl) as (vals' & Hn2 & Hv2 & Hbound & Hvframe & Hk2).
    exists names1, vals'.
    assert (Hlist : isListOperator (operator f) = false).
    { apply String.eqb_eq in Hnotlike. rewrite Hnotlike. reflexivity. }
    rewrite Hlist. repeat split; try assumption. }
  fold (isListOperator (operator f)).
  destruct (isListOperator (operator f)) eqn:Hlist.
  - unfold mbind at 1, Result_bind at 1. fold (inOperands (value f)).
    destruct (foldlM _ (e1, []) _) as [[e2 conditions]|err] eqn:Hin; [|discriminate].
    intros [= <- <-].
    pose proof (in_fold_Ok_inv _ _ _ _ _ _ _ _ Hin) as Hk2.
    apply (in_fold i _ _ 0%nat e1 [] e2 conditions vals Hv1) in Hin
      as (vals' & Hv2 & Hn2 & Hc & _ & Hbound & Hvframe).
    exists names1, vals'. split; [congruence|]. split; [exact Hv2|].
    split; [intros j part Hj; exact (Hlook j part Hj)|].
    split; [exact Hframe|]. split; [exact Hbound|].
    split; [|split; [|congruence]].
    + intros key Hkey. apply Hvframe. intros k ->. apply Hkey, ownsValue_valueKeyAt.
    + cbn [app] in Hc. subst conditions. unfold disjunctionOf, indexed.
      unfold isListOperator in Hlist.
      destruct (String.eqb (operator f) "in"); [reflexivity|].
      cbn [orb] in Hlist. rewrite Hlist. reflexivity.
  - unfold mbind, Result_bind.
    destruct (bindValue e1 _ _) as [e2|err] eqn:Hb; [|discriminate].
    unfold isListOperator in Hlist. apply orb_false_iff in Hlist as [Hin Hnotin].
    rewrite Hin, Hnotin.
    destruct (lookupOwn (operator f) operatorMap) as [dynOp|]; [|discriminate].
    intros [= <- <-]. destruct (Hsingle e2 eq_refl) as (vals' & Hn2 & Hv2 & Hbound & Hvframe & Hk2).
    exists names1, vals'. repeat split; try assumption.
Qed.


Lemma boundValues_frame i (f : IFilterQuery) vals vals' :
  boundValues i f vals ->
  (forall key, ownsValue key i -> vals' !! key = vals !! key) ->
  boundValues i f vals'.
Proof.
  unfold boundValues. destruct (isListOperator (operator f)).
  - intros Hb Hf k v Hk. destruct (Hb k v Hk) as (x & Hx & Hl).
    exists x. split; [exact Hx|]. rewrite Hf; [exact Hl | apply ownsValue_valueKeyAt].
  - intros (x & Hx & Hl) Hf. exists x. split; [exact Hx|].
    rewrite Hf; [exact Hl | apply ownsValue_valueKey].
Qed.

(** The loop of [addFilterExpressions] over the predicates [l], the first of
    which has index [s]. *)
Lemma filters_fold_spec (l : list IFilterQuery) :
  forall s expr subs e' subs' names vals,
  ExpressionAttributeNames expr = Some names ->
  ExpressionAttributeValues expr = Some vals ->
  foldlM (fun '(expr, subExpressions) '(i, filter) =>
            '(expr, sub) ← buildSubExpression expr (field filter)
                              (operator filter) (value filter) i;
            Ok (expr, subExpressions ++ [sub]))
         (expr, subs) (indexedFrom s l) = Ok (e', subs') ->
  exists names' vals' texts,
    ExpressionAttributeNames e' = Some names'
    /\ ExpressionAttributeValues e' = Some vals'
    /\ subs' = subs ++ texts
    /\ Forall2 (fun '(i, f) t => subExpressionText i f = Some t) (indexedFrom s l) texts
    /\ (forall p f, l !! p = Some f ->
          boundNames (s + p) f names' /\ boundValues (s + p) f vals')
    /\ (forall key, (forall i j, key <> nameKey i j) -> names' !! key = names !! key)
    /\ (forall key, (forall i, ~ ownsValue key i) -> vals' !! key = vals !! key)
    /\ (forall i j, (i < s)%nat -> names' !! nameKey i j = names !! nameKey i j)
    /\ (forall key i, (i < s)%nat -> ownsValue key i -> vals' !! key = vals !! key)
    /\ KeyConditionExpression e' = KeyConditionExpression expr.
Proof.
  induction l as [|f l IH]; intros s expr subs e' subs' names vals Hn Hv.
  - intros [= <- <-]. exists names, vals, []. rewrite app_nil_r. cbn [indexedFrom].
    split; [exact Hn|]. split; [exact Hv|]. split; [reflexivity|].
    split; [constructor|]. split; [intros p f Hp; discriminate Hp|]. repeat split.
  - cbn [indexedFrom]. rewrite foldlM_cons. unfold mbind at 1, Result_bind at 1.
    destruct (buildSubExpression _ _ _ _ _) as [[e1 sub]|err] eqn:Hsub; [|discriminate].
    destruct (buildSubExpression_spec _ _ _ _ _ _ _ Hn Hv Hsub)
      as (names1 & vals1 & Hn1 & Hv1 & Hbn & Hnframe & Hbv & Hvframe & Htext & Hk1).
    intros Hfold.
    destruct (IH _ _ _ _ _ _ _ Hn1 Hv1 Hfold)
      as (names' & vals' & texts & Hn' & Hv' & Hsubs & Htexts & Hbound
          & Hnf & Hvf & Hnlow & Hvlow & Hk').
    exists names', vals', (sub :: texts).
    split; [exact Hn'|]. split; [exact Hv'|].
    split; [rewrite Hsubs, <- app_assoc; reflexivity|].
    split; [constructor; [exact Htext | exact Htexts]|].
    split; [|split; [|split; [|split; [|split]]]].
    + intros [|p] g Hg.
      * injection Hg as <-. rewrite Nat.add_0_r. split.
        -- intros j part Hj. rewrite Hnlow by lia. exact (Hbn j part Hj).
        -- apply (boundValues_frame s f vals1); [exact Hbv|].
           intros key Hkey. apply (Hvlow key s); [lia | exact Hkey].
      * replace (s + S p)%nat with (S s + p)%nat by lia. apply Hbound, Hg.
    + intros key Hkey. rewrite Hnf by exact Hkey. apply Hnframe. intros j. apply Hkey.
    + intros key Hkey. rewrite Hvf by exact Hkey. apply Hvframe, Hkey.
    + intros i j Hi. rewrite Hnlow by lia. apply Hnframe.
      intros j' Heq. apply nameKey_inj in Heq. lia.
    + intros key i Hi Hown. rewrite (Hvlow key i) by (lia || exact Hown).
      apply Hvframe. intros Hs. pose proof (ownsValue_functional key i s Hown Hs). lia.
    + congruence.
Qed.

Lemma split_nonempty c s : split c s <> [].
Proof.
  destruct s as [|a r]; cbn [split]; [discriminate|].
  destruct (Ascii.eqb a c); [discriminate|]. destruct (split c r); discriminate.
Qed.

(** Splitting at the dots and joining with dots gives the string back. *)
Lemma join_split c s : join (String c EmptyString) (split c s) = s.
Proof.
  induction s as [|a r IH]; [reflexivity|]. cbn [split].
  destruct (Ascii.eqb_spec a c) as [->|_].
  - pose proof (split_nonempty c r) as Hne.
    destruct (split c r) as [|p ps]; [congruence|].
    rewrite join_cons, IH. reflexivity.
  - pose proof (split_nonempty c r) as Hne.
    destruct (split c r) as [|p ps]; [congruence|].
    destruct ps as [|q ps].
    + cbn in IH |- *. rewrite IH. reflexivity.
    + rewrite join_cons in IH |- *. rewrite append_cons, IH. reflexivity.
Qed.

Lemma resolve_names i names (parts : list string) :
  forall s,
  (forall j part, parts !! j = Some part -> names !! nameKey i (s + j) = Some part) ->
  omap (fun key => names !! key)
       (map (fun '(idx, _) => nameKey i idx) (indexedFrom s parts)) = parts.
Proof.
  induction parts as [|part parts IH]; intros s Hlook; [reflexivity|].
  cbn [indexedFrom map omap list_omap].
  pose proof (Hlook 0%nat part eq_refl) as H0. rewrite Nat.add_0_r in H0. rewrite H0.
  rewrite (IH (S s)); [reflexivity|].
  intros j p Hj. replace (S s + j)%nat with (s + S j)%nat by lia. apply Hlook, Hj.
Qed.

(** X9: in the expression returned by [addFilterExpressions], every
    placeholder stands for what its predicate said.  For the predicate at
    position [i]: [#key{i}_{j}] is bound to the [j]-th segment of its field,
    so that substituting the names in its path gives the field back;
    [:val{i}] is bound to the encoding of its value, or, for [in] and
    [not in], [:val{i}_{k}] to the encoding of its [k]-th operand.  The
    filter expression is the texts of the predicates, in order, joined by
    [AND]; bindings under other names ([#pk], [:pkVal]) and the key
    condition are left as they were.  (Lists with an operator named like a
    member of [Object.prototype] are left aside: the lookup of the source
    finds the inherited member.) *)
Theorem X9_placeholders_resolve_to_their_predicate
    (expr : DynamoExpression) (filters : list IFilterQuery) (e' : DynamoExpression)
    (names : gmap string string) (vals : gmap string JsValue) :
  Forall (fun f => ~ In (operator f) objectPrototypeNames) filters ->
  ExpressionAttributeNames expr = Some names ->
  ExpressionAttributeValues expr = Some vals ->
  addFilterExpressions expr filters = Ok e' ->
  exists names' vals' texts,
    ExpressionAttributeNames e' = Some names'
    /\ ExpressionAttributeValues e' = Some vals'
    /\ FilterExpression e' = Some (join " AND " texts)
    /\ Forall2 (fun '(i, f) t => subExpressionText i f = Some t) (indexed filters) texts
    /\ (forall i f, filters !! i = Some f ->
          boundNames i f names' /\ boundValues i f vals'
          /\ join "." (omap (fun key => names' !! key) (subExpressionNameKeys i f))
             = field f)
    /\ (forall key, (forall i j, key <> nameKey i j) -> names' !! key = names !! key)
    /\ (forall key, (forall i, ~ ownsValue key i) -> vals' !! key = vals !! key)
    /\ KeyConditionExpression e' = KeyConditionExpression expr.
Proof.
  intros _ Hn Hv. unfold addFilterExpressions, mbind, Result_bind.
  destruct (foldlM _ _ _) as [[e1 subs]|err] eqn:Hfold; [|discriminate].
  intros [= <-].
  destruct (filters_fold_spec _ _ _ _ _ _ _ _ Hn Hv Hfold)
    as (names' & vals' & texts & Hn' & Hv' & Hsubs & Htexts & Hbound
        & Hnf & Hvf & _ & _ & Hk').
  exists names', vals', texts. cbn [app] in Hsubs. subst subs.
  split; [exact Hn'|]. split; [exact Hv'|]. split; [reflexivity|].
  split; [exact Htexts|]. split; [|split; [exact Hnf | split; [exact Hvf | exact Hk']]].
  intros i f Hf. destruct (Hbound i f Hf) as [Hbn Hbv]. cbn [Nat.add] in Hbn, Hbv.
  split; [exact Hbn|]. split; [exact Hbv|].
  unfold subExpressionNameKeys, indexed.
  rewrite (resolve_names i names' (split "." (field f)) 0%nat); [apply join_split|].
  intros j part Hj. exact (Hbn j part Hj).
Qed.

(** *** When the builder throws, and when it cannot *)

Lemma lookupOwn_In {A} k (l : list (string * A)) :
  In k (map fst l) <-> exists a, lookupOwn k l = Some a.
Proof.
  induction l as [|[k' a] l IH]; cbn [map fst In lookupOwn].
  - split; [intros [] | intros [a Ha]; discriminate].
  - destruct (String.eqb_spec k k') as [->|Hne].
    + split; [intros _; eexists; reflexivity | intros _; left; reflexivity].
    + rewrite <- IH. split; [intros [Heq|Hin]; [congruence | exact Hin] | tauto].
Qed.

Lemma subExpressionText_supported i (f : IFilterQuery) :
  supportedOperator (operator f) <-> exists s, subExpressionText i f = Some s.
Proof.
  unfold supportedOperator, subExpressionText. cbv zeta.
  destruct (String.eqb_spec (operator f) "like") as [->|_].
  { split; [intros _; eexists; reflexivity | intros _; cbn; tauto]. }
  destruct (String.eqb_spec (operator f) "not like") as [->|_].
  { split; [intros _; eexists; reflexivity | intros _; cbn; tauto]. }
  destruct (String.eqb_spec (operator f) "in") as [->|_].
  { split; [intros _; eexists; reflexivity | intros _; cbn; tauto]. }
  destruct (String.eqb_spec (operator f) "not in") as [->|_].
  { split; [intros _; eexists; reflexivity | intros _; cbn; tauto]. }
  rewrite lookupOwn_In. destruct (lookupOwn (operator f) operatorMap) as [dynOp|].
  - split; intros _; eexists; reflexivity.
  - split; intros [a Ha]; discriminate.
Qed.

Lemma Encodable_Ok v : Encodable v -> exists x, toDynamoDBValue v = Ok x.
Proof. apply (proj1 (toDynamoDBValue_charted v)). Qed.

(** With the two maps in place, one call runs to the text of the predicate,
    or to the error of an operator outside the table, once the operands can
    be encoded. *)
Lemma buildSubExpression_runs expr (f : IFilterQuery) i names vals :
  ExpressionAttributeNames expr = Some names ->
  ExpressionAttributeValues expr = Some vals ->
  operandsEncodable f ->
  exists e' names' vals',
    ExpressionAttributeNames e' = Some names'
    /\ ExpressionAttributeValues e' = Some vals'
    /\ buildSubExpression expr (field f) (operator f) (value f) i
       = match subExpressionText i f with
         | Some s => Ok (e', s)
         | None => Throw (DynamoValidationError ("Unsupported operator: " +:+ operator f))
         end.
Proof.
  intros Hn Hv. unfold operandsEncodable, buildSubExpression, subExpressionText, pathOf.
  destruct (names_fold_lookup i (split "." (field f)) 0%nat expr names Hn)
    as (e1 & names1 & Hfold & Hn1 & _ & _ & _ & Hv1 & _).
  rewrite Hv in Hv1. unfold indexed. unfold mbind at 1, Result_bind at 1. rewrite Hfold.
  cbv zeta.
  assert (Hsingle : Encodable (value f) ->
             exists e2 vals2,
               bindValue e1 (valueKey i) (value f) = Ok e2
               /\ ExpressionAttributeNames e2 = Some names1
               /\ ExpressionAttributeValues e2 = Some vals2).
  { intros [x Hx]%Encodable_Ok.
    pose proof (bindValue_spec e1 (valueKey i) (value f) vals Hv1) as Hb.
    rewrite Hx in Hb. destruct Hb as (e2 & Hb & Hv2 & Hn2 & _).
    exists e2, (<[valueKey i:=x]> vals). repeat split; [exact Hb | congruence | exact Hv2]. }
  destruct (String.eqb_spec (operator f) "like") as [Hop|_].
  { assert (Hlist : isListOperator (operator f) = false) by (rewrite Hop; reflexivity).
    rewrite Hlist.
    intros (e2 & vals2 & Hb & Hn2 & Hv2)%Hsingle. exists e2, names1, vals2.
    unfold mbind, Result_bind. rewrite Hb. repeat split; assumption. }
  destruct (String.eqb_spec (operator f) "not like") as [Hop|_].
  { assert (Hlist : isListOperator (operator f) = false) by (rewrite Hop; reflexivity).
    rewrite Hlist.
    intros (e2 & vals2 & Hb & Hn2 & Hv2)%Hsingle. exists e2, names1, vals2.
    unfold mbind, Result_bind. rewrite Hb. repeat split; assumption. }
  fold (isListOperator (operator f)). fold (inOperands (value f)).
  destruct (isListOperator (operator f)) eqn:Hlist.
  - intros Hall.
    destruct (in_fold_run i (join "." (map (fun '(idx, _) => nameKey i idx)
                                          (indexedFrom 0 (split "." (field f)))))
                (inOperands (value f)) 0%nat e1 [] vals Hv1)
      as (e2 & vals2 & Hin & Hv2 & Hn2 & _).
    { eapply Forall_impl; [exact Hall|]. intros v. apply Encodable_Ok. }
    exists e2, names1, vals2. split; [congruence|]. split; [exact Hv2|].
    unfold mbind at 1, Result_bind at 1. rewrite Hin. cbn [app].
    unfold disjunctionOf, indexed.
    unfold isListOperator in Hlist.
    destruct (String.eqb (operator f) "in"); [reflexivity|].
    cbn [orb] in Hlist. rewrite Hlist. reflexivity.
  - intros (e2 & vals2 & Hb & Hn2 & Hv2)%Hsingle. exists e2, names1, vals2.
    unfold isListOperator in Hlist. apply orb_false_iff in Hlist as [-> ->].
    unfold mbind, Result_bind. rewrite Hb.
    split; [exact Hn2|]. split; [exact Hv2|].
    destruct (lookupOwn (operator f) operatorMap); reflexivity.
Qed.

Lemma foldlM_app {A B} (f : A -> B -> Result A) acc l1 l2 :
  foldlM f acc (l1 ++ l2)
  = match foldlM f acc l1 with Ok a => foldlM f a l2 | Throw e => Throw e end.
Proof.
  revert acc. induction l1 as [|x l1 IH]; intros acc; [reflexivity|].
  cbn [app]. rewrite !foldlM_cons. destruct (f acc x); [apply IH | reflexivity].
Qed.

Lemma indexedFrom_app {A} (l1 l2 : list A) s :
  indexedFrom s (l1 ++ l2) = indexedFrom s l1 ++ indexedFrom (s + length l1) l2.
Proof.
  revert s. induction l1 as [|x l1 IH]; intros s; cbn [app indexedFrom length].
  - rewrite Nat.add_0_r. reflexivity.
  - rewrite IH. replace (S s + length l1)%nat with (s + S (length l1))%nat by lia.
    reflexivity.
Qed.

Lemma filters_fold_runs (l : list IFilterQuery) :
  forall s expr subs names vals,
  ExpressionAttributeNames expr = Some names ->
  ExpressionAttributeValues expr = Some vals ->
  Forall (fun g => supportedOperator (operator g) /\ operandsEncodable g) l ->
  exists e' subs' names' vals',
    foldlM (fun '(expr, subExpressions) '(i, filter) =>
              '(expr, sub) ← buildSubExpression expr (field filter)
                                (operator filter) (value filter) i;
              Ok (expr, subExpressions ++ [sub]))
           (expr, subs) (indexedFrom s l) = Ok (e', subs')
    /\ ExpressionAttributeNames e' = Some names'
    /\ ExpressionAttributeValues e' = Some vals'.
Proof.
  induction l as [|f l IH]; intros s expr subs names vals Hn Hv Hall.
  - exists expr, subs, names, vals. repeat split; assumption.
  - inversion Hall as [|? ? [Hop Henc] Hrest]; subst.
    destruct (buildSubExpression_runs expr f s names vals Hn Hv Henc)
      as (e1 & names1 & vals1 & Hn1 & Hv1 & Hrun).
    apply (subExpressionText_supported s) in Hop as [text Htext]. rewrite Htext in Hrun.
    destruct (IH (S s) e1 (subs ++ [text]) names1 vals1 Hn1 Hv1 Hrest)
      as (e' & subs' & names' & vals' & Hfold & Hn' & Hv').
    exists e', subs', names', vals'. cbn [indexedFrom]. rewrite foldlM_cons.
    unfold mbind at 1, Result_bind at 1. rewrite Hrun.
    repeat split; assumption.
Qed.


Lemma buildSubExpression_unsupported expr (f : IFilterQuery) i names vals :
  ExpressionAttributeNames expr = Some names ->
  ExpressionAttributeValues expr = Some vals ->
  ~ supportedOperator (operator f) ->
  buildSubExpression expr (field f) (operator f) (value f) i
  = match toDynamoDBValue (value f) with
    | Ok _ => Throw (DynamoValidationError ("Unsupported operator: " +:+ operator f))
    | Throw e => Throw e
    end.
Proof.
  intros Hn Hv Hop. unfold buildSubExpression.
  destruct (names_fold_lookup i (split "." (field f)) 0%nat expr names Hn)
    as (e1 & names1 & Hfold & Hn1 & _ & _ & _ & Hv1 & _).
  rewrite Hv in Hv1. unfold indexed. unfold mbind at 1, Result_bind at 1. rewrite Hfold.
  cbv zeta. unfold supportedOperator in Hop.
  destruct (String.eqb_spec (operator f) "like") as [Heq|_];
    [exfalso; apply Hop; rewrite Heq; cbn; tauto|].
  destruct (String.eqb_spec (operator f) "not like") as [Heq|_];
    [exfalso; apply Hop; rewrite Heq; cbn; tauto|].
  destruct (String.eqb_spec (operator f) "in") as [Heq|_];
    [exfalso; apply Hop; rewrite Heq; cbn; tauto|].
  destruct (String.eqb_spec (operator f) "not in") as [Heq|_];
    [exfalso; apply Hop; rewrite Heq; cbn; tauto|].
  cbn [orb]. unfold mbind, Result_bind.
  pose proof (bindValue_spec e1 (valueKey i) (value f) vals Hv1) as Hb.
  destruct (toDynamoDBValue (value f)) as [x|e].
  - destruct Hb as (e2 & -> & _).
    destruct (lookupOwn (operator f) operatorMap) as [dynOp|] eqn:Hlook; [|reflexivity].
    exfalso. apply Hop, lookupOwn_In. exists dynOp. exact Hlook.
  - rewrite Hb. reflexivity.
Qed.

(** X8: [addFilterExpressions] rejects the first predicate whose operator is
    not one of the ten of [operatorMap], after the predicates before it were
    built: the value of that predicate is encoded first, so a value that
    cannot be encoded decides the error, and otherwise the error is
    [Unsupported operator: <operator>].  (Names that [operatorMap] inherits
    from [Object.prototype] are found by the lookup of the source and are
    left aside.) *)
Theorem X8_unsupported_operator_rejected
    (expr : DynamoExpression) (names : gmap string string)
    (vals : gmap string JsValue) (pre : list IFilterQuery) (f : IFilterQuery)
    (post : list IFilterQuery) :
  ExpressionAttributeNames expr = Some names ->
  ExpressionAttributeValues expr = Some vals ->
  Forall (fun g => supportedOperator (operator g) /\ operandsEncodable g) pre ->
  ~ supportedOperator (operator f) ->
  ~ In (operator f) objectPrototypeNames ->
  addFilterExpressions expr (pre ++ f :: post)
  = match toDynamoDBValue (value f) with
    | Ok _ => Throw (DynamoValidationError ("Unsupported operator: " +:+ operator f))
    | Throw e => Throw e
    end.
Proof.
  intros Hn Hv Hpre Hop _. unfold addFilterExpressions, indexed.
  rewrite indexedFrom_app. cbn [indexedFrom]. unfold mbind at 1, Result_bind at 1.
  rewrite foldlM_app.
  destruct (filters_fold_runs pre 0%nat expr [] names vals Hn Hv Hpre)
    as (e1 & subs1 & names1 & vals1 & Hfold & Hn1 & Hv1).
  rewrite Hfold, foldlM_cons. unfold mbind at 1, Result_bind at 1.
  rewrite (buildSubExpression_unsupported e1 f _ names1 vals1 Hn1 Hv1 Hop).
  destruct (toDynamoDBValue (value f)); reflexivity.
Qed.

(** *** The builder as a whole *)

Lemma extractPartitionKeyFilter_keeps (P : IFilterQuery -> Prop) pkName filters :
  Forall P filters ->
  match fst (extractPartitionKeyFilter pkName filters) with
  | Some pk => P pk
  | None => True
  end
  /\ Forall P (snd (extractPartitionKeyFilter pkName filters)).
Proof.
  induction 1 as [|f filters Hf Hfilters [IHpk IHrest]]; cbn [extractPartitionKeyFilter].
  - split; [exact I | constructor].
  - destruct (_ && _).
    + split; [exact Hf | exact Hfilters].
    + destruct (extractPartitionKeyFilter pkName filters) as [pk rest].
      cbn [fst snd] in *. split; [exact IHpk | constructor; assumption].
Qed.

Lemma extractPartitionKeyFilter_covers (P : IFilterQuery -> Prop) pkName filters :
  (forall pk, fst (extractPartitionKeyFilter pkName filters) = Some pk ->
     operator pk = "=" -> P pk) ->
  Forall P (snd (extractPartitionKeyFilter pkName filters)) ->
  Forall P filters.
Proof.
  induction filters as [|f filters IH]; cbn [extractPartitionKeyFilter]; [constructor|].
  destruct (String.eqb (field f) pkName && String.eqb (operator f) "=") eqn:Hpk.
  - cbn [fst snd]. intros Hf Hrest. apply andb_true_iff in Hpk as [_ Hop].
    apply String.eqb_eq in Hop. constructor; [apply Hf; [reflexivity | exact Hop]|].
    (* the predicates after the key predicate are all residual *)
    exact Hrest.
  - destruct (extractPartitionKeyFilter pkName filters) as [pk rest].
    cbn [fst snd] in *. intros Hf Hrest. inversion Hrest; subst.
    constructor; [assumption | apply IH; assumption].
Qed.

Lemma validateValue_operandsEncodable (f : IFilterQuery) :
  validateValue (value f) = Ok tt -> operandsEncodable f.
Proof.
  intros Hv%validateValue_Encodable. unfold operandsEncodable.
  destruct (isListOperator (operator f)); [|exact Hv].
  unfold inOperands. destruct (value f); try (constructor; [exact Hv | constructor]).
  apply allValues_array in Hv as [_ Hall]. exact Hall.
Qed.

(** X10: [buildFilterExpression] returns an expression exactly when every
    predicate of the list passes [validateFieldName] and [validateValue] and
    has one of the ten operators of [operatorMap]; on such a list it never
    throws.  (Lists with an operator named like a member of
    [Object.prototype] are left aside: the lookup of the source finds the
    inherited member.) *)
Theorem X10_builder_accepts_exactly_valid_filters
    (pkName : string) (filters : list IFilterQuery) :
  Forall (fun f => ~ In (operator f) objectPrototypeNames) filters ->
  ((exists e, buildFilterExpression pkName filters = Ok e)
   <-> Forall (fun f => validateFieldName (field f) = Ok tt
                        /\ validateValue (value f) = Ok tt
                        /\ supportedOperator (operator f)) filters).
Proof.
  intros _. unfold buildFilterExpression.
  destruct filters as [|f0 rest].
  { split; [intros _; constructor | intros _; eexists; reflexivity]. }
  set (filters := f0 :: rest). unfold mbind at 1, Result_bind at 1.
  destruct (forEachM validateFilter filters) as [[]|err] eqn:Hvalid.
  2:{ split; [intros [e He]; discriminate|]. intros Hall. exfalso.
      assert (Hok : forEachM validateFilter filters = Ok tt).
      { apply forEachM_Ok. eapply Forall_impl; [exact Hall|].
        intros f (Hf & Hv & _). apply validateFilter_Ok. tauto. }
      congruence. }
  apply forEachM_Ok in Hvalid.
  assert (Hvalid' : Forall (fun f => validateFieldName (field f) = Ok tt
                                     /\ validateValue (value f) = Ok tt) filters).
  { eapply Forall_impl; [exact Hvalid|]. intros f. apply validateFilter_Ok. }
  pose proof (fun P => extractPartitionKeyFilter_keeps P pkName filters) as Hkeeps.
  pose proof (extractPartitionKeyFilter_covers
                (fun f => supportedOperator (operator f)) pkName filters) as Hcover.
  destruct (extractPartitionKeyFilter pkName filters) as [pkFilter remaining].
  cbn [fst snd] in Hkeeps, Hcover.
  destruct (Hkeeps _ Hvalid') as [Hpkvalid Hremvalid].
  assert (Hpk : exists e1 names1 vals1,
             match pkFilter with
             | Some pk => addPartitionKeyExpression freshExpression pk
             | None => Ok freshExpression
             end = Ok e1
             /\ ExpressionAttributeNames e1 = Some names1
             /\ ExpressionAttributeValues e1 = Some vals1).
  { destruct pkFilter as [pk|]; [|exists freshExpression, ∅, ∅; repeat split].
    destruct Hpkvalid as [_ Hv]. apply validateValue_Encodable, Encodable_Ok in Hv as [x Hx].
    unfold addPartitionKeyExpression.
    destruct (setName_spec (setKeyConditionExpression freshExpression "#pk = :pkVal")
                "#pk" (field pk) ∅ eq_refl) as (e1 & He1 & Hn1 & Hv1 & _).
    unfold mbind at 1, Result_bind at 1. rewrite He1.
    change (ExpressionAttributeValues e1 = Some (∅ : gmap string JsValue)) in Hv1.
    pose proof (bindValue_spec e1 ":pkVal" (value pk) ∅ Hv1) as Hb. rewrite Hx in Hb.
    destruct Hb as (e2 & Hb & Hv2 & Hn2 & _).
    exists e2, (<["#pk":=field pk]> ∅), (<[":pkVal":=x]> ∅).
    split; [exact Hb|]. split; [congruence | exact Hv2]. }
  destruct Hpk as (e1 & names1 & vals1 & -> & Hn1 & Hv1).
  unfold mbind, Result_bind. split.
  - intros [e He]. assert (Hops : Forall (fun f => supportedOperator (operator f)) filters).
    { apply Hcover.
      - intros pk _ ->. unfold supportedOperator. cbn. tauto.
      - destruct remaining as [|r0 remaining]; [constructor|].
        unfold addFilterExpressions, mbind, Result_bind in He.
        destruct (foldlM _ _ _) as [[e2 subs]|err] eqn:Hfold; [|discriminate].
        destruct (filters_fold_spec _ _ _ _ _ _ _ _ Hn1 Hv1 Hfold)
          as (_ & _ & texts & _ & _ & _ & Htexts & _).
        clear -Htexts. revert Htexts. generalize 0%nat. generalize texts.
        induction (r0 :: remaining) as [|f l IH]; intros ts s Hts; [constructor|].
        cbn [indexedFrom] in Hts. inversion Hts as [|? t ? ts' Ht Hrest]; subst.
        constructor; [|exact (IH _ _ Hrest)].
        apply (subExpressionText_supported s). exists t. exact Ht. }
    clear -Hvalid' Hops. induction Hvalid' as [|f l [Hf Hv] _ IH]; [constructor|].
    inversion Hops; subst. constructor; [tauto | apply IH; assumption].
  - intros Hall. destruct remaining as [|r0 remaining]; [eexists; reflexivity|].
    assert (Hrem : Forall (fun g => supportedOperator (operator g) /\ operandsEncodable g)
                          (r0 :: remaining)).
    { destruct (Hkeeps _ Hall) as [_ Hkeep].
      eapply Forall_impl; [exact Hkeep|]. intros g (_ & Hv & Hop).
      split; [exact Hop | apply validateValue_operandsEncodable, Hv]. }
    destruct (filters_fold_runs (r0 :: remaining) 0%nat e1 [] names1 vals1 Hn1 Hv1 Hrem)
      as (e2 & subs & names2 & vals2 & Hfold & _).
    unfold addFilterExpressions, indexed. unfold mbind at 1, Result_bind at 1.
    rewrite Hfold. eexists; reflexivity.
Qed.

End BuilderCoverage.

Section ItemCoverage.
Context `{Numbers}.

Lemma filter_keys_In (p : string * JsValue -> bool) l k :
  In k (map fst (List.filter p l)) -> In k (map fst l).
Proof.
  induction l as [|kv l IH]; [intros []|]. cbn [List.filter].
  destruct (p kv); cbn [map In]; tauto.
Qed.

Lemma filter_keys_NoDup (p : string * JsValue -> bool) l :
  NoDup (map fst l) -> NoDup (map fst (List.filter p l)).
Proof.
  induction l as [|kv l IH]; [intros _; constructor|]. cbn [map List.filter].
  intros [Hk Hl]%NoDup_cons. destruct (p kv); [|apply IH, Hl].
  cbn [map]. apply NoDup_cons. split; [|apply IH, Hl].
  intros Hin%list_elem_of_In%filter_keys_In. apply Hk, list_elem_of_In, Hin.
Qed.

Lemma decodeProps_kept props :
  forall acc,
  Forall (fun kv => skipped (snd kv) = false) props ->
  NoDup (map fst acc ++ map fst props) ->
  ~ In "__proto__" (map fst props) ->
  forall r,
  decodeProps fromDynamoDBValue acc props = Ok r
  <-> exists rs, r = acc ++ rs /\ decodedEntries props rs.
Proof.
  unfold decodedEntries.
  induction props as [|[k val] props IH]; intros acc Hkept Hnd Hproto r.
  - cbn [decodeProps]. split.
    + intros [= <-]. exists []. rewrite app_nil_r. split; [reflexivity | constructor].
    + intros (rs & -> & Hrs). inversion Hrs. rewrite app_nil_r. reflexivity.
  - inversion Hkept as [|? ? Hskip Hrest]; subst. cbn [snd] in Hskip.
    cbn [map fst In] in Hnd, Hproto.
    apply NoDup_app in Hnd as (Hacc & Hdisj & Hprops).
    apply NoDup_cons in Hprops as [Hk Hprops].
    assert (Hfresh : ~ In k (map fst acc)).
    { intros Hin. apply (Hdisj k); [apply list_elem_of_In, Hin | left]. }
    rewrite decodeProps_cons. unfold decodeEntry. fold (skipped val). rewrite Hskip.
    destruct (fromDynamoDBValue val) as [x|e] eqn:Hx.
    + rewrite setProp_fresh by tauto. rewrite (IH (acc ++ [(k, x)]) Hrest).
      * split.
        -- intros (rs & -> & Hrs). exists ((k, x) :: rs). rewrite <- app_assoc.
           split; [reflexivity|]. constructor; [split; [reflexivity | exact Hx] | exact Hrs].
        -- intros (rs & -> & Hrs). inversion Hrs as [|? [k' x'] ? rs' [Hk' Hx'] Hrs']; subst.
           cbn [fst snd] in Hk', Hx'. subst k'. rewrite Hx in Hx'. injection Hx' as <-.
           exists rs'. rewrite <- app_assoc. split; [reflexivity | exact Hrs'].
      * rewrite map_app. cbn [map fst]. apply NoDup_app. repeat split.
        -- apply NoDup_app. repeat split; [exact Hacc | | apply NoDup_singleton].
           intros k' Hk' ->%list_elem_of_singleton. apply Hfresh, list_elem_of_In, Hk'.
        -- intros k' [Hk'|Hk']%elem_of_app Hin.
           ++ apply (Hdisj k' Hk'). right. exact Hin.
           ++ apply list_elem_of_singleton in Hk'. subst k'. exact (Hk Hin).
        -- exact Hprops.
      * tauto.
    + split; [discriminate|]. intros (rs & _ & Hrs).
      inversion Hrs as [|? kr ? rs' [_ Hx'] _]; subst. cbn [snd] in Hx'. congruence.
Qed.

(** X15: [mapDynamoDBItemToType] decodes an item attribute by attribute: it
    returns a mapping exactly when every attribute whose value is an object
    decodes, and the mapping then has those attributes, in the order of the
    item, each bound to the decoding of its value; attributes whose value is
    not an object do not appear.  (The attribute names are distinct and none
    is [__proto__].) *)
Theorem X15_item_decoded_attribute_by_attribute
    (props : list (string * JsValue)) (r : JsValue) :
  NoDup (map fst props) -> ~ In "__proto__" (map fst props) ->
  (mapDynamoDBItemToType (VObject props) = Ok r
   <-> exists rs,
         r = VObject rs
         /\ decodedEntries (List.filter (fun '(_, val) => negb (skipped val)) props) rs).
Proof.
  intros Hnd Hproto. rewrite mapDynamoDBItemToType_skips.
  set (kept := List.filter (fun '(_, val) => negb (skipped val)) props).
  unfold mapDynamoDBItemToType, mapItemWith. cbn [truthy typeof].
  change (negb true || negb (String.eqb "object" "object")) with false. cbv iota.
  assert (Hkept : forall r',
             decodeProps fromDynamoDBValue [] kept = Ok r'
             <-> exists rs, r' = [] ++ rs /\ decodedEntries kept rs).
  { apply decodeProps_kept.
    - apply Forall_forall. intros [k val] Hin%list_elem_of_In. cbn [snd].
      apply filter_In in Hin as [_ Hin]. apply negb_true_iff, Hin.
    - cbn [map app]. apply filter_keys_NoDup, Hnd.
    - intros Hin%filter_keys_In. exact (Hproto Hin). }
  destruct (decodeProps fromDynamoDBValue [] kept) as [r'|e]; cbn [fmap Result_fmap].
  - split.
    + intros [= <-]. destruct (proj1 (Hkept r') eq_refl) as (rs & -> & Hrs).
      exists rs. split; [reflexivity | exact Hrs].
    + intros (rs & -> & Hrs).
      assert (Heq : Ok r' = Ok ([] ++ rs)).
      { apply (Hkept ([] ++ rs)). exists rs. split; [reflexivity | exact Hrs]. }
      injection Heq as ->. reflexivity.
  - split; [discriminate|]. intros (rs & _ & Hrs).
    assert (Heq : Throw e = Ok ([] ++ rs)).
    { apply (Hkept ([] ++ rs)). exists rs. split; [reflexivity | exact Hrs]. }
    discriminate Heq.
Qed.

End ItemCoverage.

Section SortCoverage.
Context {A : Type} (cmpC : A -> A -> Counted comparison).

Lemma insertSorted_Permutation x l :
  forall n r n', insertSorted cmpC x l n = (Ok r, n') -> Permutation (x :: l) r.
Proof.
  induction l as [|y l IH]; intros n r n'.
  - intros [= <- _]. reflexivity.
  - rewrite insertSorted_cons. unfold bindC at 1.
    destruct (cmpC x y n) as [[c|e] n1]; [|discriminate].
    destruct c; try (intros [= <- _]; reflexivity).
    unfold bindC, retC. destruct (insertSorted cmpC x l n1) as [[r'|e] n2] eqn:Hins;
      [|discriminate].
    intros [= <- _]. rewrite perm_swap. apply perm_skip. exact (IH _ _ _ Hins).
Qed.

Lemma insertionSort_Permutation l :
  forall n r n', insertionSort cmpC l n = (Ok r, n') -> Permutation l r.
Proof.
  induction l as [|x l IH]; intros n r n'.
  - intros [= <- _]. reflexivity.
  - change (insertionSort cmpC (x :: l))
      with (bindC (insertionSort cmpC l) (insertSorted cmpC x)).
    unfold bindC. destruct (insertionSort cmpC l n) as [[r'|e] n1] eqn:Hsort; [|discriminate].
    intros Hins%insertSorted_Permutation. rewrite <- Hins. apply perm_skip.
    exact (IH _ _ _ Hsort).
Qed.

End SortCoverage.

Section ResultsCoverage.
Context `{Numbers} `{Locale}.

Lemma filter_split (p : JsValue -> bool) l :
  Permutation l (List.filter (fun x => negb (p x)) l ++ List.filter p l).
Proof.
  induction l as [|x l IH]; [reflexivity|]. cbn [List.filter].
  destruct (p x); cbn [negb app].
  - rewrite <- Permutation_middle. apply perm_skip, IH.
  - apply perm_skip, IH.
Qed.

Lemma Array_sort_Permutation cmp l n sorted n' :
  Array_sort cmp l n = (Ok sorted, n') -> Permutation l sorted.
Proof.
  unfold Array_sort, bindC, retC.
  destruct (insertionSort cmp _ n) as [[r|e] n1] eqn:Hsort; [|discriminate].
  intros [= <- _]. apply insertionSort_Permutation in Hsort.
  rewrite <- Hsort. apply filter_split.
Qed.

Lemma orderResults_Permutation items pagination n sorted n' :
  orderResults items pagination n = (Ok sorted, n') -> Permutation items sorted.
Proof.
  unfold orderResults. destruct (truthy (optionalGet pagination "sortBy")).
  - unfold bindC at 1. destruct (forEachC _ _ n) as [[u|e] n1]; [|discriminate].
    apply Array_sort_Permutation.
  - intros [= <- _]. reflexivity.
Qed.

Lemma mapC_cons {B C} (f : B -> Counted C) x l :
  mapC f (x :: l) = bindC (f x) (fun y => bindC (mapC f l) (fun ys => retC (y :: ys))).
Proof. reflexivity. Qed.

Lemma mapC_decodeCall_count {B C} (g : B -> Result C) (l : list B) :
  forall n,
  (snd (mapC (fun item => decodeCall (g item)) l n) <= n + length l)%nat
  /\ (forall ys, fst (mapC (fun item => decodeCall (g item)) l n) = Ok ys ->
        snd (mapC (fun item => decodeCall (g item)) l n) = (n + length l)%nat
        /\ length ys = length l).
Proof.
  induction l as [|x l IH]; intros n.
  - cbn. split; [lia|]. intros ys [= <-]. split; [lia | reflexivity].
  - assert (Hrun : mapC (fun item => decodeCall (g item)) (x :: l) n
                   = match g x with
                     | Ok y =>
                         match mapC (fun item => decodeCall (g item)) l (S n) with
                         | (Ok ys, n') => (Ok (y :: ys), n')
                         | (Throw e, n') => (Throw e, n')
                         end
                     | Throw e => (Throw e, S n)
                     end).
    { rewrite mapC_cons. unfold bindC, decodeCall, retC.
      destruct (g x); [|reflexivity]. destruct (mapC _ l (S n)) as [[?|?] ?]; reflexivity. }
    rewrite Hrun. clear Hrun. cbn [length].
    destruct (g x) as [y|e].
    + destruct (IH (S n)) as [Hle Hok].
      destruct (mapC _ l (S n)) as [[ys|e] n1]; cbn [fst snd] in *.
      * destruct (Hok ys eq_refl) as [-> Hlen]. split; [lia|].
        intros ? [= <-]. cbn [length]. split; [lia | congruence].
      * split; [lia | discriminate].
    + cbn [fst snd]. split; [lia | discriminate].
Qed.

Lemma slice_sublist {B} (l : list B) start finish : slice l start finish `sublist_of` l.
Proof.
  unfold slice. etransitivity; [apply sublist_take | apply sublist_drop].
Qed.

Lemma slice_length {B} (l : list B) start finish :
  0 <= start -> 0 <= finish ->
  Z.of_nat (length (slice l start finish))
  = Z.max 0 (Z.min finish (Z.of_nat (length l)) - Z.min start (Z.of_nat (length l))).
Proof.
  intros Hs Hf. unfold slice.
  destruct (Z.ltb_spec start 0) as [|_]; [lia|].
  destruct (Z.ltb_spec finish 0) as [|_]; [lia|].
  rewrite length_take, length_drop. lia.
Qed.

(** X11: when no [sortBy] is given, [processResults] decodes the items of
    the page and no others: the page is the slice of the raw items from
    [offset] to [offset + limit], the outcome is the decoding of its items in
    order, and the decoder is called at most once per item of the page,
    exactly once when no decoding throws. *)
Theorem X11_unsorted_page_decodes_only_the_page
    (items : list JsValue) (limit offset : Z) (pagination : JsValue) :
  truthy (optionalGet pagination "sortBy") = false ->
  limit <> 0 -> offset < Z.of_nat (length items) ->
  let page := slice items offset (offset + limit) in
  outcome (processResults items limit offset pagination)
  = mapR mapDynamoDBItemToType page
  /\ (decodeCalls (processResults items limit offset pagination) <= length page)%nat
  /\ (forall results,
        outcome (processResults items limit offset pagination) = Ok results ->
        decodeCalls (processResults items limit offset pagination) = length page
        /\ length results = length page).
Proof.
  intros Hsort Hlimit Hoffset page.
  assert (Hrun : forall n,
             processResults items limit offset pagination n
             = mapC (fun item => decodeCall (mapDynamoDBItemToType item)) page n).
  { intros n. unfold processResults.
    destruct (Z.eqb_spec limit 0) as [|_]; [contradiction|].
    destruct (Z.geb_spec offset (Z.of_nat (length items))) as [|_]; [lia|].
    unfold bindC, orderResults. rewrite Hsort. reflexivity. }
  unfold outcome, decodeCalls. rewrite !Hrun.
  destruct (mapC_decodeCall_count mapDynamoDBItemToType page 0%nat) as [Hle Hok].
  split; [apply mapC_decodeCall|]. split; [exact Hle | exact Hok].
Qed.

(** X12: whatever the pagination, a page returned by [processResults] has
    [min limit (n - offset)] elements, none when that is negative, where [n]
    is the number of raw items; and its elements are the decodings of
    distinct raw items: no item is returned twice, and none is invented.
    ([limit] is positive and [offset] is not negative.) *)
Theorem X12_page_is_bounded_and_drawn_from_the_items
    (items : list JsValue) (limit offset : Z) (pagination : JsValue)
    (results : list JsValue) :
  0 < limit -> 0 <= offset ->
  outcome (processResults items limit offset pagination) = Ok results ->
  Z.of_nat (length results) = Z.max 0 (Z.min limit (Z.of_nat (length items) - offset))
  /\ exists chosen,
       chosen ⊆+ items
       /\ Forall2 (fun item r => mapDynamoDBItemToType item = Ok r) chosen results.
Proof.
  intros Hlimit Hoffset. unfold outcome, processResults.
  destruct (Z.eqb_spec limit 0) as [|_]; [lia|].
  destruct (Z.geb_spec offset (Z.of_nat (length items))) as [Hge|Hlt].
  { intros [= <-]. split; [cbn [length]; lia|]. exists [].
    split; [apply submseteq_nil_l | constructor]. }
  unfold bindC at 1.
  destruct (orderResults items pagination 0%nat) as [[sorted|e] n1] eqn:Horder;
    [|discriminate].
  apply orderResults_Permutation in Horder.
  rewrite mapC_decodeCall. intros Hmap%mapR_Ok. split.
  - rewrite <- (Forall2_length _ _ _ Hmap), slice_length by lia.
    rewrite <- (Permutation_length Horder). lia.
  - exists (slice sorted offset (offset + limit)). split; [|exact Hmap].
    rewrite Horder. apply sublist_submseteq, slice_sublist.
Qed.

End ResultsCoverage.

Section ServiceCoverage.
Context `{Numbers} `{Locale}.

Implicit Types (expr : DynamoExpression) (names : gmap string string)
  (vals : gmap string JsValue).

(** X13: [buildQueryParams] lets the sort options through only on a query
    whose sort field passed [validateFieldName].  Without a key condition
    the parameters carry neither key condition nor [ScanIndexForward], the
    names are those of the expression, and [sortBy] is not looked at; with a
    key condition a [sortBy] that names an unsafe field makes it throw; and
    whenever parameters are returned they name the table, carry the values
    of the expression, keep every name binding of the expression, and carry
    [ScanIndexForward] only if [sortBy] is a validated field name, with the
    direction [sortDirection !== 'desc']. *)
Theorem X13_sort_options_only_on_validated_queries
    (tableName : string) (expr : DynamoExpression) (pagination : JsValue) :
  (truthyString (KeyConditionExpression expr) = false ->
     exists params,
       buildQueryParams tableName expr pagination = Ok params
       /\ KeyConditionExpression params = None
       /\ ScanIndexForward params = None
       /\ ExpressionAttributeNames params = ExpressionAttributeNames expr)
  /\ (truthyString (KeyConditionExpression expr) = true ->
      forall s, optionalGet pagination "sortBy" = VString s -> s <> EmptyString ->
        containsUnsafePattern s ->
        exists message,
          buildQueryParams tableName expr pagination
          = Throw (DynamoValidationError message))
  /\ (forall params,
        buildQueryParams tableName expr pagination = Ok params ->
        TableName params = Some tableName
        /\ ExpressionAttributeValues params = ExpressionAttributeValues expr
        /\ (forall b, ScanIndexForward params = Some b ->
              exists s, optionalGet pagination "sortBy" = VString s
                        /\ validateFieldName s = Ok tt
                        /\ b = scanForwardOf (get pagination "sortDirection")
                        /\ truthyString (KeyConditionExpression expr) = true
                        /\ KeyConditionExpression params = KeyConditionExpression expr)
        /\ (forall names k v,
              ExpressionAttributeNames expr = Some names -> names !! k = Some v ->
              exists names', ExpressionAttributeNames params = Some names'
                             /\ names' !! k = Some v)).
Proof.
  unfold buildQueryParams. split; [|split].
  - intros ->. cbn [mbind Result_bind]. eexists. split; [reflexivity|].
    cbn. repeat split. destruct (ExpressionAttributeNames expr) as [g|]; [|reflexivity].
    rewrite (right_id_L ∅ (∪)). reflexivity.
  - intros -> s Hs Hne Hunsafe. rewrite Hs. cbn [truthy].
    apply String.eqb_neq in Hne. rewrite Hne. cbn [negb].
    destruct (validateFieldName_unsafe s Hunsafe) as [message Hthrow].
    exists message. rewrite Hthrow. reflexivity.
  - intros params.
    destruct (truthyString (KeyConditionExpression expr)) eqn:Hkey.
    + destruct (truthy (optionalGet pagination "sortBy")) eqn:Hsort.
      * destruct (optionalGet pagination "sortBy") as [| | | |s| |] eqn:Hby;
          try discriminate.
        unfold mbind at 2, Result_bind at 2.
        destruct (validateFieldName s) as [[]|e] eqn:Hvalid; [|discriminate].
        cbn [mbind Result_bind]. intros [= <-]. cbn.
        split; [reflexivity|]. split; [reflexivity|]. split.
        -- intros b [= <-]. exists s. repeat split. exact Hvalid.
        -- intros names k v -> Hk. eexists. split; [reflexivity|].
           apply lookup_union_Some_l, Hk.
      * cbn [mbind Result_bind]. intros [= <-]. cbn.
        split; [reflexivity|]. split; [reflexivity|]. split; [discriminate|].
        intros names k v -> Hk. eexists. split; [reflexivity|].
        apply lookup_union_Some_l, Hk.
    + cbn [mbind Result_bind]. intros [= <-]. cbn.
      split; [reflexivity|]. split; [reflexivity|]. split; [discriminate|].
      intros names k v -> Hk. eexists. split; [reflexivity|].
      apply lookup_union_Some_l, Hk.
Qed.

(** *** From the filters to the command sent *)

Lemma extractPartitionKeyFilter_keyed pkName (filters : list IFilterQuery) :
  match fst (extractPartitionKeyFilter pkName filters) with
  | Some _ => keyed pkName filters = true
  | None => keyed pkName filters = false
  end.
Proof.
  unfold keyed. induction filters as [|f filters IH];
    cbn [extractPartitionKeyFilter existsb]; [reflexivity|].
  destruct (String.eqb (field f) pkName && String.eqb (operator f) "="); [reflexivity|].
  destruct (extractPartitionKeyFilter pkName filters) as [pk rest]. exact IH.
Qed.

Lemma addPartitionKeyExpression_spec (pk : IFilterQuery) e1 :
  addPartitionKeyExpression freshExpression pk = Ok e1 ->
  KeyConditionExpression e1 = Some "#pk = :pkVal"
  /\ (exists names1, ExpressionAttributeNames e1 = Some names1)
  /\ (exists vals1, ExpressionAttributeValues e1 = Some vals1).
Proof.
  unfold addPartitionKeyExpression.
  destruct (setName_spec (setKeyConditionExpression freshExpression "#pk = :pkVal")
              "#pk" (field pk) ∅ eq_refl) as (e0 & He0 & Hn0 & Hv0 & Hk0).
  unfold mbind at 1, Result_bind at 1. rewrite He0.
  change (ExpressionAttributeValues e0 = Some (∅ : gmap string JsValue)) in Hv0.
  intros Hb. destruct (bindValue_Ok_inv _ _ _ _ _ Hv0 Hb) as (x & _ & Hv1 & Hn1 & Hk1).
  split; [rewrite Hk1, Hk0; reflexivity|].
  split; [eexists; rewrite Hn1; exact Hn0 | eexists; exact Hv1].
Qed.

Lemma addFilterExpressions_key expr (filters : list IFilterQuery) e' names vals :
  ExpressionAttributeNames expr = Some names ->
  ExpressionAttributeValues expr = Some vals ->
  addFilterExpressions expr filters = Ok e' ->
  KeyConditionExpression e' = KeyConditionExpression expr.
Proof.
  intros Hn Hv. unfold addFilterExpressions, mbind, Result_bind.
  destruct (foldlM _ _ _) as [[e1 subs]|err] eqn:Hfold; [|discriminate].
  intros [= <-].
  destruct (filters_fold_spec _ _ _ _ _ _ _ _ Hn Hv Hfold)
    as (_ & _ & _ & _ & _ & _ & _ & _ & _ & _ & _ & _ & Hk).
  exact Hk.
Qed.

Lemma buildFilterExpression_key pkName (filters : list IFilterQuery) e :
  buildFilterExpression pkName filters = Ok e ->
  KeyConditionExpression e
  = if keyed pkName filters then Some "#pk = :pkVal" else None.
Proof.
  unfold buildFilterExpression. destruct filters as [|f0 rest]; [intros [= <-]; reflexivity|].
  set (filters := f0 :: rest). unfold mbind at 1, Result_bind at 1.
  destruct (forEachM validateFilter filters) as [[]|err]; [|discriminate].
  pose proof (extractPartitionKeyFilter_keyed pkName filters) as Hkeyed.
  destruct (extractPartitionKeyFilter pkName filters) as [pkFilter remaining].
  cbn [fst] in Hkeyed. unfold mbind, Result_bind.
  destruct pkFilter as [pk|]; rewrite Hkeyed.
  - destruct (addPartitionKeyExpression freshExpression pk) as [e1|err] eqn:Hadd;
      [|discriminate].
    destruct (addPartitionKeyExpression_spec pk e1 Hadd) as (Hk1 & [names1 Hn1] & [vals1 Hv1]).
    destruct remaining as [|r0 remaining]; [intros [= <-]; exact Hk1|].
    intros Hbuild. rewrite (addFilterExpressions_key _ _ _ _ _ Hn1 Hv1 Hbuild). exact Hk1.
  - destruct remaining as [|r0 remaining]; [intros [= <-]; reflexivity|].
    intros Hbuild.
    rewrite (addFilterExpressions_key freshExpression _ _ ∅ ∅ eq_refl eq_refl Hbuild).
    reflexivity.
Qed.

Lemma buildQueryParams_key tableName expr pagination params :
  buildQueryParams tableName expr pagination = Ok params ->
  TableName params = Some tableName
  /\ KeyConditionExpression params
     = if truthyString (KeyConditionExpression expr)
       then KeyConditionExpression expr else None.
Proof.
  unfold buildQueryParams.
  destruct (truthyString (KeyConditionExpression expr)).
  - destruct (truthy (optionalGet pagination "sortBy")).
    + destruct (optionalGet pagination "sortBy"); try discriminate.
      unfold mbind at 2, Result_bind at 2.
      destruct (validateFieldName s) as [[]|e]; [|discriminate].
      cbn [mbind Result_bind]. intros [= <-]. split; reflexivity.
    + cbn [mbind Result_bind]. intros [= <-]. split; reflexivity.
  - cbn [mbind Result_bind]. intros [= <-]. split; reflexivity.
Qed.

(** X14: the one command [executeQuery] sends for the parameters prepared by
    [prepareQueryParameters] is a [QueryCommand] exactly when [limit] is not
    0 and some predicate is an equality on the partition key; otherwise it is
    a [ScanCommand].  The command names the table and carries the key
    condition [#pk = :pkVal] in the first case and none in the second; the
    items returned are [response.Items], or the empty array when the
    response has none. *)
Theorem X14_query_only_for_partition_key_equality
    (calculatePaginationValues : JsValue -> Z * Z * Z)
    (send : Command -> Result JsValue)
    (tableName pkName : string) (query : IGenericFilterQuery)
    (prepared : PreparedQuery) :
  prepareQueryParameters calculatePaginationValues tableName pkName query = Ok prepared ->
  let params := prepared_params prepared in
  let byKey := negb (prepared_limit prepared =? 0)
               && keyed pkName (default [] (query_filters query)) in
  let input :=
    {| input_TableName := Some tableName;
       input_KeyConditionExpression := if byKey then Some "#pk = :pkVal" else None;
       input_FilterExpression := FilterExpression params;
       input_ExpressionAttributeNames := ExpressionAttributeNames params;
       input_ExpressionAttributeValues := ExpressionAttributeValues params |} in
  executeQuery send params
  = itemsOf (send (if byKey then QueryCommand input else ScanCommand input)).
Proof.
  unfold prepareQueryParameters. cbv zeta.
  unfold mbind at 1, Result_bind at 1.
  destruct (validatePagination _) as [[]|e]; [|discriminate].
  destruct (calculatePaginationValues _) as [[limit offset] page].
  destruct (Z.eqb_spec limit 0) as [->|Hlimit].
  - intros [= <-]. reflexivity.
  - unfold mbind at 1, Result_bind at 1.
    destruct (buildFilterExpression pkName _) as [built|e] eqn:Hbuild; [|discriminate].
    unfold mbind at 1, Result_bind at 1.
    destruct (buildQueryParams tableName built _) as [params|e] eqn:Hparams; [|discriminate].
    intros [= <-]. cbn [prepared_params prepared_limit].
    apply Z.eqb_neq in Hlimit. rewrite Hlimit. cbn [negb andb].
    apply buildFilterExpression_key in Hbuild.
    apply buildQueryParams_key in Hparams as [Htable Hkey].
    rewrite Hbuild in Hkey. unfold executeQuery, itemsOf. rewrite Htable, Hkey.
    destruct (keyed pkName _); reflexivity.
Qed.

End ServiceCoverage.

Section StringKeys.
Context `{Numbers} `{Locale}.

Lemma stringOrder_consistent {A} scanForward (keyOf : A -> string) (D : A -> Prop) :
  consistentLocale -> consistentOn (stringOrder scanForward keyOf) D.
Proof.
  intros [Hanti Htrans]. unfold consistentOn, precedes, stringOrder.
  destruct scanForward; split.
  - intros a b _ _. apply Hanti.
  - intros a b c _ _ _. apply Htrans.
  - intros a b _ _. apply Hanti.
  - intros a b c _ _ _ Hab Hbc. exact (Htrans _ _ _ Hbc Hab).
Qed.

(** X16: when the raw items are records, every one of which has a string
    under the sort field or no value for that field at all, and
    [localeCompare] is a consistent comparator, the sequence that
    [processResults] slices is the raw items sorted by that string (the
    empty string for items without a value there), ascending, or descending
    when [sortDirection] is ["desc"]; items with equal strings keep their
    relative order. *)
Theorem X16_string_keys_are_sorted
    (items : list JsValue) (pagination : JsValue) (keyOf : JsValue -> string) :
  consistentLocale ->
  let sortBy := optionalGet pagination "sortBy" in
  let scanForward := scanForwardOf (get pagination "sortDirection") in
  let cmp := stringOrder scanForward keyOf in
  truthy sortBy = true ->
  (forall a, In a items -> isRecord a = true) ->
  (forall a, In a items ->
     outcome (sortKeyValue sortBy a) = Ok (VString (keyOf a))) ->
  exists sorted,
    outcome (orderResults items pagination) = Ok sorted
    /\ Permutation items sorted
    /\ StronglySorted (precedes cmp) sorted
    /\ (forall a, In a items ->
          List.filter (sameKey cmp a) sorted = List.filter (sameKey cmp a) items).
Proof.
  intros Hlocale sortBy scanForward cmp Hsort _ Hkey.
  pose proof (stringOrder_consistent scanForward keyOf (fun a => In a items) Hlocale)
    as Hcons. fold cmp in Hcons.
  assert (Hall : Forall (fun a => In a items) items).
  { apply Forall_forall. intros a Ha. apply list_elem_of_In, Ha. }
  assert (Hcmp : forall a b, In a items -> In b items ->
                   compareKeys scanForward (VString (keyOf a)) (VString (keyOf b))
                   = Ok (cmp a b)).
  { intros a b _ _. reflexivity. }
  exists (sortPure cmp items).
  destruct (orderResults_sorted items pagination (fun a => VString (keyOf a)) cmp
              Hsort Hkey Hcmp 0%nat) as [n' Hrun].
  split; [unfold outcome; rewrite Hrun; reflexivity|].
  split; [apply sortPure_Permutation|].
  split; [exact (sortPure_sorted cmp _ Hcons items Hall)|].
  intros a Ha. exact (sortPure_stable cmp _ Hcons a items Ha Hall).
Qed.

End StringKeys.

(* ===================================================================== *)
(** ** The theorems at concrete inputs                                    *)
(* ===================================================================== *)

Section Witnesses.
#[local] Existing Instance Milli.numbers.
#[local] Existing Instance codeUnitLocale.




Lemma C4_witness :
  "id" <> "tags"
  /\ (exists e names vals,
        buildFilterExpression "id" [tagsIn] = Ok e
        /\ FilterExpression e = Some "(#key0_0 = :val0_0 OR #key0_0 = :val0_1)"
        /\ ExpressionAttributeNames e = Some names
        /\ names !! "#key0_0" = Some "tags"
        /\ ExpressionAttributeValues e = Some vals
        /\ vals !! ":val0_0" = Some (tagged "S" (VString "a"))
        /\ vals !! ":val0_1" = Some (tagged "S" (VString "b"))
        /\ toDynamoDBValue (VString "a") = Ok (tagged "S" (VString "a"))
        /\ toDynamoDBValue (VString "b") = Ok (tagged "S" (VString "b")))
  /\ (exists e' s,
        buildSubExpression freshExpression "a.b" "not in" (VString "z") 3 = Ok (e', s)
        /\ s = "NOT (#key3_0.#key3_1 = :val3_0)"
        /\ exists vals',
             ExpressionAttributeValues e' = Some vals'
             /\ vals' !! ":val3_0" = Some (tagged "S" (VString "z"))).
Proof.
  split; [discriminate|].
  split; [exact (proj1 C4_in_expands_to_disjunction "id" ltac:(discriminate))|].
  destruct (isOk_exists (buildSubExpression freshExpression "a.b" "not in"
                           (VString "z") 3))
    as [[e' s] Hsub]; [vm_compute; reflexivity|].
  exists e', s. split; [exact Hsub|].
  destruct (proj2 C4_in_expands_to_disjunction freshExpression "a.b" "not in"
              (VString "z") 3%nat e' s ∅ ∅ (or_intror eq_refl) eq_refl eq_refl Hsub)
    as (Hs & vals' & Hv & Hlook).
  split; [exact Hs|]. exists vals'. split; [exact Hv|].
  destruct (Hlook 0%nat (VString "z") eq_refl) as (x & Hx & Hl).
  injection Hx as <-. exact Hl.
Defined.

Lemma C5_witness :
  containsUnsafePattern "user$name"
  /\ (exists message,
        validateFieldName "user$name" = Throw (DynamoValidationError message))
  /\ ["profile"; "address_2"; "zip"] <> []
  /\ (length ["profile"; "address_2"; "zip"] <= 20)%nat
  /\ Forall validSegment ["profile"; "address_2"; "zip"]
  /\ ~ containsUnsafePattern (join "." ["profile"; "address_2"; "zip"])
  /\ validateFieldName (join "." ["profile"; "address_2"; "zip"]) = Ok tt.
Proof.
  assert (Hunsafe : containsUnsafePattern "user$name").
  { exists "$". split; [cbn; tauto|]. exists "user", "$", "name". split; reflexivity. }
  assert (Hsegs : Forall validSegment ["profile"; "address_2"; "zip"]).
  { repeat constructor; cbn; lia. }
  assert (Hsafe : ~ containsUnsafePattern (join "." ["profile"; "address_2"; "zip"])).
  { intros Hc. apply unsafe_scan_spec in Hc. vm_compute in Hc. discriminate Hc. }
  split; [exact Hunsafe|].
  split; [exact (proj1 C5_validateFieldName_denylist_and_shape _ Hunsafe)|].
  split; [discriminate|]. split; [cbn; lia|]. split; [exact Hsegs|].
  split; [exact Hsafe|].
  apply (proj2 C5_validateFieldName_denylist_and_shape);
    [discriminate | cbn; lia | exact Hsegs | exact Hsafe].
Defined.

Lemma C6_witness :
  (forall name v, In name paginationFields -> presentField pageOneAndAHalf name v ->
     exists n, JsNumber v = Ok n)
  /\ validatePagination pageOneAndAHalf
     = Throw (DynamoValidationError "Page must be an integer")
  /\ integerError (DynamoValidationError "Page must be an integer")
  /\ (exists name v n, In name paginationFields /\ presentField pageOneAndAHalf name v
                       /\ JsNumber v = Ok n /\ Number_isInteger n = false)
  /\ prepareQueryParameters (fun _ => (10, 0, 1)) "table" "id"
       {| query_pagination := pageOneAndAHalf;
          query_filters := Some [{| field := ""; operator := "?"; value := VNull |}] |}
     = Throw (DynamoValidationError "Page must be an integer").
Proof.
  assert (Hcoerce : forall name v, In name paginationFields ->
                      presentField pageOneAndAHalf name v -> exists n, JsNumber v = Ok n).
  { intros name v Hin (_ & Hget & Hdef). unfold paginationFields in Hin.
    cbn [In] in Hin. destruct Hin as [<-|[<-|[<-|[<-|[]]]]];
      cbn in Hget; subst v; try congruence.
    eexists; reflexivity. }
  assert (Hthrow : validatePagination pageOneAndAHalf
                   = Throw (DynamoValidationError "Page must be an integer"))
    by reflexivity.
  destruct C6_pagination_integers_checked_first as (Hspec & Hfirst & Hpage).
  destruct (Hspec pageOneAndAHalf Hcoerce) as [Hiff Herr].
  split; [exact Hcoerce|]. split; [exact Hthrow|].
  split; [exact (Herr _ Hthrow)|].
  split; [apply Hiff; eexists; split; [exact Hthrow | exact (Herr _ Hthrow)]|].
  apply (Hpage (Some 1500)). reflexivity.
Defined.

(** C6, as stated, fails on [{page: {toString: 1}}]: the field is present
    and does not coerce to an integer, for [Number] of it throws, and what
    [validatePagination] raises is that TypeError, not a "must be an
    integer" error. *)
Lemma C6_counterexample_uncoercible_page :
  presentField uncoerciblePage "page" (VObject [("toString", VNumber (Some 1000))])
  /\ JsNumber (VObject [("toString", VNumber (Some 1000))]) = Throw TypeError
  /\ validatePagination uncoerciblePage = Throw TypeError
  /\ ~ (exists e, validatePagination uncoerciblePage = Throw e /\ integerError e).
Proof.
  split; [repeat split; discriminate|]. split; [reflexivity|].
  split; [reflexivity|].
  intros (e & He & label & _ & Hlabel).
  change (@Throw unit TypeError = Throw e) in He. injection He as <-.
  discriminate Hlabel.
Qed.

Lemma C7_witness :
  truthy (optionalGet sortByK "sortBy") = true
  /\ (forall a, In a rawItems -> isRecord a = true)
  /\ (forall a, In a rawItems -> outcome (sortKeyValue (VString "k") a) = Ok (keyOfK a))
  /\ (forall a, In a rawItems ->
        shadowsToString (keyOfK a) = false /\ noProtoKey (get a "k"))
  /\ consistentOn (itemOrder true keyOfK) (fun a => In a rawItems)
  /\ exists sorted,
       outcome (orderResults rawItems sortByK) = Ok sorted
       /\ sorted = [VObject [("name", tagged "S" (VString "d"))];
                    rawItem "a" 1500; rawItem "b" 3000; rawItem "c" 3000]
       /\ Permutation rawItems sorted
       /\ StronglySorted (precedes (itemOrder true keyOfK)) sorted
       /\ outcome (processResults rawItems 2 1 sortByK)
          = mapR mapDynamoDBItemToType (slice sorted 1 (1 + 2)).
Proof.
  assert (Hsort : truthy (optionalGet sortByK "sortBy") = true) by reflexivity.
  assert (Hrec : forall a, In a rawItems -> isRecord a = true).
  { intros a Ha. cbn [In rawItems] in Ha.
    destruct Ha as [<-|[<-|[<-|[<-|[]]]]]; reflexivity. }
  assert (Hkey : forall a, In a rawItems ->
                   outcome (sortKeyValue (VString "k") a) = Ok (keyOfK a)).
  { intros a Ha. cbn [In rawItems] in Ha.
    destruct Ha as [<-|[<-|[<-|[<-|[]]]]]; reflexivity. }
  assert (Hcoerce : forall a, In a rawItems ->
                      shadowsToString (keyOfK a) = false /\ noProtoKey (get a "k")).
  { intros a Ha. cbn [In rawItems] in Ha.
    destruct Ha as [<-|[<-|[<-|[<-|[]]]]]; (split; [reflexivity|]);
      cbn; repeat split; try tauto; intros Hin; cbn in Hin; intuition discriminate. }
  assert (Hcons : consistentOn (itemOrder true keyOfK) (fun a => In a rawItems)).
  { split.
    - intros a b Ha Hb. cbn [In rawItems] in Ha, Hb.
      destruct Ha as [<-|[<-|[<-|[<-|[]]]]]; destruct Hb as [<-|[<-|[<-|[<-|[]]]]];
        vm_compute; congruence.
    - intros a b c Ha Hb Hc. cbn [In rawItems] in Ha, Hb, Hc. unfold precedes.
      destruct Ha as [<-|[<-|[<-|[<-|[]]]]]; destruct Hb as [<-|[<-|[<-|[<-|[]]]]];
        destruct Hc as [<-|[<-|[<-|[<-|[]]]]]; vm_compute; congruence. }
  split; [exact Hsort|]. split; [exact Hrec|]. split; [exact Hkey|].
  split; [exact Hcoerce|]. split; [exact Hcons|].
  destruct (C7_results_stably_sorted_by_key rawItems sortByK keyOfK
              Hsort Hrec Hkey Hcoerce Hcons)
    as ((sorted & Hout & Hperm & Hsorted & _ & Hpage) & _).
  exists sorted. split; [exact Hout|].
  split; [|split; [exact Hperm|]; split; [exact Hsorted|];
            apply Hpage; [discriminate | cbn; lia]].
  assert (Hrun : outcome (orderResults rawItems sortByK)
                 = Ok [VObject [("name", tagged "S" (VString "d"))];
                       rawItem "a" 1500; rawItem "b" 3000; rawItem "c" 3000])
    by reflexivity.
  congruence.
Defined.

(** C7, as stated, fails in three ways.  On keys 9, 10 and ["5"] the
    comparator is cyclic (9 before 10 as numbers, ["10"] before ["5"] and
    ["5"] before ["9"] as strings), and no arrangement of the items is
    sorted by it.  On a key that [String] cannot coerce, here the decoded
    mapping [{toString: "x"}] next to a number, the comparator throws and so
    does the sort.  And an item without the field does not get the empty
    string as its key when [sortBy] names a member that every object
    inherits: under [toString] its key is [null]. *)
Lemma C7_counterexample_mixed_keys :
  ((forall a, In a mixedItems -> outcome (sortKeyValue (VString "k") a) = Ok (keyOfK a))
   /\ map keyOfK mixedItems
      = [VNumber (Some 9000); VNumber (Some 10000); VString "5"]
   /\ forall l, Permutation mixedItems l ->
        ~ StronglySorted (precedes (itemOrder true keyOfK)) l)
  /\ (map keyOfK unprintableItems
      = [VObject [("toString", VString "x")]; VNumber (Some 1000)]
      /\ outcome (orderResults unprintableItems sortByK) = Throw TypeError
      /\ outcome (processResults unprintableItems 10 0 sortByK) = Throw TypeError)
  /\ (get (VObject []) "toString" = VUndefined
      /\ outcome (sortKeyValue (VString "toString") (VObject [])) = Ok VNull).
Proof.
  split; [|split; [repeat split | repeat split]].
  split.
  { intros a Ha. cbn [In mixedItems] in Ha.
    destruct Ha as [<-|[<-|[<-|[]]]]; reflexivity. }
  split; [reflexivity|].
  intros l Hl Hs. apply permutations_Permutation in Hl.
  cbv [mixedItems permutations interleave mbind list_bind fmap list_fmap app] in Hl.
  repeat (apply elem_of_cons in Hl as [->|Hl]);
    [..|apply elem_of_nil in Hl; exact Hl];
    repeat match goal with
           | H : StronglySorted _ (_ :: _) |- _ =>
               apply StronglySorted_inv in H as [? ?]
           | H : List.Forall _ (_ :: _) |- _ =>
               apply List.Forall_cons_iff in H as [? ?]
           end;
    repeat match goal with
           | H : precedes _ _ _ |- _ => vm_compute in H; try congruence; clear H
           end.
Qed.

Lemma C8_witness :
  (0 = 0
   /\ outcome (processResults rawItems 0 1 sortByK) = Ok []
   /\ decodeCalls (processResults rawItems 0 1 sortByK) = 0%nat)
  /\ (7 >= Z.of_nat (length rawItems)
      /\ outcome (processResults rawItems 10 7 sortByK) = Ok []
      /\ decodeCalls (processResults rawItems 10 7 sortByK) = 0%nat).
Proof.
  split.
  - split; [reflexivity|].
    exact (proj1 (C8_nothing_decoded_on_empty_page rawItems 0 1 sortByK) eq_refl).
  - assert (Hoff : 7 >= Z.of_nat (length rawItems)) by (cbn; lia).
    split; [exact Hoff|].
    exact (proj2 (C8_nothing_decoded_on_empty_page rawItems 10 7 sortByK) Hoff).
Defined.

Lemma C10_witness :
  (stringAndNumber <> VUndefined /\ stringAndNumber <> VNull
   /\ get stringAndNumber "S" <> VUndefined
   /\ fromDynamoDBValue stringAndNumber = Ok (VString "x"))
  /\ ((forall t, In t ["S"] -> get numberAndList t = VUndefined)
      /\ get numberAndList "N" <> VUndefined
      /\ fromDynamoDBValue numberAndList = Ok (VNumber (Some 2500))).
Proof.
  destruct C10_first_defined_tag_wins as (Hfirst & _).
  split.
  - split; [discriminate|]. split; [discriminate|]. split; [discriminate|].
    apply (Hfirst stringAndNumber [] "S" ["N"; "BOOL"; "SS"; "NS"; "M"; "L"]);
      [discriminate | discriminate | reflexivity | intros t [] | discriminate].
  - assert (Hpre : forall t, In t ["S"] -> get numberAndList t = VUndefined).
    { intros t [<-|[]]. reflexivity. }
    split; [exact Hpre|]. split; [discriminate|].
    apply (Hfirst numberAndList ["S"] "N" ["BOOL"; "SS"; "NS"; "M"; "L"]);
      [discriminate | discriminate | reflexivity | exact Hpre | discriminate].
Defined.

End Witnesses.

Section CoverageWitnesses.
#[local] Existing Instance Milli.numbers.
#[local] Existing Instance codeUnitLocale.

Lemma X1_witness :
  "profile.address.city" <> EmptyString
  /\ ~ containsUnsafePattern "profile.address.city"
  /\ (length (split "." "profile.address.city") <= 20)%nat
  /\ Forall validSegment (split "." "profile.address.city").
Proof.
  exact (proj1 (proj1 (X1_validateFieldName_accepts_exactly "profile.address.city"))
               eq_refl).
Defined.

Lemma X2_witness :
  mentions dangerousToken nestedOperator
  /\ validateValue nestedOperator = Throw injectionDetected.
Proof.
  assert (Hm : mentions dangerousToken nestedOperator).
  { left. split; [discriminate|]. right. left. split; [discriminate|]. left.
    exists "$ne". split; [cbn; tauto|].
    exists EmptyString, "$ne", EmptyString. split; reflexivity. }
  split; [exact Hm|].
  exact (X2_validateValue_rejects_tokens_at_any_depth nestedOperator Hm).
Defined.

Lemma X3_witness :
  validateValue sampleValue = Ok tt
  /\ (exists x, toDynamoDBValue sampleValue = Ok x)
  /\ noProtoKey sampleValue /\ allValues shortString sampleValue.
Proof.
  destruct (isOk_exists (validateValue sampleValue)) as [[] Hv]; [vm_compute; reflexivity|].
  split; [exact Hv|].
  exact (X3_validated_values_are_encodable sampleValue Hv).
Defined.

Lemma X4_witness :
  validateValue sampleValue = Ok tt
  /\ allValues distinctKeys sampleValue /\ numbersSurvive sampleValue
  /\ exists x, toDynamoDBValue sampleValue = Ok x /\ fromDynamoDBValue x = Ok sampleValue.
Proof.
  destruct (isOk_exists (validateValue sampleValue)) as [[] Hv]; [vm_compute; reflexivity|].
  assert (Hk : allValues distinctKeys sampleValue).
  { cbn. repeat split; try constructor;
      apply (bool_decide_unpack _); vm_compute; exact I. }
  assert (Hn : numbersSurvive sampleValue) by (cbn; repeat split).
  split; [exact Hv|]. split; [exact Hk|]. split; [exact Hn|].
  exact (X4_validated_values_round_trip sampleValue Hv Hk Hn).
Defined.

Lemma X5_witness :
  Encodable sampleValue
  /\ exists message,
       toDynamoDBValue (VArray [VString "a"; VNull])
       = Throw (DynamoValidationError message).
Proof.
  split.
  - apply (proj1 (proj1 (X5_toDynamoDBValue_encodes_exactly sampleValue))).
    apply isOk_exists. vm_compute. reflexivity.
  - destruct (proj2 (X5_toDynamoDBValue_encodes_exactly (VArray [VString "a"; VNull]))
                    (DynamoValidationError "Value cannot be null or undefined") eq_refl)
      as [message Hm].
    exists message. rewrite <- Hm. reflexivity.
Defined.

Lemma X6_witness :
  exists x, toDynamoDBValue sampleValue = Ok x
            /\ wellShaped x = true /\ exists r, fromDynamoDBValue x = Ok r.
Proof.
  destruct (isOk_exists (toDynamoDBValue sampleValue)) as [x Hx]; [vm_compute; reflexivity|].
  exists x. split; [exact Hx|].
  exact (X6_encoded_values_always_decode sampleValue x Hx).
Defined.

Lemma X7_witness :
  Forall (fun g => validateFilter g = Ok tt) [unknownOperator]
  /\ validateFilter unsafeField
     = Throw (DynamoValidationError "Field name contains unsafe pattern: $where")
  /\ buildFilterExpression "id" [unknownOperator; unsafeField]
     = Throw (DynamoValidationError "Field name contains unsafe pattern: $where").
Proof.
  assert (Hpre : Forall (fun g => validateFilter g = Ok tt) [unknownOperator]).
  { constructor; [|constructor].
    destruct (isOk_exists (validateFilter unknownOperator)) as [[] Hv];
      [vm_compute; reflexivity | exact Hv]. }
  assert (Hf : validateFilter unsafeField
               = Throw (DynamoValidationError "Field name contains unsafe pattern: $where"))
    by reflexivity.
  split; [exact Hpre|]. split; [exact Hf|].
  exact (proj2 (X7_filters_validated_before_building "id" [unknownOperator; unsafeField])
               [unknownOperator] unsafeField [] _ eq_refl Hpre Hf).
Defined.

Lemma X8_witness :
  Forall (fun g => supportedOperator (operator g) /\ operandsEncodable g) [priceAbove]
  /\ ~ supportedOperator (operator unknownOperator)
  /\ ~ In (operator unknownOperator) objectPrototypeNames
  /\ addFilterExpressions freshExpression ([priceAbove] ++ unknownOperator :: [])
     = Throw (DynamoValidationError "Unsupported operator: ~=").
Proof.
  assert (Hpre : Forall (fun g => supportedOperator (operator g) /\ operandsEncodable g)
                        [priceAbove]).
  { constructor; [|constructor]. split.
    - unfold supportedOperator. cbn. tauto.
    - unfold operandsEncodable, Encodable. cbn. tauto. }
  assert (Hop : ~ supportedOperator (operator unknownOperator)).
  { unfold supportedOperator. cbn. intuition discriminate. }
  assert (Hproto : ~ In (operator unknownOperator) objectPrototypeNames).
  { cbn. intuition discriminate. }
  split; [exact Hpre|]. split; [exact Hop|]. split; [exact Hproto|].
  exact (X8_unsupported_operator_rejected freshExpression ∅ ∅ [priceAbove]
           unknownOperator [] eq_refl eq_refl Hpre Hop Hproto).
Defined.

Lemma X9_witness :
  Forall (fun f => ~ In (operator f) objectPrototypeNames) residualFilters
  /\ exists e',
    addFilterExpressions freshExpression residualFilters = Ok e'
    /\ exists names' vals' texts,
         ExpressionAttributeNames e' = Some names'
         /\ ExpressionAttributeValues e' = Some vals'
         /\ FilterExpression e' = Some (join " AND " texts)
         /\ Forall2 (fun '(i, f) t => subExpressionText i f = Some t)
                    (indexed residualFilters) texts
         /\ (forall i f, residualFilters !! i = Some f ->
               boundNames i f names' /\ boundValues i f vals'
               /\ join "." (omap (fun key => names' !! key) (subExpressionNameKeys i f))
                  = field f)
         /\ (forall key, (forall i j, key <> nameKey i j) ->
               names' !! key = (∅ : gmap string string) !! key)
         /\ (forall key, (forall i, ~ ownsValue key i) ->
               vals' !! key = (∅ : gmap string JsValue) !! key)
         /\ KeyConditionExpression e' = KeyConditionExpression freshExpression.
Proof.
  assert (Hplain : Forall (fun f => ~ In (operator f) objectPrototypeNames)
                          residualFilters).
  { repeat constructor; cbn; intuition discriminate. }
  split; [exact Hplain|].
  destruct (isOk_exists (addFilterExpressions freshExpression residualFilters))
    as [e' He]; [vm_compute; reflexivity|].
  exists e'. split; [exact He|].
  exact (X9_placeholders_resolve_to_their_predicate freshExpression residualFilters e'
           ∅ ∅ Hplain eq_refl eq_refl He).
Defined.

Lemma X10_witness :
  Forall (fun f => ~ In (operator f) objectPrototypeNames) sampleFilters
  /\ ((exists e, buildFilterExpression "id" sampleFilters = Ok e)
      <-> Forall (fun f => validateFieldName (field f) = Ok tt
                           /\ validateValue (value f) = Ok tt
                           /\ supportedOperator (operator f)) sampleFilters).
Proof.
  assert (Hproto : Forall (fun f => ~ In (operator f) objectPrototypeNames) sampleFilters).
  { repeat (constructor; [cbn; intuition discriminate|]). constructor. }
  split; [exact Hproto|].
  exact (X10_builder_accepts_exactly_valid_filters "id" sampleFilters Hproto).
Defined.

Lemma X11_witness :
  truthy (optionalGet (VObject []) "sortBy") = false
  /\ 2 <> 0 /\ 1 < Z.of_nat (length rawItems)
  /\ outcome (processResults rawItems 2 1 (VObject []))
     = mapR mapDynamoDBItemToType (slice rawItems 1 (1 + 2))
  /\ (decodeCalls (processResults rawItems 2 1 (VObject []))
      <= length (slice rawItems 1 (1 + 2)))%nat
  /\ (forall results,
        outcome (processResults rawItems 2 1 (VObject [])) = Ok results ->
        decodeCalls (processResults rawItems 2 1 (VObject []))
        = length (slice rawItems 1 (1 + 2))
        /\ length results = length (slice rawItems 1 (1 + 2))).
Proof.
  assert (Hsort : truthy (optionalGet (VObject []) "sortBy") = false) by reflexivity.
  assert (Hlimit : 2 <> 0) by lia.
  assert (Hoffset : 1 < Z.of_nat (length rawItems)) by (cbn; lia).
  split; [exact Hsort|]. split; [exact Hlimit|]. split; [exact Hoffset|].
  exact (X11_unsorted_page_decodes_only_the_page rawItems 2 1 (VObject [])
           Hsort Hlimit Hoffset).
Defined.

Lemma X12_witness :
  exists results,
    outcome (processResults rawItems 3 2 sortByK) = Ok results
    /\ Z.of_nat (length results) = Z.max 0 (Z.min 3 (Z.of_nat (length rawItems) - 2))
    /\ exists chosen,
         chosen ⊆+ rawItems
         /\ Forall2 (fun item r => mapDynamoDBItemToType item = Ok r) chosen results.
Proof.
  destruct (isOk_exists (outcome (processResults rawItems 3 2 sortByK)))
    as [results Hr]; [vm_compute; reflexivity|].
  exists results. split; [exact Hr|].
  assert (Hlimit : 0 < 3) by lia. assert (Hoffset : 0 <= 2) by lia.
  exact (X12_page_is_bounded_and_drawn_from_the_items rawItems 3 2 sortByK results
           Hlimit Hoffset Hr).
Defined.

Lemma X13_witness :
  exists message,
    buildQueryParams "table" keyedExpression sortByUpdatedAt
    = Throw (DynamoValidationError message).
Proof.
  apply (proj1 (proj2 (X13_sort_options_only_on_validated_queries
                         "table" keyedExpression sortByUpdatedAt))
               eq_refl "updatedAt" eq_refl).
  - discriminate.
  - exists "UPDATE". split; [cbn; tauto|].
    exists EmptyString, "update", "dAt". split; reflexivity.
Defined.

Lemma X14_witness :
  exists prepared,
    prepareQueryParameters (fun _ => (10, 0, 1)) "table" "id" keyedQuery = Ok prepared
    /\ executeQuery sampleClient (prepared_params prepared)
       = itemsOf (sampleClient
           (if negb (prepared_limit prepared =? 0)
               && keyed "id" (default [] (query_filters keyedQuery))
            then QueryCommand
                   {| input_TableName := Some "table";
                      input_KeyConditionExpression :=
                        if negb (prepared_limit prepared =? 0)
                           && keyed "id" (default [] (query_filters keyedQuery))
                        then Some "#pk = :pkVal" else None;
                      input_FilterExpression :=
                        FilterExpression (prepared_params prepared);
                      input_ExpressionAttributeNames :=
                        ExpressionAttributeNames (prepared_params prepared);
                      input_ExpressionAttributeValues :=
                        ExpressionAttributeValues (prepared_params prepared) |}
            else ScanCommand
                   {| input_TableName := Some "table";
                      input_KeyConditionExpression :=
                        if negb (prepared_limit prepared =? 0)
                           && keyed "id" (default [] (query_filters keyedQuery))
                        then Some "#pk = :pkVal" else None;
                      input_FilterExpression :=
                        FilterExpression (prepared_params prepared);
                      input_ExpressionAttributeNames :=
                        ExpressionAttributeNames (prepared_params prepared);
                      input_ExpressionAttributeValues :=
                        ExpressionAttributeValues (prepared_params prepared) |})).
Proof.
  destruct (isOk_exists
              (prepareQueryParameters (fun _ => (10, 0, 1)) "table" "id" keyedQuery))
    as [prepared Hp]; [vm_compute; reflexivity|].
  exists prepared. split; [exact Hp|].
  exact (X14_query_only_for_partition_key_equality (fun _ => (10, 0, 1)) sampleClient
           "table" "id" keyedQuery prepared Hp).
Defined.

Lemma X15_witness :
  NoDup (map fst looseItem) /\ ~ In "__proto__" (map fst looseItem)
  /\ (mapDynamoDBItemToType (VObject looseItem)
      = Ok (VObject [("id", VNumber (Some 1000)); ("name", VString "test")])
      <-> exists rs,
            VObject [("id", VNumber (Some 1000)); ("name", VString "test")] = VObject rs
            /\ decodedEntries
                 (List.filter (fun '(_, val) => negb (skipped val)) looseItem) rs).
Proof.
  assert (Hnd : NoDup (map fst looseItem)).
  { apply (bool_decide_unpack _). vm_compute. exact I. }
  assert (Hproto : ~ In "__proto__" (map fst looseItem)).
  { cbn. intuition discriminate. }
  split; [exact Hnd|]. split; [exact Hproto|].
  exact (X15_item_decoded_attribute_by_attribute looseItem _ Hnd Hproto).
Defined.

End CoverageWitnesses.

Section SortWitnesses.
#[local] Existing Instance Milli.numbers.
#[local] Existing Instance codeUnitLocale.

Lemma codeUnitLocale_consistent : consistentLocale.
Proof.
  assert (Hnotgt : forall a b, String.compare a b <> Gt <-> a = b \/ OrderedTypeEx.String_as_OT.lt a b).
  { intros a b. split.
    - destruct (String.compare a b) eqn:Hc; [| |congruence]; intros _.
      + left. apply String.compare_eq_iff, Hc.
      + right. apply OrderedTypeEx.String_as_OT.cmp_lt, Hc.
    - intros [->|Hlt] Hgt.
      + pose proof (proj2 (OrderedTypeEx.String_as_OT.cmp_eq b b) eq_refl) as Hbb.
        unfold OrderedTypeEx.String_as_OT.cmp in Hbb. congruence.
      + apply OrderedTypeEx.String_as_OT.cmp_lt in Hlt. unfold OrderedTypeEx.String_as_OT.cmp in Hlt. congruence. }
  split.
  - intros a b Hab. cbn [localeCompare codeUnitLocale] in *.
    rewrite String.compare_antisym, Hab. reflexivity.
  - intros a b c. cbn [localeCompare codeUnitLocale]. rewrite !Hnotgt.
    intros [->|Hab] [->|Hbc]; auto.
    right. exact (OrderedTypeEx.String_as_OT.lt_trans _ _ _ Hab Hbc).
Qed.

Lemma X16_witness :
  consistentLocale
  /\ (forall a, In a namedItems -> isRecord a = true)
  /\ (forall a, In a namedItems ->
        outcome (sortKeyValue (VString "name") a) = Ok (VString (nameOf a)))
  /\ exists sorted,
    outcome (orderResults namedItems sortByNameDesc) = Ok sorted
    /\ Permutation namedItems sorted
    /\ StronglySorted (precedes (stringOrder false nameOf)) sorted
    /\ (forall a, In a namedItems ->
          List.filter (sameKey (stringOrder false nameOf) a) sorted
          = List.filter (sameKey (stringOrder false nameOf) a) namedItems).
Proof.
  assert (Hrec : forall a, In a namedItems -> isRecord a = true).
  { intros a Ha. cbn [namedItems In] in Ha.
    destruct Ha as [<-|[<-|[<-|[<-|[]]]]]; reflexivity. }
  assert (Hkey : forall a, In a namedItems ->
                   outcome (sortKeyValue (VString "name") a) = Ok (VString (nameOf a))).
  { intros a Ha. cbn [namedItems In] in Ha.
    destruct Ha as [<-|[<-|[<-|[<-|[]]]]]; reflexivity. }
  split; [exact codeUnitLocale_consistent|]. split; [exact Hrec|].
  split; [exact Hkey|].
  exact (X16_string_keys_are_sorted namedItems sortByNameDesc nameOf
           codeUnitLocale_consistent eq_refl Hrec Hkey).
Defined.

End SortWitnesses.
